(** * Trajectory store and target builder of the MuZero self-play core

    A shallow embedding of [GameStats] from [simulation.py]: the dense
    per-player buffers that record one episode per batch slot ([append],
    [update_last_reward_and_values]) and the construction of training
    windows from them ([make_target], with its helper [roll_by_gather]).

    Tensors are nested lists, [int64] entries are [Z] with the wrap-around
    of the tensor arithmetic written out, and a Python exception is the
    [Raise] outcome of a small error monad.  A stored [float32] entry is
    the rational it denotes ([Q]); the [float32] arithmetic of
    [make_target] goes through the operations of a structure [Float32],
    so what is proved of it holds whatever those operations round to. *)

From Stdlib Require Import ZArith QArith Qpower Bool Lia.
From stdpp Require Import base option list strings.

Open Scope string_scope.
Open Scope Z_scope.

(** ** Outcomes of a call *)

Inductive error : Type :=
| InvalidKey (key : string)  (* ValueError('invalid key: ...'), lines 117-120 *)
| NotInPlace                 (* ValueError('could not update tensor in place'), line 128 *)
| IndexError                 (* index out of range, or index tensors that do not broadcast *)
| RuntimeError.              (* shape or dtype mismatch of a tensor operation *)

Inductive result (A : Type) : Type :=
| Ok (a : A)
| Raise (e : error).
Arguments Ok {A} a.
Arguments Raise {A} e.

#[global] Instance result_ret : MRet result := fun A a => Ok a.
#[global] Instance result_bind : MBind result := fun A B f m =>
  match m with
  | Ok a => f a
  | Raise e => Raise e
  end.
#[global] Instance result_fmap : FMap result := fun A B f m =>
  match m with
  | Ok a => Ok (f a)
  | Raise e => Raise e
  end.

Definition or_raise {A} (e : error) (o : option A) : result A :=
  match o with
  | Some a => Ok a
  | None => Raise e
  end.

Definition check (e : error) (b : bool) : result unit :=
  if b then Ok tt else Raise e.

(** A loop whose body may raise: the first exception ends it. *)
Fixpoint mapR {A B} (f : A -> result B) (l : list A) : result (list B) :=
  match l with
  | [] => Ok []
  | a :: l' => b ← f a; bs ← mapR f l'; Ok (b :: bs)
  end.

Fixpoint foldR {A S} (f : S -> A -> result S) (l : list A) (s : S) : result S :=
  match l with
  | [] => Ok s
  | a :: l' => s' ← f s a; foldR f l' s'
  end.

(** ** Integer tensors *)

(** The value an [int64] tensor holds after an arithmetic result [z]. *)
Definition wrap64 (z : Z) : Z := (z + 2 ^ 63) mod 2 ^ 64 - 2 ^ 63.
Definition add64 (a b : Z) : Z := wrap64 (a + b).

(** Python and torch indexing: [i] in [-len, len), negative counts from the end. *)
Definition py_index (len : nat) (i : Z) : option nat :=
  if (0 <=? i) && (i <? Z.of_nat len) then Some (Z.to_nat i)
  else if (- Z.of_nat len <=? i) && (i <? 0) then Some (Z.to_nat (i + Z.of_nat len))
  else None.

(** The right-hand side of an indexed assignment to [m] cells: [m] values,
    or one value broadcast to all of them. *)
Definition expand {A} (m : nat) (v : list A) : option (list A) :=
  if Nat.eqb (length v) m then Some v
  else match v with
       | [x] => Some (replicate m x)
       | _ => None
       end.

(** [dst[i] = v] for one cell of a vector. *)
Definition put1 {A} (dst : list A) (i : nat) (v : A) : option (list A) :=
  if Nat.ltb i (length dst) then Some (<[i := v]> dst) else None.

(** [dst[r, c] = v] for one cell of a matrix, [c] a tensor index. *)
Definition put2 {A} (dst : list (list A)) (r : nat) (c : Z) (v : A)
  : option (list (list A)) :=
  row ← dst !! r;
  c' ← py_index (length row) c;
  Some (<[r := <[c' := v]> row]> dst).

(** [dst[rows, cols] = vals], cell by cell in index order. *)
Fixpoint index_put2 {A} (dst : list (list A)) (rows : list nat) (cols : list Z)
  (vals : list A) : option (list (list A)) :=
  match rows, cols, vals with
  | r :: rows', c :: cols', v :: vals' =>
      dst' ← put2 dst r c v; index_put2 dst' rows' cols' vals'
  | _, _, _ => Some dst
  end.

(** [dst[rows] = vals]. *)
Fixpoint index_put1 {A} (dst : list A) (rows : list nat) (vals : list A)
  : option (list A) :=
  match rows, vals with
  | r :: rows', v :: vals' => dst' ← put1 dst r v; index_put1 dst' rows' vals'
  | _, _ => Some dst
  end.

(** [dst[r, :, c] = v]: one column of the slot's [(action, step)] plane. *)
Fixpoint put_plane {A} (plane : list (list A)) (a : nat) (c : Z) (v : list A)
  : option (list (list A)) :=
  match v with
  | [] => Some plane
  | x :: v' => plane' ← put2 plane a c x; put_plane plane' (S a) c v'
  end.

Definition put3 {A} (dst : list (list (list A))) (r : nat) (c : Z) (v : list A)
  : option (list (list (list A))) :=
  plane ← dst !! r;
  plane' ← put_plane plane 0 c v;
  Some (<[r := plane']> dst).

(** [dst[rows, :, cols] = vals]. *)
Fixpoint index_put3 {A} (dst : list (list (list A))) (rows : list nat)
  (cols : list Z) (vals : list (list A)) : option (list (list (list A))) :=
  match rows, cols, vals with
  | r :: rows', c :: cols', v :: vals' =>
      dst' ← put3 dst r c v; index_put3 dst' rows' cols' vals'
  | _, _, _ => Some dst
  end.

(** [dst[r, :, c]] read back. *)
Definition get_plane_col {A} (plane : list (list A)) (c : Z) : option (list A) :=
  mapM (fun row : list A => c' ← py_index (length row) c; row !! c') plane.

Definition get3 {A} (src : list (list (list A))) (r : nat) (c : Z) : option (list A) :=
  plane ← src !! r; get_plane_col plane c.

(** ** Data model *)

(** One observation of one slot: the [(:, :, :)] block of a game-state
    tensor, flattened. *)
Definition observation : Type := list Q.

(** The tensors a caller can hand to [append]. *)
Inductive tensor : Type :=
| FloatT (v : list Q)            (* float, shape [M] *)
| FloatT2 (v : list (list Q))    (* float, shape [M, num_actions] *)
| LongT (v : list Z)             (* int64, shape [M] *)
| BoolT (v : list bool)          (* bool, shape [M] *)
| StateT (v : list observation). (* float, shape [batch, :, :, :] *)

Record Hparams : Type := {
  batch_size : nat;
  max_episode_len : nat;
  num_actions : nat;
  num_unroll_steps : nat;
  td_steps : nat;
  value_discount : Q
}.

Record GameStats : Type := {
  episode_len : list Z;                    (* [batch] int64 *)
  rewards : list (list Q);                 (* [batch, max_episode_len] *)
  root_values : list (list Q);             (* [batch, max_episode_len] *)
  children_visits : list (list (list Q));  (* [batch, num_actions, max_episode_len] *)
  actions : list (list Z);                 (* [batch, max_episode_len] int64 *)
  player_ids : list (list Z);              (* [batch, max_episode_len] int64 *)
  dones : list bool;                       (* [batch] bool *)
  game_states : list tensor                (* Python list, one entry per append *)
}.

Definition zeros {A} (z : A) (n : nat) : list A := replicate n z.

(** [GameStats.__init__] *)
Definition init (hp : Hparams) : GameStats := {|
  episode_len := zeros 0 (batch_size hp);
  rewards := zeros (zeros 0%Q (max_episode_len hp)) (batch_size hp);
  root_values := zeros (zeros 0%Q (max_episode_len hp)) (batch_size hp);
  children_visits :=
    zeros (zeros (zeros 0%Q (max_episode_len hp)) (num_actions hp)) (batch_size hp);
  actions := zeros (zeros 0 (max_episode_len hp)) (batch_size hp);
  player_ids := zeros (zeros 0 (max_episode_len hp)) (batch_size hp);
  dones := zeros false (batch_size hp);
  game_states := []
|}.

(** The keys of [stored_tensors].  The dictionary maps each key to the
    tensor object held in the attribute of the same name, so a write through
    [stored_tensors[key]] is a write to that attribute. *)
Definition stored_keys : list string :=
  ["rewards"; "root_values"; "children_visits"; "actions"; "player_ids";
   "dones"; "game_states"].

Definition is_stored (key : string) : bool := bool_decide (key ∈ stored_keys).

(** ** Recording a step: [GameStats.append] *)

Definition with_rewards (st : GameStats) (t : list (list Q)) : GameStats :=
  {| episode_len := episode_len st; rewards := t; root_values := root_values st;
     children_visits := children_visits st; actions := actions st;
     player_ids := player_ids st; dones := dones st; game_states := game_states st |}.

Definition with_root_values (st : GameStats) (t : list (list Q)) : GameStats :=
  {| episode_len := episode_len st; rewards := rewards st; root_values := t;
     children_visits := children_visits st; actions := actions st;
     player_ids := player_ids st; dones := dones st; game_states := game_states st |}.

Definition with_children_visits (st : GameStats) (t : list (list (list Q))) : GameStats :=
  {| episode_len := episode_len st; rewards := rewards st; root_values := root_values st;
     children_visits := t; actions := actions st;
     player_ids := player_ids st; dones := dones st; game_states := game_states st |}.

Definition with_actions (st : GameStats) (t : list (list Z)) : GameStats :=
  {| episode_len := episode_len st; rewards := rewards st; root_values := root_values st;
     children_visits := children_visits st; actions := t;
     player_ids := player_ids st; dones := dones st; game_states := game_states st |}.

Definition with_player_ids (st : GameStats) (t : list (list Z)) : GameStats :=
  {| episode_len := episode_len st; rewards := rewards st; root_values := root_values st;
     children_visits := children_visits st; actions := actions st;
     player_ids := t; dones := dones st; game_states := game_states st |}.

Definition with_dones (st : GameStats) (t : list bool) : GameStats :=
  {| episode_len := episode_len st; rewards := rewards st; root_values := root_values st;
     children_visits := children_visits st; actions := actions st;
     player_ids := player_ids st; dones := t; game_states := game_states st |}.

Definition with_game_states (st : GameStats) (t : list tensor) : GameStats :=
  {| episode_len := episode_len st; rewards := rewards st; root_values := root_values st;
     children_visits := children_visits st; actions := actions st;
     player_ids := player_ids st; dones := dones st; game_states := t |}.

Definition with_episode_len (st : GameStats) (t : list Z) : GameStats :=
  {| episode_len := t; rewards := rewards st; root_values := root_values st;
     children_visits := children_visits st; actions := actions st;
     player_ids := player_ids st; dones := dones st; game_states := game_states st |}.

(** [t[index]] for an index tensor: the slots it names, or [IndexError]. *)
Definition slots_of (n : nat) (index : list Z) : result (list nat) :=
  or_raise IndexError (mapM (py_index n) index).

Definition gather {A} (src : list A) (idx : list nat) : result (list A) :=
  or_raise IndexError (mapM (fun i => src !! i) idx).

(** [torch.any(value != new_visits)] *)
Definition any_differs (value new_visits : list (list Q)) : bool :=
  existsb (fun p => existsb (fun q => negb (Qeq_bool q.1 q.2)) (zip p.1 p.2))
          (zip value new_visits).

(** The body of the loop over [tensors_dict.items()], lines 117-134.
    [idx] is [index.long()] and [elen] is [self.episode_len[index]], both
    read before the loop.  The last four branches are the [else] of the
    source, [dst[index, episode_len] = value], on the tensor of each key;
    an indexed assignment raises when the dtypes of [dst] and [value]
    differ. *)
Definition append_field (hp : Hparams) (idx : list nat) (elen : list Z)
  (st : GameStats) (item : string * tensor) : result GameStats :=
  let (key, value) := item in
  if negb (is_stored key) then Raise (InvalidKey key)
  else if String.eqb key "children_visits" then
    match value with
    | FloatT2 v =>
        rows ← or_raise RuntimeError (expand (length idx) v);
        vals ← or_raise RuntimeError (mapM (expand (num_actions hp)) rows);
        dst ← or_raise IndexError (index_put3 (children_visits st) idx elen vals);
        new_visits ← or_raise IndexError
          (mapM (fun p : nat * Z => get3 dst p.1 p.2) (zip idx elen));
        if any_differs vals new_visits then Raise NotInPlace
        else Ok (with_children_visits st dst)
    | _ => Raise RuntimeError
    end
  else if String.eqb key "dones" then
    match value with
    | BoolT v =>
        vals ← or_raise RuntimeError (expand (length idx) v);
        dst ← or_raise IndexError (index_put1 (dones st) idx vals);
        Ok (with_dones st dst)
    | _ => Raise RuntimeError
    end
  else if String.eqb key "game_states" then
    Ok (with_game_states st (game_states st ++ [value]))
  else if String.eqb key "rewards" then
    match value with
    | FloatT v =>
        vals ← or_raise RuntimeError (expand (length idx) v);
        dst ← or_raise IndexError (index_put2 (rewards st) idx elen vals);
        Ok (with_rewards st dst)
    | _ => Raise RuntimeError
    end
  else if String.eqb key "root_values" then
    match value with
    | FloatT v =>
        vals ← or_raise RuntimeError (expand (length idx) v);
        dst ← or_raise IndexError (index_put2 (root_values st) idx elen vals);
        Ok (with_root_values st dst)
    | _ => Raise RuntimeError
    end
  else if String.eqb key "actions" then
    match value with
    | LongT v =>
        vals ← or_raise RuntimeError (expand (length idx) v);
        dst ← or_raise IndexError (index_put2 (actions st) idx elen vals);
        Ok (with_actions st dst)
    | _ => Raise RuntimeError
    end
  else
    match value with
    | LongT v =>
        vals ← or_raise RuntimeError (expand (length idx) v);
        dst ← or_raise IndexError (index_put2 (player_ids st) idx elen vals);
        Ok (with_player_ids st dst)
    | _ => Raise RuntimeError
    end.

(** [GameStats.append(index, tensors_dict)]; the dictionary is the list of
    its items in iteration order. *)
Definition append (hp : Hparams) (index : list Z) (tensors_dict : list (string * tensor))
  (st : GameStats) : result GameStats :=
  idx ← slots_of (length (episode_len st)) index;
  elen ← gather (episode_len st) idx;
  st' ← foldR (append_field hp idx elen) tensors_dict st;
  cur ← gather (episode_len st') idx;
  lens ← or_raise IndexError
    (index_put1 (episode_len st') idx (map (fun e => add64 e 1) cur));
  Ok (with_episode_len st' lens).

(** [GameStats.update_last_reward_and_values(win_index, rewards)] *)
Definition update_last_reward_and_values (win_index : list Z) (rws : list Q)
  (st : GameStats) : result GameStats :=
  idx ← slots_of (length (episode_len st)) win_index;
  elen ← gather (episode_len st) idx;
  vals ← or_raise RuntimeError (expand (length idx) rws);
  dst ← or_raise IndexError
    (index_put2 (rewards st) idx (map (fun e => add64 e (-1)) elen) vals);
  Ok (with_rewards st dst).

(** ** [float32] arithmetic *)

(** The arithmetic of [make_target] on [float32] tensors.  The results of
    the tensor operations are values of [f32]; nothing is assumed of the
    operations: sums and products round and may overflow, and the weights
    of [torch.logspace] are floating-point powers. *)
Class Float32 : Type := {
  f32 : Type;
  of_Q : Q -> f32;                          (* the entry that denotes a stored value *)
  fmul : f32 -> f32 -> f32;                 (* [x * y] *)
  fadd : f32 -> f32 -> f32;                 (* [x + y] *)
  fsum : list f32 -> f32;                   (* [row.sum()] of [t.sum(1)] *)
  logspace_entry : nat -> Q -> nat -> f32;  (* entry [j] of [torch.logspace(0, 1, steps, base)] *)
  last_discount : Q -> nat -> f32           (* [value_discount ** td_steps], operand of line 181 *)
}.

(** ** Training windows: [TrainElement] and [GameStats.make_target] *)

Module TrainElement.
Record t {fl : Float32} : Type := {
  start_index : Z;
  values : list f32;                (* [num_unroll_steps + 1] *)
  rewards : list Q;                 (* [num_unroll_steps + 1] *)
  children_visits : list (list Q);  (* [num_actions, num_unroll_steps + 1] *)
  initial_game_state : observation;
  actions : list Z;                 (* [num_unroll_steps + 1] *)
  sample_len : Z;
  player_ids : list Z               (* [num_unroll_steps + 1] *)
}.
End TrainElement.

(** [torch.logspace(0, 1, steps, base=base)], line 161: a vector of
    [steps] weights, whatever [steps] and [base] are. *)
Definition logspace_0_1 {fl : Float32} (steps : nat) (base : Q) : list f32 :=
  map (logspace_entry steps base) (seq 0 steps).

(** Lines 161-162: the weights, one row per window. *)
Definition discount_mult {fl : Float32} (hp : Hparams) (n : nat) : list (list f32) :=
  replicate n (logspace_0_1 (td_steps hp) (value_discount hp)).

(** [roll_by_gather(mat, dim, shifts)] for a 2D [mat] and a column
    [shifts] of shape [n_rows, 1]; Python returns [None] for another [dim]. *)
Definition roll_by_gather {A} (mat : list (list A)) (dim : nat) (shifts : list Z)
  : option (list (list A)) :=
  let n_rows := length mat in
  match dim with
  | O =>
      mapM (fun p : nat * (list A * Z) =>
              let '(r, (row, shift)) := p in
              mapM (fun c : nat =>
                      src ← mat !! Z.to_nat ((Z.of_nat r - shift) mod Z.of_nat n_rows);
                      src !! c)
                   (seq 0 (length row)))
           (zip (seq 0 n_rows) (zip mat shifts))
  | S O =>
      mapM (fun p : list A * Z =>
              let (row, shift) := p in
              let n_cols := length row in
              mapM (fun c : nat =>
                      row !! Z.to_nat ((Z.of_nat c - shift) mod Z.of_nat n_cols))
                   (seq 0 n_cols))
           (zip mat shifts)
  | _ => None
  end.

(** Elementwise product of two rows under torch broadcasting of the last
    dimension. *)
Definition mul_bcast {fl : Float32} (r w : list f32) : option (list f32) :=
  if Nat.eqb (length r) (length w) then Some (zip_with fmul r w)
  else match w, r with
       | [y], _ => Some (map (fun x => fmul x y) r)
       | _, [x] => Some (map (fun y => fmul x y) w)
       | _, _ => None
       end.

Definition bcast_ok (n m : nat) : bool :=
  Nat.eqb n m || Nat.eqb m 1 || Nat.eqb n 1.

(** [torch.where(all_rewards_index < lo, 0, row)] then
    [torch.where(all_rewards_index >= hi, 0, ...)], lines 186-187: the
    entries of the row that are kept, and 0 elsewhere. *)
Definition mask_window (row : list Q) (lo hi : Z) : list Q :=
  let below := imap (fun t r => if Z.of_nat t <? lo then 0%Q else r) row in
  imap (fun t r => if hi <=? Z.of_nat t then 0%Q else r) below.

(** What one pass of the loop over [unroll_step] writes into column
    [unroll_step] of the target tensors, and which rows it counts. *)
Record column {fl : Float32} : Type := {
  col_values : list f32;
  col_children_visits : list (list Q);
  col_player_ids : list Z;
  col_rewards : list Q;
  col_actions : list Z;
  col_valid : list bool
}.

(** [t[:, k]] of a matrix. *)
Definition select_col {A} (t : list (list A)) (k : nat) : result (list A) :=
  or_raise IndexError (mapM (fun row : list A => row !! k) t).

(** Lines 176-181: the bootstrap term of every row.  The rows selected by
    the mask index [root_values] together with the unmasked
    [bootstrap_index]: the two index tensors broadcast when all rows are
    selected, or when one is (and then the masked assignment of the result
    has the wrong shape). *)
Definition bootstrap_values {fl : Float32} (hp : Hparams) (st : GameStats)
  (bootstrap_index : list Z) (bootstrap_update_index : list bool)
  : result (list f32) :=
  let n := length bootstrap_index in
  let batch_index := seq 0 n in
  let values := zeros (of_Q 0) n in
  if existsb id bootstrap_update_index then
    let valid_batch_index :=
      omap (fun p : nat * bool => if p.2 then Some p.1 else None)
           (zip batch_index bootstrap_update_index) in
    let last_discount := last_discount (value_discount hp) (td_steps hp) in
    let read (p : nat * Z) : option Q :=
      row ← root_values st !! p.1; c ← py_index (length row) p.2; row !! c in
    if Nat.eqb (length valid_batch_index) n then
      got ← or_raise IndexError (mapM read (zip valid_batch_index bootstrap_index));
      Ok (map (fun v => fmul (of_Q v) last_discount) got)
    else
      match valid_batch_index with
      | [b] =>
          _ ← or_raise IndexError (mapM (fun i => read (b, i)) bootstrap_index);
          Raise RuntimeError
      | _ => Raise IndexError
      end
  else Ok values.

(** [start_unroll_index = start_index + unroll_step] and
    [bootstrap_index = start_unroll_index + td_steps], lines 166-167. *)
Definition unroll_index (start_index : list Z) (k : nat) : list Z :=
  map (fun s => add64 s (Z.of_nat k)) start_index.

Definition boot_index (hp : Hparams) (start_index : list Z) (k : nat) : list Z :=
  map (fun s => add64 s (Z.of_nat (td_steps hp))) (unroll_index start_index k).

(** The body of the loop over [unroll_step], lines 166-202.  The batch
    dimension of [start_index] has to be that of the store: a start per
    slot (broadcasting of a batch of size 1 is left out). *)
Definition unroll {fl : Float32} (hp : Hparams) (st : GameStats)
  (start_index : list Z) (discount_mult : list (list f32)) (unroll_step : nat)
  : result column :=
  let start_unroll_index := unroll_index start_index unroll_step in
  let bootstrap_index := boot_index hp start_index unroll_step in
  _ ← check RuntimeError (Nat.eqb (length start_index) (length (episode_len st)));
  let bootstrap_update_index := zip_with Z.ltb bootstrap_index (episode_len st) in
  values ← bootstrap_values hp st bootstrap_index bootstrap_update_index;
  let start_unroll_valid_bool_index :=
    zip_with Z.ltb start_unroll_index (episode_len st) in
  _ ← check RuntimeError (Nat.eqb (length start_index) (length (rewards st)));
  let rws :=
    zip_with (fun row sb => mask_window row sb.1 sb.2)
             (rewards st) (zip start_unroll_index bootstrap_index) in
  discount ← or_raise RuntimeError (roll_by_gather discount_mult 1 start_unroll_index);
  _ ← check RuntimeError (bcast_ok (max_episode_len hp) (td_steps hp));
  discounted_rewards ← or_raise RuntimeError
    (mapM (fun p : list Q * list f32 => mul_bcast (of_Q <$> p.1) p.2)
          (zip rws discount));
  let values := zip_with fadd values (map fsum discounted_rewards) in
  visits ← or_raise IndexError
    (mapM (fun plane : list (list Q) => mapM (fun row : list Q => row !! unroll_step) plane)
          (children_visits st));
  _ ← check RuntimeError
        (Nat.eqb (length visits) (length start_index)
         && forallb (fun v : list Q => Nat.eqb (length v) (num_actions hp)) visits);
  pids ← select_col (player_ids st) unroll_step;
  _ ← check RuntimeError (Nat.eqb (length pids) (length start_index));
  rs ← select_col (rewards st) unroll_step;
  acts ← select_col (actions st) unroll_step;
  _ ← check RuntimeError (Nat.eqb (length acts) (length start_index));
  Ok {| col_values := values; col_children_visits := visits; col_player_ids := pids;
        col_rewards := rs; col_actions := acts;
        col_valid := start_unroll_valid_bool_index |}.

(** [self.game_states[sidx][bidx, :, :, :]], line 154. *)
Definition initial_state (st : GameStats) (bidx : nat) (sidx : Z) : result observation :=
  i ← or_raise IndexError (py_index (length (game_states st)) sidx);
  g ← or_raise IndexError (game_states st !! i);
  match g with
  | StateT v => or_raise IndexError (v !! bidx)
  | _ => Raise IndexError
  end.

(** Lines 204-216: row [i] of every target tensor. *)
Definition element {fl : Float32} (hp : Hparams) (cols : list column) (i : nat)
  (sidx : Z) (obs : observation) : TrainElement.t := {|
  TrainElement.start_index := sidx;
  TrainElement.values := map (fun c => nth i (col_values c) (of_Q 0)) cols;
  TrainElement.rewards := map (fun c => nth i (col_rewards c) 0%Q) cols;
  TrainElement.children_visits :=
    map (fun a => map (fun c => nth a (nth i (col_children_visits c) []) 0%Q) cols)
        (seq 0 (num_actions hp));
  TrainElement.initial_game_state := obs;
  TrainElement.actions := map (fun c => nth i (col_actions c) 0) cols;
  TrainElement.sample_len :=
    fold_left (fun acc c => if nth i (col_valid c) false then add64 acc 1 else acc) cols 0;
  TrainElement.player_ids := map (fun c => nth i (col_player_ids c) 0) cols
|}.

(** [GameStats.make_target(start_index)].  Row [i] of [start_index] is the
    window of batch slot [i], so the call needs one start per slot; all
    tensors live on one device, so the check of lines 156-159 passes. *)
Definition make_target {fl : Float32} (hp : Hparams) (st : GameStats)
  (start_index : list Z) : result (list TrainElement.t) :=
  let n := length start_index in
  let batch_index := seq 0 n in
  initial_game_state ←
    mapR (fun p : nat * Z => initial_state st p.1 p.2) (zip batch_index start_index);
  cols ← mapR (unroll hp st start_index (discount_mult hp n))
              (seq 0 (S (num_unroll_steps hp)));
  Ok (imap (fun i p => element hp cols i p.1 p.2) (zip start_index initial_game_state)).

(** ** Reading the store *)

(** [t[r, p]] as a partial read, and the column that a tensor index [c]
    names in row [r]. *)
Definition cell2 {A} (dst : list (list A)) (r t : nat) : option A :=
  row ← dst !! r; row !! t.

Definition row_pos {A} (dst : list (list A)) (r : nat) (c : Z) : option nat :=
  len ← length <$> dst !! r; py_index len c.

(** The same for [t[r, a, p]]. *)
Definition cell3 {A} (dst : list (list (list A))) (r a t : nat) : option A :=
  plane ← dst !! r; cell2 plane a t.

Definition pos3 {A} (dst : list (list (list A))) (r a : nat) (c : Z) : option nat :=
  plane ← dst !! r; row_pos plane a c.

(** ** Vocabulary of the properties *)

(** The assignment each key of [stored_tensors] performs on its tensor. *)
Definition write2Q (idx : list nat) (elen : list Z) (value : tensor)
  (dst : list (list Q)) : option (list (list Q)) :=
  match value with
  | FloatT v => vals ← expand (length idx) v; index_put2 dst idx elen vals
  | _ => None
  end.

Definition write2Z (idx : list nat) (elen : list Z) (value : tensor)
  (dst : list (list Z)) : option (list (list Z)) :=
  match value with
  | LongT v => vals ← expand (length idx) v; index_put2 dst idx elen vals
  | _ => None
  end.

Definition write1B (idx : list nat) (value : tensor) (dst : list bool)
  : option (list bool) :=
  match value with
  | BoolT v => vals ← expand (length idx) v; index_put1 dst idx vals
  | _ => None
  end.

Definition write3Q (hp : Hparams) (idx : list nat) (elen : list Z) (value : tensor)
  (dst : list (list (list Q))) : option (list (list (list Q))) :=
  match value with
  | FloatT2 v =>
      rows ← expand (length idx) v;
      vals ← mapM (expand (num_actions hp)) rows;
      index_put3 dst idx elen vals
  | _ => None
  end.

(** The shapes [__init__] gives the tensors. *)
Definition rect2 {A} (b l : nat) (t : list (list A)) : bool :=
  Nat.eqb (length t) b && forallb (fun row : list A => Nat.eqb (length row) l) t.

Definition rect3 {A} (b a l : nat) (t : list (list (list A))) : bool :=
  Nat.eqb (length t) b && forallb (rect2 a l) t.

Definition shape_okb (hp : Hparams) (st : GameStats) : bool :=
  Nat.eqb (length (episode_len st)) (batch_size hp)
  && rect2 (batch_size hp) (max_episode_len hp) (rewards st)
  && rect2 (batch_size hp) (max_episode_len hp) (root_values st)
  && rect3 (batch_size hp) (num_actions hp) (max_episode_len hp) (children_visits st)
  && rect2 (batch_size hp) (max_episode_len hp) (actions st)
  && rect2 (batch_size hp) (max_episode_len hp) (player_ids st)
  && Nat.eqb (length (dones st)) (batch_size hp).

Definition shape_ok (hp : Hparams) (st : GameStats) : Prop := shape_okb hp st = true.

(** One entry of a stored tensor or of a tensor handed to [append]. *)
Inductive cell : Type :=
| CFloat (q : Q)
| CLong (z : Z)
| CBool (b : bool)
| CVec (v : list Q)
| CObs (o : observation).

(** The keys whose tensor has a step dimension. *)
Definition per_step_keys : list string :=
  ["rewards"; "root_values"; "children_visits"; "actions"; "player_ids"].

(** What the store holds for [key] at [(slot, step)]: the cell of a tensor
    with a step dimension, the single flag of [dones], and the capture that
    [make_target] reads as [game_states[step][slot]]. *)
Definition field_at (st : GameStats) (key : string) (slot step : nat) : option cell :=
  if String.eqb key "rewards" then CFloat <$> cell2 (rewards st) slot step
  else if String.eqb key "root_values" then CFloat <$> cell2 (root_values st) slot step
  else if String.eqb key "children_visits" then
    plane ← children_visits st !! slot;
    CVec <$> mapM (fun row : list Q => row !! step) plane
  else if String.eqb key "actions" then CLong <$> cell2 (actions st) slot step
  else if String.eqb key "player_ids" then CLong <$> cell2 (player_ids st) slot step
  else if String.eqb key "dones" then CBool <$> dones st !! slot
  else if String.eqb key "game_states" then
    g ← game_states st !! step;
    match g with
    | StateT v => CObs <$> v !! slot
    | _ => None
    end
  else None.

(** The entry of [value] meant for the [m]-th active slot, [slot]: row [m]
    of a tensor over the active slots, row [slot] of a whole-batch capture. *)
Definition supplied (hp : Hparams) (n : nat) (value : tensor) (m slot : nat)
  : option cell :=
  match value with
  | FloatT v => vals ← expand n v; CFloat <$> vals !! m
  | FloatT2 v => rows ← expand n v; row ← rows !! m; CVec <$> expand (num_actions hp) row
  | LongT v => vals ← expand n v; CLong <$> vals !! m
  | BoolT v => vals ← expand n v; CBool <$> vals !! m
  | StateT v => CObs <$> v !! slot
  end.

(** The position that [episode_len[slot] - 1] names in the slot's row of
    [rewards]. *)
Definition last_pos (st : GameStats) (slot : nat) : option nat :=
  e ← episode_len st !! slot; row_pos (rewards st) slot (add64 e (-1)).

(** The claim that [append] puts the entry meant for an active slot at
    step [episode_len[slot]] of the slot, for the keys in [keys]. *)
Definition writes_at_episode_len (keys : list string) : Prop :=
  forall hp index dict st st' idx,
    append hp index dict st = Ok st' ->
    mapM (py_index (length (episode_len st))) index = Some idx ->
    NoDup idx -> NoDup dict.*1 -> shape_ok hp st ->
    Forall (fun e => 0 <= e < 2 ^ 63 - 1) (episode_len st) ->
    forall key value m slot e c,
      key ∈ keys -> (key, value) ∈ dict ->
      idx !! m = Some slot -> episode_len st !! slot = Some e ->
      supplied hp (length idx) value m slot = Some c ->
      field_at st' key slot (Z.to_nat e) = Some c.

(** The claim that the done flag of every step stays readable: some way of
    reading the store per [(slot, step)] returns the flag an [append]
    records at the slot's current step, and keeps returning what it
    returned for earlier steps. *)
Definition done_flag_kept_per_step : Prop :=
  exists read : GameStats -> nat -> nat -> option bool,
    forall hp index dict st st' idx v m slot e b,
      append hp index dict st = Ok st' ->
      mapM (py_index (length (episode_len st))) index = Some idx ->
      NoDup idx -> NoDup dict.*1 -> shape_ok hp st ->
      Forall (fun e => 0 <= e < 2 ^ 63 - 1) (episode_len st) ->
      ("dones", BoolT v) ∈ dict -> length v = length idx ->
      idx !! m = Some slot -> episode_len st !! slot = Some e -> v !! m = Some b ->
      read st' slot (Z.to_nat e) = Some b /\
      (forall step, Z.of_nat step < e -> read st' slot step = read st slot step).

(** Window starts for which the [int64] index arithmetic of [make_target]
    does not wrap. *)
Definition in_range (hp : Hparams) (s : Z) : Prop :=
  0 <= s /\ s + Z.of_nat (num_unroll_steps hp) + Z.of_nat (td_steps hp) + 1 < 2 ^ 63.

(** The number of offsets [k] in [0..K] with [s + k] inside an episode of
    [e] steps. *)
Definition steps_in_episode (s e : Z) (K : nat) : nat :=
  length (List.filter (fun k => s + Z.of_nat k <? e) (seq 0 (S K))).

(** The reward and the root value stored for a slot at absolute step [t]
    (0 outside the buffer). *)
Definition reward_at (st : GameStats) (slot : nat) (t : Z) : Q :=
  if 0 <=? t then default 0%Q (cell2 (rewards st) slot (Z.to_nat t)) else 0%Q.

Definition root_value_at (st : GameStats) (slot : nat) (t : Z) : Q :=
  if 0 <=? t then default 0%Q (cell2 (root_values st) slot (Z.to_nat t)) else 0%Q.

(** What the root-value tensor holds where a tensor index points. *)
Definition root_read (st : GameStats) (slot : nat) (b : Z) : option Q :=
  row ← root_values st !! slot; c ← py_index (length row) b; row !! c.

(** Row [i] of [roll_by_gather(mat, 1, shifts)]. *)
Definition roll_row {A} (row : list A) (shift : Z) : option (list A) :=
  mapM (fun c : nat => row !! Z.to_nat ((Z.of_nat c - shift) mod Z.of_nat (length row)))
       (seq 0 (length row)).

(** ** Worked stores *)

(** The store a call leaves behind. *)
Definition stored (fallback : GameStats) (r : result GameStats) : GameStats :=
  match r with
  | Ok st => st
  | Raise _ => fallback
  end.

(** The dictionary [run_single_game] hands to [append], in its order. *)
Definition step_dict (visits : list (list Q)) (value reward : list Q)
  (action : list Z) (done : list bool) (obs : list observation)
  : list (string * tensor) :=
  [("children_visits", FloatT2 visits); ("root_values", FloatT value);
   ("game_states", StateT obs); ("rewards", FloatT reward);
   ("actions", LongT action); ("dones", BoolT done); ("player_ids", LongT [1])].

Definition Qsum (l : list Q) : Q := foldr Qplus 0%Q l.

(** The exact [n]-th root of a natural number, when it is one. *)
Definition Zroot (n : nat) (a : Z) : option Z :=
  find (fun r => Z.eqb (r ^ Z.of_nat n) a) (map Z.of_nat (seq 0 (S (Z.to_nat a)))).

(** The exact non-negative [n]-th root of a rational, when it is rational. *)
Definition Qroot (n : nat) (q : Q) : option Q :=
  let q' := Qred q in
  if Qnum q' <? 0 then None
  else rn ← Zroot n (Qnum q'); rd ← Zroot n (Zpos (Qden q')); Some (rn # Z.to_pos rd).

(** The arithmetic of the worked windows below, whose values are small
    dyadic numbers: every operation returns the exact rational, which is
    what [float32] returns on such values.  Entry [j] of
    [logspace(0, 1, steps, base)] is [base ^ (j / (steps - 1))], the
    exponents being spaced evenly from 0 to 1 ([base ^ 0] alone when
    [steps = 1]); the worked windows use bases with a rational root only
    (the entry is entered as 0 otherwise). *)
Definition exact : Float32 := {|
  f32 := Q;
  of_Q := fun q => q;
  fmul := Qmult;
  fadd := Qplus;
  fsum := Qsum;
  logspace_entry := fun steps base j =>
    match steps with
    | S (S _ as n) => from_option (fun r => (r ^ Z.of_nat j)%Q) 0%Q (Qroot n base)
    | _ => 1%Q
    end;
  last_discount := fun d n => Qred (d ^ Z.of_nat n)
|}.

(** One slot, one-step targets; two recorded steps. *)
Definition hp_a : Hparams :=
  {| batch_size := 1; max_episode_len := 3; num_actions := 2;
     num_unroll_steps := 1; td_steps := 1; value_discount := 1 |}.

Definition dict_a1 : list (string * tensor) :=
  step_dict [[1%Q; 2%Q]] [10%Q] [5%Q] [1] [false] [[11%Q]].
Definition dict_a2 : list (string * tensor) :=
  step_dict [[3%Q; 4%Q]] [20%Q] [7%Q] [0] [true] [[12%Q]].

Definition store_a1 : GameStats :=
  Eval vm_compute in stored (init hp_a) (append hp_a [0] dict_a1 (init hp_a)).
Definition store_a2 : GameStats :=
  Eval vm_compute in stored (init hp_a) (append hp_a [0] dict_a2 store_a1).
Definition store_a3 : GameStats :=
  Eval vm_compute in
    stored (init hp_a) (update_last_reward_and_values [0] [(-1)%Q] store_a2).

Definition target_a (st : GameStats) (start : Z) : @TrainElement.t exact :=
  match make_target hp_a st [start] with
  | Ok [el] => el
  | _ => element hp_a [] 0 0 []
  end.

(** Two slots; slot 0 has recorded one step, slot 1 none. *)
Definition hp_b : Hparams :=
  {| batch_size := 2; max_episode_len := 2; num_actions := 1;
     num_unroll_steps := 1; td_steps := 1; value_discount := 1 |}.

Definition store_b1 : GameStats :=
  Eval vm_compute in
    stored (init hp_b)
      (append hp_b [0] (step_dict [[1%Q]] [3%Q] [0%Q] [0] [false] [[11%Q]; [12%Q]])
              (init hp_b)).

(** The opponent of slot 1 wins at its first move: the loss is written for
    slot 1, which holds no step yet. *)
Definition store_b2 : GameStats :=
  Eval vm_compute in
    stored (init hp_b) (update_last_reward_and_values [1] [(-1)%Q] store_b1).

(** One slot, three recorded steps of reward 1, and [td_steps] equal to
    [max_episode_len]. *)
Definition hp_c : Hparams :=
  {| batch_size := 1; max_episode_len := 3; num_actions := 1;
     num_unroll_steps := 0; td_steps := 3; value_discount := 1 # 4 |}.

Definition dict_c : list (string * tensor) :=
  step_dict [[1%Q]] [0%Q] [1%Q] [0] [false] [[11%Q]].

Definition store_c : GameStats :=
  Eval vm_compute in
    stored (init hp_c)
      (st ← append hp_c [0] dict_c (init hp_c);
       st ← append hp_c [0] dict_c st;
       append hp_c [0] dict_c st).

(** The same store read with [td_steps = 2]. *)
Definition hp_c2 : Hparams :=
  {| batch_size := 1; max_episode_len := 3; num_actions := 1;
     num_unroll_steps := 0; td_steps := 2; value_discount := 1 # 4 |}.

(** Two slots with episodes of 2 steps and 1 step. *)
Definition hp_d : Hparams :=
  {| batch_size := 2; max_episode_len := 3; num_actions := 1;
     num_unroll_steps := 0; td_steps := 1; value_discount := 1 |}.

Definition store_d : GameStats :=
  Eval vm_compute in
    stored (init hp_d)
      (st ← append hp_d [0; 1]
              (step_dict [[1%Q]; [1%Q]] [3%Q; 4%Q] [0%Q; 1%Q] [0; 0] [false; true]
                         [[11%Q]; [12%Q]])
              (init hp_d);
       append hp_d [0]
              (step_dict [[1%Q]] [5%Q] [1%Q] [0] [true] [[13%Q]; [12%Q]]) st).

(** The n-step return as section 4.3 of the specification words it: the
    [td_steps] rewards from [start + k] on, the [j]-th scaled by
    [discount ^ j] and dropped beyond the episode end, plus the root value
    at the bootstrap index scaled by [discount ^ td_steps] when that index
    is inside the episode. *)
Definition n_step_return (hp : Hparams) (st : GameStats) (slot : nat) (s : Z) (k : nat)
  : Q :=
  let e := default 0 (episode_len st !! slot) in
  let t0 := s + Z.of_nat k in
  let hi := t0 + Z.of_nat (td_steps hp) in
  let term (j : nat) : Q :=
    let t := t0 + Z.of_nat j in
    if t <? e then (value_discount hp ^ Z.of_nat j * reward_at st slot t)%Q else 0%Q in
  let bootstrap : Q :=
    if hi <? e
    then (value_discount hp ^ Z.of_nat (td_steps hp) * root_value_at st slot hi)%Q
    else 0%Q in
  (Qsum (map term (seq 0 (td_steps hp))) + bootstrap)%Q.

Definition target_c : @TrainElement.t exact :=
  match make_target hp_c store_c [0] with
  | Ok [el] => el
  | _ => element hp_c [] 0 0 []
  end.

(** What the properties of one-step targets use of [float32] arithmetic:
    [logspace] with one step returns [base ^ 0 = 1]; a discount of 1 has
    the power 1; a product with 1 is its other factor; and sums with zeros
    are exact: [0 + x] is [x], a vector of zeros sums to 0 and a vector
    with one other entry sums to that entry. *)
Record one_step_facts (fl : Float32) : Prop := {
  logspace_one : forall base, logspace_entry 1 base 0 = of_Q 1;
  last_discount_one : forall d n, (d == 1)%Q -> last_discount d n = of_Q 1;
  fmul_one : forall x, fmul x (of_Q 1) = x;
  fadd_zero : forall q, fadd (of_Q 0) (of_Q q) = of_Q q;
  fsum_zeros : forall n, fsum (replicate n (of_Q 0)) = of_Q 0;
  fsum_single : forall n m q,
    fsum (replicate n (of_Q 0) ++ of_Q q :: replicate m (of_Q 0)) = of_Q q
}.

(** Step [t] lies in the reward window of offset [k] of a window starting
    at [s]. *)
Definition in_window (hp : Hparams) (s : Z) (k t : nat) : Prop :=
  s + Z.of_nat k <= Z.of_nat t < s + Z.of_nat k + Z.of_nat (td_steps hp).

(** The claim that the target value of offset [k] is the same for two
    stores that hold the same data except for rewards, and whose rewards
    agree wherever [inside] holds. *)
Definition target_value_blind_outside (fl : Float32)
  (inside : Hparams -> GameStats -> nat -> Z -> nat -> nat -> Prop) : Prop :=
  forall hp st1 st2 start_index res1 res2 k,
    make_target hp st1 start_index = Ok res1 ->
    make_target hp st2 start_index = Ok res2 ->
    shape_ok hp st1 -> shape_ok hp st2 ->
    st2 = with_rewards st1 (rewards st2) ->
    Forall (in_range hp) start_index ->
    (k <= num_unroll_steps hp)%nat ->
    (forall slot s t,
        start_index !! slot = Some s -> inside hp st1 slot s k t ->
        cell2 (rewards st1) slot t = cell2 (rewards st2) slot t) ->
    forall i el1 el2 v1 v2,
      res1 !! i = Some el1 -> res2 !! i = Some el2 ->
      TrainElement.values el1 !! k = Some v1 ->
      TrainElement.values el2 !! k = Some v2 ->
      v1 = v2.

(** Inside the window and inside the episode. *)
Definition in_window_and_episode (hp : Hparams) (st : GameStats) (slot : nat)
  (s : Z) (k t : nat) : Prop :=
  in_window hp s k t /\
  exists e, episode_len st !! slot = Some e /\ Z.of_nat t < e.

(** The windows of the two-slot store that start at step 1 of slot 0 and
    at step 0 of slot 1. *)
Definition targets_d : list (@TrainElement.t exact) :=
  match make_target hp_d store_d [1; 0] with
  | Ok res => res
  | Raise _ => []
  end.

(** Every difference [c - shift] of a column [c < n] and the shift is an
    [int64]: the subtraction [arange1 - shifts] of [roll_by_gather] does
    not wrap. *)
Definition shift_fits (n : nat) (shift : Z) : Prop :=
  - 2 ^ 63 <= shift < 2 ^ 63 /\ Z.of_nat n - shift <= 2 ^ 63.

(** One shift per row of the matrix, each within [shift_fits]. *)
Definition shifts_fit (mat : list (list Q)) (shifts : list Z) : Prop :=
  Forall2 (fun row shift => shift_fits (length row) shift) mat shifts.

(** A matrix of two rows and the shifts 1 and 2, and the shifts back. *)
Definition mat_r : list (list Q) := [[1%Q; 2%Q; 3%Q]; [4%Q; 5%Q; 6%Q]].
Definition shifts_r : list Z := [1; 2].
Definition shifts_back_r : list Z := [-1; -2].
Definition rolled_r : list (list Q) := [[3%Q; 1%Q; 2%Q]; [5%Q; 6%Q; 4%Q]].

(** [GameStats.__len__]: the [int64] sum of [episode_len]. *)
Definition __len__ (st : GameStats) : Z := wrap64 (foldr Z.add 0 (episode_len st)).

(** The keys that [append] writes as [dst[index, episode_len] = value] on
    a tensor of shape [batch, max_episode_len]. *)
Definition step_keys : list string := ["rewards"; "root_values"; "actions"; "player_ids"].

(** A slot with at least one recorded step. *)
Definition has_step (st : GameStats) (slot : nat) : Prop :=
  exists e, episode_len st !! slot = Some e /\ 1 <= e.

(** The stores of a game: what [__init__] sets up, after any number of
    successful calls of [append] with a dictionary that carries the
    rewards, and of [update_last_reward_and_values] on slots that
    [allowed] admits. *)
Inductive recorded (hp : Hparams) (allowed : GameStats -> nat -> Prop)
  : GameStats -> Prop :=
| recorded_init : recorded hp allowed (init hp)
| recorded_append index dict st st' :
    recorded hp allowed st ->
    NoDup dict.*1 -> "rewards" ∈ dict.*1 ->
    append hp index dict st = Ok st' ->
    recorded hp allowed st'
| recorded_update win_index rws idx st st' :
    recorded hp allowed st ->
    slots_of (length (episode_len st)) win_index = Ok idx ->
    Forall (allowed st) idx ->
    update_last_reward_and_values win_index rws st = Ok st' ->
    recorded hp allowed st'.

(** Every episode length is a number of steps that fits the buffer. *)
Definition episode_len_bounded (hp : Hparams) (st : GameStats) : Prop :=
  Forall (fun e => 0 <= e <= Z.of_nat (max_episode_len hp)) (episode_len st).

(** The rewards at and past the episode end are zero. *)
Definition zero_past_end (st : GameStats) : Prop :=
  forall slot e t x,
    episode_len st !! slot = Some e -> e <= Z.of_nat t ->
    cell2 (rewards st) slot t = Some x -> x = 0%Q.

(** ** One step of [run_single_game]: the loss of the other player *)

(** An elementwise operation on two vectors under torch broadcasting. *)
Definition bcast2 {A B C} (f : A -> B -> C) (x : list A) (y : list B)
  : option (list C) :=
  if Nat.eqb (length x) (length y) then Some (zip_with f x y)
  else match x, y with
       | [a], _ => Some (map (f a) y)
       | _, [b] => Some (map (fun a => f a b) x)
       | _, _ => None
       end.

(** [t[mask]] for a boolean mask, which has to have the shape of [t]. *)
Definition masked {A} (t : list A) (mask : list bool) : result (list A) :=
  _ ← check IndexError (Nat.eqb (length mask) (length t));
  Ok (omap (fun p : A * bool => if p.2 then Some p.1 else None) (zip t mask)).

(** Lines 323-326 of [run_single_game]: the active games that the mover
    has just won, [active_games_index[(dones == True) & (rewards > 0)]],
    get the reward -1 at the last step of the other player, whose store is
    [other]. *)
Definition correct_other_player (active_games_index : list Z) (dones : list bool)
  (rewards : list Q) (other : GameStats) : result GameStats :=
  mask ← or_raise RuntimeError
    (bcast2 andb dones (map (fun r => negb (Qle_bool r 0)) rewards));
  win_index ← masked active_games_index mask;
  let other_rewards := map (fun _ => (-1)%Q) win_index in
  update_last_reward_and_values win_index other_rewards other.

(** Slot [slot] is an active game that ended with a positive reward. *)
Definition wins (active_games_index : list Z) (dones : list bool) (rewards : list Q)
  (slot : nat) : Prop :=
  exists m i r,
    active_games_index !! m = Some i /\ Z.to_nat i = slot /\
    dones !! m = Some true /\ rewards !! m = Some r /\ (0 < r)%Q.

(** * Properties *)

(** ** The error monad *)

Section Monad.
Context {A B : Type}.

Lemma bind_Ok (m : result A) (f : A -> result B) (b : B) :
  m ≫= f = Ok b <-> exists a, m = Ok a /\ f a = Ok b.
Proof.
  destruct m as [a|e]; simpl; split.
  - intros H. exists a. done.
  - intros (a' & [= <-] & H). done.
  - done.
  - intros (a' & [=] & _).
Qed.

Lemma bind_Raise (m : result A) (f : A -> result B) (e : error) :
  m ≫= f = Raise e <-> m = Raise e \/ exists a, m = Ok a /\ f a = Raise e.
Proof.
  destruct m as [a|e']; simpl; split.
  - intros H. right. exists a. done.
  - intros [[=]|(a' & [= <-] & H)]. done.
  - intros [= ->]. by left.
  - intros [[= ->]|(a' & [=] & _)]. done.
Qed.

Lemma or_raise_Ok (e : error) (o : option A) (a : A) :
  or_raise e o = Ok a <-> o = Some a.
Proof. destruct o; simpl; split; congruence. Qed.

Lemma or_raise_Raise (e e' : error) (o : option A) :
  or_raise e o = Raise e' -> e' = e /\ o = None.
Proof. destruct o; simpl; [done|]. by intros [= ->]. Qed.
End Monad.

Lemma check_Ok (e : error) (b : bool) (u : unit) : check e b = Ok u <-> b = true.
Proof. destruct b, u; simpl; split; congruence. Qed.

(** Splits a successful run of a sequence of binds into its steps. *)
Ltac inv_ok :=
  repeat match goal with
         | H : _ ≫= _ = Ok _ |- _ =>
             let a := fresh "a" in
             let Ha := fresh "Ha" in
             apply bind_Ok in H; destruct H as (a & Ha & H)
         | H : or_raise _ _ = Ok _ |- _ => apply or_raise_Ok in H
         | H : check _ _ = Ok _ |- _ => apply check_Ok in H
         | H : Ok _ = Ok _ |- _ => injection H as H
         | H : Raise _ = Ok _ |- _ => discriminate H
         end.

Section Loops.
Context {A B : Type}.

Lemma mapR_Ok (f : A -> result B) (l : list A) (bs : list B) :
  mapR f l = Ok bs <-> Forall2 (fun a b => f a = Ok b) l bs.
Proof.
  revert bs. induction l as [|a l IH]; intros bs; simpl.
  - split.
    + intros [= <-]. constructor.
    + intros H. inversion H. done.
  - split.
    + intros H. inv_ok. subst bs. constructor; [done|]. by apply IH.
    + intros H. inversion H as [|? b ? bs' Hb Hbs]; subst.
      rewrite Hb. simpl. apply IH in Hbs. rewrite Hbs. done.
Qed.

Lemma mapR_lookup (f : A -> result B) (l : list A) (bs : list B) (i : nat) (a : A) :
  mapR f l = Ok bs -> l !! i = Some a -> exists b, bs !! i = Some b /\ f a = Ok b.
Proof.
  intros H Ha. apply mapR_Ok in H.
  destruct (Forall2_lookup_l _ _ _ _ _ H Ha) as (b & Hb & Hf). eauto.
Qed.

Lemma mapR_length (f : A -> result B) (l : list A) (bs : list B) :
  mapR f l = Ok bs -> length bs = length l.
Proof. intros H. apply mapR_Ok in H. symmetry. by eapply Forall2_length. Qed.
End Loops.

(** ** Indices *)

Lemma wrap64_small (z : Z) : - 2 ^ 63 <= z < 2 ^ 63 -> wrap64 z = z.
Proof. intros H. unfold wrap64. rewrite Z.mod_small; lia. Qed.

Lemma add64_small (a b : Z) : - 2 ^ 63 <= a + b < 2 ^ 63 -> add64 a b = a + b.
Proof. apply wrap64_small. Qed.

Lemma py_index_lt (len : nat) (i : Z) (p : nat) :
  py_index len i = Some p -> (p < len)%nat.
Proof. unfold py_index. repeat case_match; intros [= <-]; lia. Qed.

Lemma py_index_nonneg (len : nat) (i : Z) :
  0 <= i < Z.of_nat len -> py_index len i = Some (Z.to_nat i).
Proof.
  intros H. unfold py_index.
  destruct (0 <=? i) eqn:E1; [|lia]. destruct (i <? Z.of_nat len) eqn:E2; [done|lia].
Qed.

Lemma py_index_nonneg_inv (len : nat) (i : Z) (p : nat) :
  0 <= i -> py_index len i = Some p -> p = Z.to_nat i /\ i < Z.of_nat len.
Proof.
  intros H. unfold py_index. repeat case_match; intros [= <-]; lia.
Qed.

Lemma py_index_minus_one (len : nat) :
  (1 <= len)%nat -> py_index len (-1) = Some (len - 1)%nat.
Proof.
  intros H. unfold py_index. simpl.
  destruct (- Z.of_nat len <=? -1) eqn:E; [|lia]. simpl. f_equal. lia.
Qed.

Lemma expand_same {A} (m : nat) (v : list A) : length v = m -> expand m v = Some v.
Proof. intros H. unfold expand. rewrite <- H, Nat.eqb_refl. done. Qed.

Lemma expand_length {A} (m : nat) (v vals : list A) :
  expand m v = Some vals -> length vals = m.
Proof.
  unfold expand. destruct (Nat.eqb (length v) m) eqn:E.
  - intros [= <-]. by apply Nat.eqb_eq.
  - destruct v as [|x [|]]; try done. intros [= <-]. apply length_replicate.
Qed.

(** ** Indexed assignment *)

Section Put.
Context {A : Type}.
Implicit Types (dst : list (list A)) (r s t m : nat) (c : Z) (v : A).

Lemma put2_inv dst r c v dst' :
  put2 dst r c v = Some dst' ->
  exists row t, dst !! r = Some row /\ py_index (length row) c = Some t /\
                dst' = <[r := <[t := v]> row]> dst.
Proof.
  unfold put2. intros H.
  destruct (dst !! r) as [row|] eqn:Hr; simpl in H; [|done].
  destruct (py_index (length row) c) as [t|] eqn:Ht; simpl in H; [|done].
  injection H as <-. eauto.
Qed.

Lemma put2_row_length dst r c v dst' s :
  put2 dst r c v = Some dst' -> length <$> dst' !! s = length <$> dst !! s.
Proof.
  intros H. apply put2_inv in H as (row & t & Hr & Ht & ->).
  destruct (decide (r = s)) as [->|Hne].
  - rewrite list_lookup_insert_eq by (by eapply lookup_lt_Some).
    rewrite Hr. simpl. by rewrite length_insert.
  - by rewrite list_lookup_insert_ne.
Qed.

Lemma put2_row_pos dst r c v dst' s c' :
  put2 dst r c v = Some dst' -> row_pos dst' s c' = row_pos dst s c'.
Proof. intros H. unfold row_pos. by rewrite (put2_row_length _ _ _ _ _ s H). Qed.

Lemma put2_hit dst r c v dst' :
  put2 dst r c v = Some dst' ->
  exists t, row_pos dst r c = Some t /\ cell2 dst' r t = Some v.
Proof.
  intros H. apply put2_inv in H as (row & t & Hr & Ht & ->).
  exists t. unfold row_pos, cell2. rewrite Hr. simpl. split; [done|].
  rewrite list_lookup_insert_eq by (by eapply lookup_lt_Some). simpl.
  apply list_lookup_insert_eq. by eapply py_index_lt.
Qed.

Lemma put2_miss dst r c v dst' s t :
  put2 dst r c v = Some dst' ->
  (s = r -> row_pos dst r c <> Some t) ->
  cell2 dst' s t = cell2 dst s t.
Proof.
  intros H Hmiss. apply put2_inv in H as (row & t0 & Hr & Ht & ->).
  unfold cell2. destruct (decide (r = s)) as [->|Hne].
  - rewrite list_lookup_insert_eq by (by eapply lookup_lt_Some).
    rewrite Hr. simpl. apply list_lookup_insert_ne. intros ->.
    apply Hmiss; [done|]. unfold row_pos. by rewrite Hr.
  - by rewrite list_lookup_insert_ne.
Qed.

Lemma index_put2_row_length dst rows cols (vals : list A) dst' s :
  index_put2 dst rows cols vals = Some dst' ->
  length <$> dst' !! s = length <$> dst !! s.
Proof.
  revert dst cols vals.
  induction rows as [|r rows IH]; intros dst [|c cols] [|v vals] H;
    simpl in H; try (by injection H as <-).
  destruct (put2 dst r c v) as [d1|] eqn:Hput; simpl in H; [|done].
  rewrite (IH _ _ _ H). by eapply put2_row_length.
Qed.

Lemma index_put2_row_pos dst rows cols (vals : list A) dst' s c :
  index_put2 dst rows cols vals = Some dst' -> row_pos dst' s c = row_pos dst s c.
Proof.
  intros H. unfold row_pos. by rewrite (index_put2_row_length _ _ _ _ _ s H).
Qed.

Lemma index_put2_length dst rows cols (vals : list A) dst' :
  index_put2 dst rows cols vals = Some dst' -> length dst' = length dst.
Proof.
  intros H. apply Nat.le_antisymm; apply Nat.nlt_ge; intros Hlt.
  - pose proof (index_put2_row_length _ _ _ _ _ (length dst) H) as E.
    rewrite (lookup_ge_None_2 dst) in E by lia.
    destruct (lookup_lt_is_Some_2 dst' (length dst) Hlt) as [x Hx].
    by rewrite Hx in E.
  - pose proof (index_put2_row_length _ _ _ _ _ (length dst') H) as E.
    rewrite (lookup_ge_None_2 dst') in E by lia.
    destruct (lookup_lt_is_Some_2 dst (length dst') Hlt) as [x Hx].
    by rewrite Hx in E.
Qed.

(** A cell that no index pair names keeps its content. *)
Lemma index_put2_frame dst rows cols (vals : list A) dst' s t :
  index_put2 dst rows cols vals = Some dst' ->
  (forall m c, rows !! m = Some s -> cols !! m = Some c -> row_pos dst s c <> Some t) ->
  cell2 dst' s t = cell2 dst s t.
Proof.
  revert dst cols vals.
  induction rows as [|r rows IH]; intros dst [|c cols] [|v vals] H Hmiss;
    simpl in H; try (by injection H as <-).
  destruct (put2 dst r c v) as [d1|] eqn:Hput; simpl in H; [|done].
  rewrite (IH _ _ _ H).
  - eapply put2_miss; [done|]. intros ->. by apply (Hmiss 0%nat c).
  - intros m c' Hm Hc'. rewrite (put2_row_pos _ _ _ _ _ _ _ Hput).
    by apply (Hmiss (S m) c').
Qed.

(** With distinct rows, every index pair holds its value afterwards. *)
Lemma index_put2_written dst rows cols (vals : list A) dst' m r c v :
  NoDup rows ->
  index_put2 dst rows cols vals = Some dst' ->
  rows !! m = Some r -> cols !! m = Some c -> vals !! m = Some v ->
  exists t, row_pos dst r c = Some t /\ cell2 dst' r t = Some v.
Proof.
  revert dst cols vals m.
  induction rows as [|r0 rows IH]; intros dst [|c0 cols] [|v0 vals] m Hnd H Hr Hc Hv;
    try done.
  simpl in H. destruct (put2 dst r0 c0 v0) as [d1|] eqn:Hput; simpl in H; [|done].
  apply NoDup_cons in Hnd as [Hnotin Hnd].
  destruct m as [|m]; simpl in Hr, Hc, Hv.
  - injection Hr as ->. injection Hc as ->. injection Hv as ->.
    destruct (put2_hit _ _ _ _ _ Hput) as (t & Ht & Hcell).
    exists t. split; [done|]. rewrite <- Hcell.
    eapply index_put2_frame; [done|]. intros m' c' Hm' _.
    exfalso. apply Hnotin. by eapply list_elem_of_lookup_2.
  - destruct (IH _ _ _ _ Hnd H Hr Hc Hv) as (t & Ht & Hcell).
    exists t. split; [|done]. by rewrite <- (put2_row_pos _ _ _ _ _ _ _ Hput).
Qed.

Lemma index_put2_is_Some dst rows cols (vals : list A) :
  (forall m r c, rows !! m = Some r -> cols !! m = Some c -> is_Some (row_pos dst r c)) ->
  is_Some (index_put2 dst rows cols vals).
Proof.
  revert dst cols vals.
  induction rows as [|r rows IH]; intros dst [|c cols] [|v vals] Hpos;
    simpl; try done.
  destruct (Hpos 0%nat r c eq_refl eq_refl) as [t Ht].
  unfold row_pos in Ht. unfold put2 at 1.
  destruct (dst !! r) as [row|] eqn:Hr; simpl in Ht; [|done].
  simpl. rewrite Ht. simpl. apply IH. intros m r' c' Hm Hc'.
  assert (put2 dst r c v = Some (<[r:=<[t:=v]> row]> dst)) as Hput.
  { unfold put2. rewrite Hr. simpl. by rewrite Ht. }
  rewrite (put2_row_pos _ _ _ _ _ _ _ Hput). by apply (Hpos (S m)).
Qed.
End Put.

Section Put1.
Context {A : Type}.
Implicit Types (dst : list A) (r s m : nat) (v : A).

Lemma put1_inv dst r v dst' :
  put1 dst r v = Some dst' -> (r < length dst)%nat /\ dst' = <[r := v]> dst.
Proof.
  unfold put1. destruct (Nat.ltb r (length dst)) eqn:E; [|done].
  intros [= <-]. split; [|done]. by apply Nat.ltb_lt.
Qed.

Lemma index_put1_length dst rows vals dst' :
  index_put1 dst rows vals = Some dst' -> length dst' = length dst.
Proof.
  revert dst vals.
  induction rows as [|r rows IH]; intros dst [|v vals] H;
    simpl in H; try (by injection H as <-).
  destruct (put1 dst r v) as [d1|] eqn:Hput; simpl in H; [|done].
  rewrite (IH _ _ H). apply put1_inv in Hput as [_ ->]. apply length_insert.
Qed.

Lemma index_put1_frame dst rows vals dst' s :
  index_put1 dst rows vals = Some dst' -> s ∉ rows -> dst' !! s = dst !! s.
Proof.
  revert dst vals.
  induction rows as [|r rows IH]; intros dst [|v vals] H Hs;
    simpl in H; try (by injection H as <-).
  destruct (put1 dst r v) as [d1|] eqn:Hput; simpl in H; [|done].
  apply not_elem_of_cons in Hs as [Hne Hs].
  rewrite (IH _ _ H Hs). apply put1_inv in Hput as [_ ->].
  by apply list_lookup_insert_ne.
Qed.

Lemma index_put1_written dst rows vals dst' m r v :
  NoDup rows ->
  index_put1 dst rows vals = Some dst' ->
  rows !! m = Some r -> vals !! m = Some v ->
  dst' !! r = Some v.
Proof.
  revert dst vals m.
  induction rows as [|r0 rows IH]; intros dst [|v0 vals] m Hnd H Hr Hv; try done.
  simpl in H. destruct (put1 dst r0 v0) as [d1|] eqn:Hput; simpl in H; [|done].
  apply NoDup_cons in Hnd as [Hnotin Hnd].
  destruct m as [|m]; simpl in Hr, Hv.
  - injection Hr as ->. injection Hv as ->.
    rewrite (index_put1_frame _ _ _ _ _ H Hnotin).
    apply put1_inv in Hput as [Hlt ->]. by apply list_lookup_insert_eq.
  - by eapply IH.
Qed.

Lemma index_put1_is_Some dst rows vals :
  Forall (fun r => (r < length dst)%nat) rows -> is_Some (index_put1 dst rows vals).
Proof.
  revert dst vals.
  induction rows as [|r rows IH]; intros dst [|v vals] Hlt; simpl; try done.
  apply Forall_cons in Hlt as [Hr Hlt]. unfold put1 at 1.
  apply Nat.ltb_lt in Hr as Hr'. rewrite Hr'. simpl. apply IH.
  by rewrite length_insert.
Qed.
End Put1.

Section Put3.
Context {A : Type}.
Implicit Types (plane : list (list A)) (dst : list (list (list A)))
  (r s a t m : nat) (c : Z) (v : list A).

Lemma put_plane_row_pos plane a0 c v plane' a c' :
  put_plane plane a0 c v = Some plane' -> row_pos plane' a c' = row_pos plane a c'.
Proof.
  revert plane a0. induction v as [|x v IH]; intros plane a0 H; simpl in H.
  - by injection H as <-.
  - destruct (put2 plane a0 c x) as [p1|] eqn:Hput; simpl in H; [|done].
    rewrite (IH _ _ H). by eapply put2_row_pos.
Qed.

Lemma put_plane_miss plane a0 c v plane' a t :
  put_plane plane a0 c v = Some plane' ->
  ((a0 <= a < a0 + length v)%nat -> row_pos plane a c <> Some t) ->
  cell2 plane' a t = cell2 plane a t.
Proof.
  revert plane a0. induction v as [|x v IH]; intros plane a0 H Hmiss; simpl in H.
  - by injection H as <-.
  - destruct (put2 plane a0 c x) as [p1|] eqn:Hput; simpl in H; [|done].
    rewrite (IH _ _ H).
    + eapply put2_miss; [done|]. intros ->. apply Hmiss. simpl. lia.
    + intros Hin. rewrite (put2_row_pos _ _ _ _ _ _ _ Hput).
      apply Hmiss. simpl. lia.
Qed.

Lemma put_plane_hit plane a0 c v plane' i x :
  put_plane plane a0 c v = Some plane' ->
  v !! i = Some x ->
  exists t, row_pos plane (a0 + i) c = Some t /\ cell2 plane' (a0 + i) t = Some x.
Proof.
  revert plane a0 i. induction v as [|x0 v IH]; intros plane a0 i H Hi; [done|].
  simpl in H. destruct (put2 plane a0 c x0) as [p1|] eqn:Hput; simpl in H; [|done].
  destruct i as [|i]; simpl in Hi.
  - injection Hi as ->. rewrite Nat.add_0_r.
    destruct (put2_hit _ _ _ _ _ Hput) as (t & Ht & Hcell).
    exists t. split; [done|]. rewrite <- Hcell.
    eapply put_plane_miss; [done|]. lia.
  - destruct (IH _ _ _ H Hi) as (t & Ht & Hcell).
    rewrite <- Nat.add_succ_comm. exists t. split; [|done].
    by rewrite <- (put2_row_pos _ _ _ _ _ _ _ Hput).
Qed.

Lemma put3_inv dst r c v dst' :
  put3 dst r c v = Some dst' ->
  exists plane plane', dst !! r = Some plane /\ put_plane plane 0 c v = Some plane' /\
                       dst' = <[r := plane']> dst.
Proof.
  unfold put3. intros H.
  destruct (dst !! r) as [plane|] eqn:Hr; simpl in H; [|done].
  destruct (put_plane plane 0 c v) as [plane'|] eqn:Hp; simpl in H; [|done].
  injection H as <-. eauto.
Qed.

Lemma put3_pos dst r c v dst' s a c' :
  put3 dst r c v = Some dst' -> pos3 dst' s a c' = pos3 dst s a c'.
Proof.
  intros H. apply put3_inv in H as (plane & plane' & Hr & Hp & ->).
  unfold pos3. destruct (decide (r = s)) as [->|Hne].
  - rewrite list_lookup_insert_eq by (by eapply lookup_lt_Some).
    rewrite Hr. simpl. by eapply put_plane_row_pos.
  - by rewrite list_lookup_insert_ne.
Qed.

Lemma put3_miss dst r c v dst' s a t :
  put3 dst r c v = Some dst' ->
  (s = r -> pos3 dst r a c <> Some t) ->
  cell3 dst' s a t = cell3 dst s a t.
Proof.
  intros H Hmiss. apply put3_inv in H as (plane & plane' & Hr & Hp & ->).
  unfold cell3. destruct (decide (r = s)) as [->|Hne].
  - rewrite list_lookup_insert_eq by (by eapply lookup_lt_Some).
    rewrite Hr. simpl. eapply put_plane_miss; [done|]. intros _.
    specialize (Hmiss eq_refl). unfold pos3 in Hmiss. by rewrite Hr in Hmiss.
  - by rewrite list_lookup_insert_ne.
Qed.

Lemma put3_hit dst r c v dst' a x :
  put3 dst r c v = Some dst' ->
  v !! a = Some x ->
  exists t, pos3 dst r a c = Some t /\ cell3 dst' r a t = Some x.
Proof.
  intros H Ha. apply put3_inv in H as (plane & plane' & Hr & Hp & ->).
  destruct (put_plane_hit _ _ _ _ _ _ _ Hp Ha) as (t & Ht & Hcell).
  exists t. unfold pos3, cell3. rewrite Hr. simpl. split; [done|].
  rewrite list_lookup_insert_eq by (by eapply lookup_lt_Some). done.
Qed.

Lemma index_put3_pos dst rows cols (vals : list (list A)) dst' s a c :
  index_put3 dst rows cols vals = Some dst' -> pos3 dst' s a c = pos3 dst s a c.
Proof.
  revert dst cols vals.
  induction rows as [|r rows IH]; intros dst [|c0 cols] [|v vals] H;
    simpl in H; try (by injection H as <-).
  destruct (put3 dst r c0 v) as [d1|] eqn:Hput; simpl in H; [|done].
  rewrite (IH _ _ _ H). by eapply put3_pos.
Qed.

Lemma index_put3_frame dst rows cols (vals : list (list A)) dst' s a t :
  index_put3 dst rows cols vals = Some dst' ->
  (forall m c, rows !! m = Some s -> cols !! m = Some c -> pos3 dst s a c <> Some t) ->
  cell3 dst' s a t = cell3 dst s a t.
Proof.
  revert dst cols vals.
  induction rows as [|r rows IH]; intros dst [|c cols] [|v vals] H Hmiss;
    simpl in H; try (by injection H as <-).
  destruct (put3 dst r c v) as [d1|] eqn:Hput; simpl in H; [|done].
  rewrite (IH _ _ _ H).
  - eapply put3_miss; [done|]. intros ->. by apply (Hmiss 0%nat c).
  - intros m c' Hm Hc'. rewrite (put3_pos _ _ _ _ _ _ _ _ Hput).
    by apply (Hmiss (S m) c').
Qed.

Lemma index_put3_written dst rows cols (vals : list (list A)) dst' m r c v a x :
  NoDup rows ->
  index_put3 dst rows cols vals = Some dst' ->
  rows !! m = Some r -> cols !! m = Some c -> vals !! m = Some v ->
  v !! a = Some x ->
  exists t, pos3 dst r a c = Some t /\ cell3 dst' r a t = Some x.
Proof.
  revert dst cols vals m.
  induction rows as [|r0 rows IH];
    intros dst [|c0 cols] [|v0 vals] m Hnd H Hr Hc Hv Ha; try done.
  simpl in H. destruct (put3 dst r0 c0 v0) as [d1|] eqn:Hput; simpl in H; [|done].
  apply NoDup_cons in Hnd as [Hnotin Hnd].
  destruct m as [|m]; simpl in Hr, Hc, Hv.
  - injection Hr as ->. injection Hc as ->. injection Hv as ->.
    destruct (put3_hit _ _ _ _ _ _ _ Hput Ha) as (t & Ht & Hcell).
    exists t. split; [done|]. rewrite <- Hcell.
    eapply index_put3_frame; [done|]. intros m' c' Hm' _.
    exfalso. apply Hnotin. by eapply list_elem_of_lookup_2.
  - destruct (IH _ _ _ _ Hnd H Hr Hc Hv Ha) as (t & Ht & Hcell).
    exists t. split; [|done]. by rewrite <- (put3_pos _ _ _ _ _ _ _ _ Hput).
Qed.
End Put3.

(** ** One item of the dictionary *)

Lemma is_stored_true (key : string) :
  is_stored key = true ->
  key = "rewards" \/ key = "root_values" \/ key = "children_visits" \/
  key = "actions" \/ key = "player_ids" \/ key = "dones" \/ key = "game_states".
Proof.
  unfold is_stored, stored_keys. intros H. apply bool_decide_eq_true in H.
  repeat (apply elem_of_cons in H as [H|H]; [tauto|]).
  by apply elem_of_nil in H.
Qed.

Lemma append_field_cases (hp : Hparams) (idx : list nat) (elen : list Z)
  (st : GameStats) (key : string) (value : tensor) (st' : GameStats) :
  append_field hp idx elen st (key, value) = Ok st' ->
  (key = "children_visits" /\ exists dst,
      write3Q hp idx elen value (children_visits st) = Some dst /\
      st' = with_children_visits st dst) \/
  (key = "dones" /\ exists dst,
      write1B idx value (dones st) = Some dst /\ st' = with_dones st dst) \/
  (key = "game_states" /\ st' = with_game_states st (game_states st ++ [value])) \/
  (key = "rewards" /\ exists dst,
      write2Q idx elen value (rewards st) = Some dst /\ st' = with_rewards st dst) \/
  (key = "root_values" /\ exists dst,
      write2Q idx elen value (root_values st) = Some dst /\
      st' = with_root_values st dst) \/
  (key = "actions" /\ exists dst,
      write2Z idx elen value (actions st) = Some dst /\ st' = with_actions st dst) \/
  (key = "player_ids" /\ exists dst,
      write2Z idx elen value (player_ids st) = Some dst /\
      st' = with_player_ids st dst).
Proof.
  unfold append_field. intros H.
  destruct (is_stored key) eqn:Hst; simpl in H; [|done].
  destruct (String.eqb key "children_visits") eqn:E1.
  { apply String.eqb_eq in E1. left. split; [done|].
    destruct value; try done. inv_ok.
    destruct (any_differs a0 a2) eqn:Hd; [done|]. injection H as <-.
    exists a1. split; [|done]. simpl. rewrite Ha. simpl. rewrite Ha0. done. }
  destruct (String.eqb key "dones") eqn:E2.
  { apply String.eqb_eq in E2. right; left. split; [done|].
    destruct value; try done. inv_ok. subst st'.
    exists a0. split; [|done]. simpl. rewrite Ha. done. }
  destruct (String.eqb key "game_states") eqn:E3.
  { apply String.eqb_eq in E3. do 2 right; left. split; [done|]. by inv_ok. }
  destruct (String.eqb key "rewards") eqn:E4.
  { apply String.eqb_eq in E4. do 3 right; left. split; [done|].
    destruct value; try done. inv_ok. subst st'.
    exists a0. split; [|done]. simpl. rewrite Ha. done. }
  destruct (String.eqb key "root_values") eqn:E5.
  { apply String.eqb_eq in E5. do 4 right; left. split; [done|].
    destruct value; try done. inv_ok. subst st'.
    exists a0. split; [|done]. simpl. rewrite Ha. done. }
  destruct (String.eqb key "actions") eqn:E6.
  { apply String.eqb_eq in E6. do 5 right; left. split; [done|].
    destruct value; try done. inv_ok. subst st'.
    exists a0. split; [|done]. simpl. rewrite Ha. done. }
  do 6 right. split.
  { apply String.eqb_neq in E1, E2, E3, E4, E5, E6.
    apply is_stored_true in Hst. tauto. }
  destruct value; try done. inv_ok. subst st'.
  exists a0. split; [|done]. simpl. rewrite Ha. done.
Qed.

Ltac field_cases H :=
  apply append_field_cases in H;
  destruct H as [(?&?&?&?)|[(?&?&?&?)|[(?&?)|[(?&?&?&?)|[(?&?&?&?)|[(?&?&?&?)|(?&?&?&?)]]]]]];
  subst; simpl in *; try done.

(** ** The loop over the dictionary *)

Section Fold.
Context (hp : Hparams) (idx : list nat) (elen : list Z).

(** A tensor is only written by its own key, so after the loop it is the
    original tensor with that key's assignment applied. *)
Lemma foldR_field {X} (F : GameStats -> X) (k : string)
  (W : tensor -> X -> option X) :
  (forall st key value st',
      append_field hp idx elen st (key, value) = Ok st' -> key <> k -> F st' = F st) ->
  (forall st value st',
      append_field hp idx elen st (k, value) = Ok st' -> W value (F st) = Some (F st')) ->
  forall dict st st',
    foldR (append_field hp idx elen) dict st = Ok st' ->
    NoDup dict.*1 ->
    (k ∉ dict.*1 -> F st' = F st) /\
    (forall value, (k, value) ∈ dict -> W value (F st) = Some (F st')).
Proof.
  intros Hother Hown dict.
  induction dict as [|[key value] dict IH]; intros st st' H Hnd; simpl in H.
  - injection H as <-. split; [done|]. intros value Hin. by apply elem_of_nil in Hin.
  - inv_ok. rename a into s1. simpl in Hnd. apply NoDup_cons in Hnd as [Hfresh Hnd].
    destruct (IH _ _ H Hnd) as [IH1 IH2]. split.
    + intros Hk. simpl in Hk. apply not_elem_of_cons in Hk as [Hne Hk].
      rewrite (IH1 Hk). by eapply Hother.
    + intros v Hin. apply elem_of_cons in Hin as [[= <- <-]|Hin].
      * rewrite (IH1 Hfresh). by eapply Hown.
      * assert (key <> k) as Hne.
        { intros ->. apply Hfresh. apply list_elem_of_fmap. by exists (k, v). }
        rewrite <- (Hother _ _ _ _ Ha Hne). by apply IH2.
Qed.

Lemma foldR_episode_len dict st st' :
  foldR (append_field hp idx elen) dict st = Ok st' -> episode_len st' = episode_len st.
Proof.
  revert st. induction dict as [|[key value] dict IH]; intros st H; simpl in H.
  - by injection H as <-.
  - inv_ok. rewrite (IH _ H). by field_cases Ha.
Qed.

Lemma foldR_rewards dict st st' :
  foldR (append_field hp idx elen) dict st = Ok st' -> NoDup dict.*1 ->
  ("rewards" ∉ dict.*1 -> rewards st' = rewards st) /\
  (forall value, ("rewards", value) ∈ dict ->
                 write2Q idx elen value (rewards st) = Some (rewards st')).
Proof.
  apply (foldR_field rewards "rewards" (write2Q idx elen)).
  - intros s key value s' H Hne. by field_cases H.
  - intros s value s' H. by field_cases H.
Qed.

Lemma foldR_root_values dict st st' :
  foldR (append_field hp idx elen) dict st = Ok st' -> NoDup dict.*1 ->
  ("root_values" ∉ dict.*1 -> root_values st' = root_values st) /\
  (forall value, ("root_values", value) ∈ dict ->
                 write2Q idx elen value (root_values st) = Some (root_values st')).
Proof.
  apply (foldR_field root_values "root_values" (write2Q idx elen)).
  - intros s key value s' H Hne. by field_cases H.
  - intros s value s' H. by field_cases H.
Qed.

Lemma foldR_actions dict st st' :
  foldR (append_field hp idx elen) dict st = Ok st' -> NoDup dict.*1 ->
  ("actions" ∉ dict.*1 -> actions st' = actions st) /\
  (forall value, ("actions", value) ∈ dict ->
                 write2Z idx elen value (actions st) = Some (actions st')).
Proof.
  apply (foldR_field actions "actions" (write2Z idx elen)).
  - intros s key value s' H Hne. by field_cases H.
  - intros s value s' H. by field_cases H.
Qed.

Lemma foldR_player_ids dict st st' :
  foldR (append_field hp idx elen) dict st = Ok st' -> NoDup dict.*1 ->
  ("player_ids" ∉ dict.*1 -> player_ids st' = player_ids st) /\
  (forall value, ("player_ids", value) ∈ dict ->
                 write2Z idx elen value (player_ids st) = Some (player_ids st')).
Proof.
  apply (foldR_field player_ids "player_ids" (write2Z idx elen)).
  - intros s key value s' H Hne. by field_cases H.
  - intros s value s' H. by field_cases H.
Qed.

Lemma foldR_children_visits dict st st' :
  foldR (append_field hp idx elen) dict st = Ok st' -> NoDup dict.*1 ->
  ("children_visits" ∉ dict.*1 -> children_visits st' = children_visits st) /\
  (forall value, ("children_visits", value) ∈ dict ->
                 write3Q hp idx elen value (children_visits st)
                 = Some (children_visits st')).
Proof.
  apply (foldR_field children_visits "children_visits" (write3Q hp idx elen)).
  - intros s key value s' H Hne. by field_cases H.
  - intros s value s' H. by field_cases H.
Qed.

Lemma foldR_dones dict st st' :
  foldR (append_field hp idx elen) dict st = Ok st' -> NoDup dict.*1 ->
  ("dones" ∉ dict.*1 -> dones st' = dones st) /\
  (forall value, ("dones", value) ∈ dict ->
                 write1B idx value (dones st) = Some (dones st')).
Proof.
  apply (foldR_field dones "dones" (write1B idx)).
  - intros s key value s' H Hne. by field_cases H.
  - intros s value s' H. by field_cases H.
Qed.

Lemma foldR_game_states dict st st' :
  foldR (append_field hp idx elen) dict st = Ok st' -> NoDup dict.*1 ->
  ("game_states" ∉ dict.*1 -> game_states st' = game_states st) /\
  (forall value, ("game_states", value) ∈ dict ->
                 Some (game_states st ++ [value])%list = Some (game_states st')).
Proof.
  apply (foldR_field game_states "game_states" (fun value g => Some (g ++ [value])%list)).
  - intros s key value s' H Hne. by field_cases H.
  - intros s value s' H. by field_cases H.
Qed.
End Fold.

(** [append] is the loop followed by the increment of [episode_len]. *)
Lemma append_inv (hp : Hparams) (index : list Z) (dict : list (string * tensor))
  (st st' : GameStats) :
  append hp index dict st = Ok st' ->
  exists idx elen s1,
    mapM (py_index (length (episode_len st))) index = Some idx /\
    mapM (fun i => episode_len st !! i) idx = Some elen /\
    foldR (append_field hp idx elen) dict st = Ok s1 /\
    index_put1 (episode_len st) idx (map (fun e => add64 e 1) elen)
    = Some (episode_len st') /\
    st' = with_episode_len s1 (episode_len st').
Proof.
  unfold append, slots_of, gather. intros H. inv_ok.
  rename a into idx, a0 into elen, a1 into s1, a2 into cur, a3 into lens.
  pose proof (foldR_episode_len _ _ _ _ _ _ Ha1) as Hlen.
  rewrite Hlen in Ha2. assert (cur = elen) as -> by congruence.
  rewrite Hlen in Ha3. exists idx, elen, s1. subst st'. simpl. done.
Qed.

(** ** Unknown keys *)

Ltac inv_raise :=
  repeat match goal with
         | H : _ ≫= _ = Raise _ |- _ =>
             let a := fresh "a" in
             apply bind_Raise in H; destruct H as [H|(a & _ & H)]
         | H : or_raise _ _ = Raise _ |- _ => apply or_raise_Raise in H as [H _]
         | H : (if ?b then _ else _) = Raise _ |- _ => destruct b
         | H : Raise _ = Raise _ |- _ => injection H as H
         | H : Ok _ = Raise _ |- _ => discriminate H
         end.

Lemma append_field_InvalidKey (hp : Hparams) (idx : list nat) (elen : list Z)
  (st : GameStats) (key : string) (value : tensor) (k : string) :
  append_field hp idx elen st (key, value) = Raise (InvalidKey k) ->
  key = k /\ is_stored k = false.
Proof.
  unfold append_field. intros H.
  destruct (is_stored key) eqn:Hst; simpl in H.
  - exfalso. repeat case_match; inv_raise; discriminate.
  - injection H as <-. done.
Qed.

Lemma foldR_InvalidKey (hp : Hparams) (idx : list nat) (elen : list Z)
  (dict : list (string * tensor)) (st : GameStats) (k : string) :
  foldR (append_field hp idx elen) dict st = Raise (InvalidKey k) ->
  k ∈ dict.*1 /\ is_stored k = false.
Proof.
  revert st. induction dict as [|[key value] dict IH]; intros st H; simpl in H; [done|].
  apply bind_Raise in H as [H|(s1 & _ & H)].
  - apply append_field_InvalidKey in H as [-> Hk]. split; [|done]. simpl. left.
  - destruct (IH _ H) as [Hin Hk]. split; [|done]. simpl. by right.
Qed.

Lemma foldR_unknown_key (hp : Hparams) (idx : list nat) (elen : list Z)
  (dict : list (string * tensor)) (st : GameStats) (key : string) :
  key ∈ dict.*1 -> is_stored key = false ->
  exists e, foldR (append_field hp idx elen) dict st = Raise e.
Proof.
  intros Hin Hk. revert st.
  induction dict as [|[key0 value] dict IH]; intros st.
  - by apply elem_of_nil in Hin.
  - cbn [foldR]. rewrite fmap_cons in Hin. cbn [fst] in Hin.
    destruct (append_field hp idx elen st (key0, value)) as [s1|e] eqn:Hf.
    + apply elem_of_cons in Hin as [->|Hin].
      * unfold append_field in Hf. rewrite Hk in Hf. done.
      * by apply IH.
    + by exists e.
Qed.

Lemma foldR_app {A S} (f : S -> A -> result S) (l1 l2 : list A) (s : S) :
  foldR f (l1 ++ l2) s = foldR f l1 s ≫= foldR f l2.
Proof.
  revert s. induction l1 as [|a l1 IH]; intros s; simpl; [done|].
  destruct (f s a) as [s'|e]; simpl; [apply IH|done].
Qed.

Lemma is_stored_false (key : string) : is_stored key = false <-> key ∉ stored_keys.
Proof. unfold is_stored. apply bool_decide_eq_false. Qed.

(** C8. A dictionary with a key outside [stored_tensors] makes [append]
    raise; once the items before that key are accepted, the exception is
    the [ValueError] for that key.  The [ValueError] for an invalid key is
    only ever raised for a key of the dictionary that is not recognized, so
    a dictionary of recognized keys never raises it. *)
Theorem append_unknown_field (hp : Hparams) (index : list Z)
  (dict : list (string * tensor)) (st : GameStats) :
  ((exists key, key ∈ dict.*1 /\ key ∉ stored_keys) ->
   exists e, append hp index dict st = Raise e) /\
  (forall pre key value post st1,
      dict = (pre ++ (key, value) :: post)%list -> key ∉ stored_keys ->
      append hp index pre st = Ok st1 ->
      append hp index dict st = Raise (InvalidKey key)) /\
  (forall k, append hp index dict st = Raise (InvalidKey k) ->
             k ∈ dict.*1 /\ k ∉ stored_keys).
Proof.
  split; [|split].
  - intros (key & Hin & Hk). apply is_stored_false in Hk. unfold append.
    destruct (slots_of (length (episode_len st)) index) as [idx|e]; [|by exists e].
    simpl. destruct (gather (episode_len st) idx) as [elen|e]; [|by exists e].
    simpl. destruct (foldR_unknown_key hp idx elen dict st key Hin Hk) as [e He].
    rewrite He. by exists e.
  - intros pre key value post st1 -> Hk Hpre. apply is_stored_false in Hk.
    unfold append in *.
    destruct (slots_of (length (episode_len st)) index) as [idx|e]; [|done].
    simpl in *. destruct (gather (episode_len st) idx) as [elen|e]; [|done].
    simpl in *. rewrite foldR_app.
    destruct (foldR (append_field hp idx elen) pre st) as [s1|e]; [|done].
    simpl. rewrite Hk. done.
  - intros k H. unfold append, slots_of, gather in H.
    assert (foldR_case : forall idx elen,
               foldR (append_field hp idx elen) dict st = Raise (InvalidKey k) ->
               k ∈ dict.*1 /\ k ∉ stored_keys).
    { intros idx elen Hf. apply foldR_InvalidKey in Hf as [Hin Hk].
      split; [done|]. by apply is_stored_false. }
    apply bind_Raise in H as [H|(idx & _ & H)].
    { by apply or_raise_Raise in H as [[=] _]. }
    apply bind_Raise in H as [H|(elen & _ & H)].
    { by apply or_raise_Raise in H as [[=] _]. }
    apply bind_Raise in H as [H|(s1 & _ & H)]; [by eapply foldR_case|].
    apply bind_Raise in H as [H|(cur & _ & H)].
    { by apply or_raise_Raise in H as [[=] _]. }
    apply bind_Raise in H as [H|(lens & _ & H)]; [|done].
    by apply or_raise_Raise in H as [[=] _].
Qed.

(** ** The late reward correction *)

Lemma update_inv (win_index : list Z) (rws : list Q) (st st' : GameStats) :
  update_last_reward_and_values win_index rws st = Ok st' ->
  exists idx elen vals,
    mapM (py_index (length (episode_len st))) win_index = Some idx /\
    mapM (fun i => episode_len st !! i) idx = Some elen /\
    expand (length idx) rws = Some vals /\
    index_put2 (rewards st) idx (map (fun e => add64 e (-1)) elen) vals
    = Some (rewards st') /\
    st' = with_rewards st (rewards st').
Proof.
  unfold update_last_reward_and_values, slots_of, gather. intros H. inv_ok.
  subst st'. simpl. eauto 10.
Qed.

Lemma gather_lookup {A} (src : list A) (idx : list nat) (got : list A) (m i : nat) :
  mapM (fun i => src !! i) idx = Some got -> idx !! m = Some i -> got !! m = src !! i.
Proof.
  intros H Hm. apply mapM_Some in H.
  destruct (Forall2_lookup_l _ _ _ _ _ H Hm) as (x & Hx & Hsrc). congruence.
Qed.

(** C5. [update_last_reward_and_values] leaves [episode_len] and every
    tensor other than [rewards] as they are; in [rewards] only the entry
    that [episode_len[slot] - 1] names in the row of a target slot can
    change, so earlier entries and the rows of other slots are kept; with
    distinct target slots that entry becomes the supplied reward; and for a
    slot with at least one recorded step the entry is the one at
    [episode_len[slot] - 1]. *)
Theorem update_last_reward_frame (win_index : list Z) (rws : list Q)
  (st st' : GameStats) (idx : list nat) :
  update_last_reward_and_values win_index rws st = Ok st' ->
  mapM (py_index (length (episode_len st))) win_index = Some idx ->
  (episode_len st' = episode_len st /\ root_values st' = root_values st /\
   children_visits st' = children_visits st /\ actions st' = actions st /\
   player_ids st' = player_ids st /\ dones st' = dones st /\
   game_states st' = game_states st) /\
  (forall slot pos,
      ~ (slot ∈ idx /\ last_pos st slot = Some pos) ->
      cell2 (rewards st') slot pos = cell2 (rewards st) slot pos) /\
  (NoDup idx ->
   forall vals m slot v,
     expand (length idx) rws = Some vals ->
     idx !! m = Some slot -> vals !! m = Some v ->
     exists pos, last_pos st slot = Some pos /\ cell2 (rewards st') slot pos = Some v) /\
  (forall slot e pos,
      episode_len st !! slot = Some e -> 1 <= e < 2 ^ 63 ->
      last_pos st slot = Some pos -> pos = Z.to_nat (e - 1)).
Proof.
  intros H Hidx.
  apply update_inv in H as (idx' & elen & vals & Hidx' & Helen & Hvals & Hput & Hst).
  assert (idx' = idx) as -> by congruence.
  split; [|split; [|split]].
  - rewrite Hst. simpl. done.
  - intros slot pos Hnot. eapply index_put2_frame; [done|].
    intros m c Hm Hc Hpos. apply Hnot. split; [by eapply list_elem_of_lookup_2|].
    apply list_lookup_fmap_Some in Hc as (e & -> & He).
    rewrite (gather_lookup _ _ _ _ _ Helen Hm) in He.
    unfold last_pos. rewrite He. done.
  - intros Hnd vals' m slot v Hvals' Hm Hv.
    assert (vals' = vals) as -> by congruence.
    destruct (lookup_lt_is_Some_2 elen m) as [e He].
    { apply mapM_Some, Forall2_length in Helen. rewrite <- Helen.
      by eapply lookup_lt_Some. }
    destruct (index_put2_written _ _ _ _ _ m slot (add64 e (-1)) v Hnd Hput Hm)
      as (pos & Hpos & Hcell); [|done|].
    { by rewrite list_lookup_fmap, He. }
    exists pos. split; [|done]. unfold last_pos.
    rewrite <- (gather_lookup _ _ _ _ _ Helen Hm), He. done.
  - intros slot e pos He Hrange Hpos. unfold last_pos in Hpos.
    rewrite He in Hpos. simpl in Hpos. rewrite add64_small in Hpos by lia.
    unfold row_pos in Hpos.
    destruct (rewards st !! slot) as [row|]; simpl in Hpos; [|done].
    apply py_index_nonneg_inv in Hpos as [-> _]; [|lia].
    by replace (e + -1) with (e - 1) by lia.
Qed.

(** ** Shapes *)

Lemma rect2_inv {A} (b l : nat) (t : list (list A)) :
  rect2 b l t = true ->
  length t = b /\ forall r row, t !! r = Some row -> length row = l.
Proof.
  unfold rect2. intros H. apply andb_prop in H as [Hb Hrows].
  apply Nat.eqb_eq in Hb. split; [done|]. intros r row Hr.
  rewrite forallb_forall in Hrows. apply Nat.eqb_eq, Hrows.
  apply list_elem_of_In. by eapply list_elem_of_lookup_2.
Qed.

Lemma rect3_inv {A} (b a l : nat) (t : list (list (list A))) :
  rect3 b a l t = true ->
  length t = b /\
  forall r plane, t !! r = Some plane ->
                  length plane = a /\ forall i row, plane !! i = Some row -> length row = l.
Proof.
  unfold rect3. intros H. apply andb_prop in H as [Hb Hplanes].
  apply Nat.eqb_eq in Hb. split; [done|]. intros r plane Hr.
  rewrite forallb_forall in Hplanes. apply rect2_inv, Hplanes.
  apply list_elem_of_In. by eapply list_elem_of_lookup_2.
Qed.

Lemma shape_ok_inv (hp : Hparams) (st : GameStats) :
  shape_ok hp st ->
  length (episode_len st) = batch_size hp /\
  rect2 (batch_size hp) (max_episode_len hp) (rewards st) = true /\
  rect2 (batch_size hp) (max_episode_len hp) (root_values st) = true /\
  rect3 (batch_size hp) (num_actions hp) (max_episode_len hp) (children_visits st) = true /\
  rect2 (batch_size hp) (max_episode_len hp) (actions st) = true /\
  rect2 (batch_size hp) (max_episode_len hp) (player_ids st) = true /\
  length (dones st) = batch_size hp.
Proof.
  unfold shape_ok, shape_okb. intros H.
  repeat (apply andb_prop in H as [H ?]).
  apply Nat.eqb_eq in H. repeat split; try done. by apply Nat.eqb_eq.
Qed.

Lemma mapM_py_index_nonneg (n : nat) (index : list Z) :
  Forall (fun i => 0 <= i < Z.of_nat n) index ->
  mapM (py_index n) index = Some (Z.to_nat <$> index).
Proof.
  intros H. apply mapM_Some. apply Forall2_fmap_r, Forall_Forall2_diag.
  eapply Forall_impl; [done|]. intros i Hi. by apply py_index_nonneg.
Qed.

Lemma NoDup_to_nat (index : list Z) :
  Forall (fun i => 0 <= i) index -> NoDup index -> NoDup (Z.to_nat <$> index).
Proof.
  intros Hpos Hnd. apply NoDup_fmap_2_strong; [|done].
  intros x y Hx Hy Heq. rewrite Forall_forall in Hpos.
  apply Hpos in Hx, Hy. lia.
Qed.

(** C10. On a store of the shapes [__init__] sets up, whose target slots
    are valid and hold between 0 and [max_episode_len] steps, the call
    returns; for a target slot with no recorded step the index
    [episode_len - 1 = -1] names the last position, so the supplied reward
    lands at [max_episode_len - 1] of that slot. *)
Theorem update_last_reward_empty_episode (hp : Hparams) (win_index : list Z)
  (rws : list Q) (st : GameStats) :
  shape_ok hp st ->
  (1 <= max_episode_len hp)%nat ->
  Z.of_nat (max_episode_len hp) < 2 ^ 63 ->
  Forall (fun i => 0 <= i < Z.of_nat (batch_size hp)) win_index ->
  length rws = length win_index ->
  (forall i e, i ∈ win_index -> episode_len st !! Z.to_nat i = Some e ->
               0 <= e <= Z.of_nat (max_episode_len hp)) ->
  exists st',
    update_last_reward_and_values win_index rws st = Ok st' /\
    (NoDup win_index ->
     forall m i v,
       win_index !! m = Some i -> episode_len st !! Z.to_nat i = Some 0 ->
       rws !! m = Some v ->
       cell2 (rewards st') (Z.to_nat i) (max_episode_len hp - 1) = Some v).
Proof.
  intros Hshape HL HL63 Hrange Hlen Hsteps.
  apply shape_ok_inv in Hshape as (Hb & Hrew & _).
  apply rect2_inv in Hrew as [Hrb Hrows].
  set (idx := Z.to_nat <$> win_index).
  assert (mapM (py_index (length (episode_len st))) win_index = Some idx) as Hidx.
  { rewrite Hb. by apply mapM_py_index_nonneg. }
  assert (exists elen, mapM (fun i => episode_len st !! i) idx = Some elen) as [elen Helen].
  { apply mapM_is_Some. apply Forall_fmap, Forall_forall. intros i Hi. simpl.
    rewrite Forall_forall in Hrange. apply Hrange in Hi.
    apply lookup_lt_is_Some_2. lia. }
  assert (expand (length idx) rws = Some rws) as Hvals.
  { apply expand_same. unfold idx. by rewrite length_fmap. }
  assert (forall m r c, idx !! m = Some r ->
                        map (fun e => add64 e (-1)) elen !! m = Some c ->
                        exists e, episode_len st !! r = Some e /\ c = e - 1 /\
                                  0 <= e <= Z.of_nat (max_episode_len hp) /\
                                  exists i, win_index !! m = Some i /\ r = Z.to_nat i)
    as Hcols.
  { intros m r c Hm Hc. apply list_lookup_fmap_Some in Hc as (e & -> & He).
    rewrite (gather_lookup _ _ _ _ _ Helen Hm) in He.
    unfold idx in Hm. apply list_lookup_fmap_Some in Hm as (i & -> & Hi).
    assert (0 <= e <= Z.of_nat (max_episode_len hp)) as Hle.
    { eapply Hsteps; [|done]. by eapply list_elem_of_lookup_2. }
    exists e. rewrite add64_small by lia. eauto 10 with lia. }
  destruct (index_put2_is_Some (rewards st) idx
              (map (fun e => add64 e (-1)) elen) rws) as [dst Hput].
  { intros m r c Hm Hc. destruct (Hcols m r c Hm Hc) as (e & He & -> & Hle & _).
    unfold row_pos. destruct (lookup_lt_is_Some_2 (rewards st) r) as [row Hrow].
    { rewrite Hrb, <- Hb. by eapply lookup_lt_Some. }
    rewrite Hrow. simpl. rewrite (Hrows _ _ Hrow).
    unfold py_index. repeat case_match; try done; lia. }
  exists (with_rewards st dst). split.
  { unfold update_last_reward_and_values, slots_of, gather.
    rewrite Hidx. simpl. rewrite Helen. simpl. rewrite Hvals. simpl.
    rewrite Hput. done. }
  intros Hnd m i v Hm Hzero Hv. simpl.
  assert (NoDup idx) as Hnd'.
  { apply NoDup_to_nat; [|done]. eapply Forall_impl; [done|]. simpl. lia. }
  assert (idx !! m = Some (Z.to_nat i)) as Hm'.
  { unfold idx. by rewrite list_lookup_fmap, Hm. }
  assert (map (fun e => add64 e (-1)) elen !! m = Some (-1)) as Hc.
  { rewrite list_lookup_fmap, (gather_lookup _ _ _ _ _ Helen Hm'), Hzero. done. }
  destruct (index_put2_written _ _ _ _ _ m _ _ v Hnd' Hput Hm' Hc Hv)
    as (t & Ht & Hcell).
  unfold row_pos in Ht.
  destruct (rewards st !! Z.to_nat i) as [row|] eqn:Hrow; simpl in Ht; [|done].
  rewrite (Hrows _ _ Hrow), py_index_minus_one in Ht by done.
  by injection Ht as <-.
Qed.

(** ** Written cells *)

Section PlaneLength.
Context {A : Type}.

Lemma put_plane_length (plane : list (list A)) a0 c v plane' :
  put_plane plane a0 c v = Some plane' -> length plane' = length plane.
Proof.
  revert plane a0. induction v as [|x v IH]; intros plane a0 H; simpl in H.
  - by injection H as <-.
  - destruct (put2 plane a0 c x) as [p1|] eqn:Hput; simpl in H; [|done].
    rewrite (IH _ _ H). apply put2_inv in Hput as (row & t & _ & _ & ->).
    apply length_insert.
Qed.

Lemma index_put3_plane_length (dst : list (list (list A))) rows cols vals dst' s :
  index_put3 dst rows cols vals = Some dst' ->
  length <$> dst' !! s = length <$> dst !! s.
Proof.
  revert dst cols vals.
  induction rows as [|r rows IH]; intros dst [|c cols] [|v vals] H;
    simpl in H; try (by injection H as <-).
  destruct (put3 dst r c v) as [d1|] eqn:Hput; simpl in H; [|done].
  rewrite (IH _ _ _ H). apply put3_inv in Hput as (plane & plane' & Hr & Hp & ->).
  destruct (decide (r = s)) as [->|Hne].
  - rewrite list_lookup_insert_eq by (by eapply lookup_lt_Some).
    rewrite Hr. simpl. f_equal. by eapply put_plane_length.
  - by rewrite list_lookup_insert_ne.
Qed.

(** Reading column [t] of two planes that agree on it. *)
Lemma plane_col_ext (p q : list (list A)) (t : nat) :
  length p = length q ->
  (forall a, cell2 p a t = cell2 q a t) ->
  mapM (fun row : list A => row !! t) p = mapM (fun row : list A => row !! t) q.
Proof.
  revert q. induction p as [|row p IH]; intros [|row' q] Hlen Hcell; try done.
  cbn [mapM].
  pose proof (Hcell 0%nat) as H0. unfold cell2 in H0. simpl in H0. rewrite H0.
  rewrite (IH q); [done|by injection Hlen|].
  intros a. apply (Hcell (S a)).
Qed.

Lemma plane_col_Some (p : list (list A)) (t : nat) (w : list A) :
  length p = length w ->
  (forall a x, w !! a = Some x -> cell2 p a t = Some x) ->
  mapM (fun row : list A => row !! t) p = Some w.
Proof.
  intros Hlen Hcell. apply mapM_Some, Forall2_same_length_lookup_2; [done|].
  intros a row x Hrow Hx. specialize (Hcell a x Hx).
  unfold cell2 in Hcell. by rewrite Hrow in Hcell.
Qed.
End PlaneLength.

Lemma row_pos_nonneg {A} (dst : list (list A)) (r : nat) (c : Z) (t : nat) :
  0 <= c -> row_pos dst r c = Some t -> t = Z.to_nat c.
Proof.
  intros Hc. unfold row_pos.
  destruct (dst !! r) as [row|]; simpl; [|done].
  intros H. by apply py_index_nonneg_inv in H as [-> _].
Qed.

Lemma pos3_nonneg {A} (dst : list (list (list A))) (r a : nat) (c : Z) (t : nat) :
  0 <= c -> pos3 dst r a c = Some t -> t = Z.to_nat c.
Proof.
  intros Hc. unfold pos3.
  destruct (dst !! r) as [plane|]; simpl; [|done]. by apply row_pos_nonneg.
Qed.

Section Supplied.
Context (hp : Hparams) (idx : list nat) (elen : list Z).
Context (m slot : nat) (e : Z).
Hypothesis (Hnd : NoDup idx) (Hm : idx !! m = Some slot)
  (He : elen !! m = Some e) (Hpos : 0 <= e).

Lemma write2Q_supplied value dst dst' c :
  write2Q idx elen value dst = Some dst' ->
  supplied hp (length idx) value m slot = Some c ->
  CFloat <$> cell2 dst' slot (Z.to_nat e) = Some c.
Proof.
  destruct value as [v| | | |]; simpl; try done. intros H Hc.
  destruct (expand (length idx) v) as [vals|]; simpl in *; [|done].
  destruct (vals !! m) as [x|] eqn:Hx; simpl in Hc; [|done]. injection Hc as <-.
  destruct (index_put2_written _ _ _ _ _ _ _ _ _ Hnd H Hm He Hx) as (t & Ht & Hcell).
  apply row_pos_nonneg in Ht as ->; [|done]. by rewrite Hcell.
Qed.

Lemma write2Z_supplied value dst dst' c :
  write2Z idx elen value dst = Some dst' ->
  supplied hp (length idx) value m slot = Some c ->
  CLong <$> cell2 dst' slot (Z.to_nat e) = Some c.
Proof.
  destruct value as [| |v| |]; simpl; try done. intros H Hc.
  destruct (expand (length idx) v) as [vals|]; simpl in *; [|done].
  destruct (vals !! m) as [x|] eqn:Hx; simpl in Hc; [|done]. injection Hc as <-.
  destruct (index_put2_written _ _ _ _ _ _ _ _ _ Hnd H Hm He Hx) as (t & Ht & Hcell).
  apply row_pos_nonneg in Ht as ->; [|done]. by rewrite Hcell.
Qed.

Lemma write1B_supplied value dst dst' c :
  write1B idx value dst = Some dst' ->
  supplied hp (length idx) value m slot = Some c ->
  CBool <$> dst' !! slot = Some c.
Proof.
  destruct value as [| | |v|]; simpl; try done. intros H Hc.
  destruct (expand (length idx) v) as [vals|]; simpl in *; [|done].
  destruct (vals !! m) as [x|] eqn:Hx; simpl in Hc; [|done]. injection Hc as <-.
  by rewrite (index_put1_written _ _ _ _ _ _ _ Hnd H Hm Hx).
Qed.

Lemma write3Q_supplied value dst dst' c :
  (forall plane, dst !! slot = Some plane -> length plane = num_actions hp) ->
  is_Some (dst !! slot) ->
  write3Q hp idx elen value dst = Some dst' ->
  supplied hp (length idx) value m slot = Some c ->
  (plane ← dst' !! slot; CVec <$> mapM (fun row : list Q => row !! Z.to_nat e) plane)
  = Some c.
Proof.
  intros Hshape [plane Hplane]. destruct value as [|v| | |]; simpl; try done.
  intros H Hc.
  destruct (expand (length idx) v) as [rows|]; simpl in *; [|done].
  destruct (mapM (expand (num_actions hp)) rows) as [vals|] eqn:Hvals;
    simpl in H; [|done].
  destruct (rows !! m) as [row|] eqn:Hrow; simpl in Hc; [|done].
  destruct (expand (num_actions hp) row) as [w|] eqn:Hw; simpl in Hc; [|done].
  injection Hc as <-.
  assert (vals !! m = Some w) as Hv.
  { apply mapM_Some in Hvals.
    destruct (Forall2_lookup_l _ _ _ _ _ Hvals Hrow) as (w' & Hw' & Hexp).
    congruence. }
  pose proof (index_put3_plane_length _ _ _ _ _ slot H) as Hlen.
  rewrite Hplane in Hlen. simpl in Hlen.
  destruct (dst' !! slot) as [plane'|] eqn:Hplane'; simpl in Hlen; [|done].
  injection Hlen as Hlen. simpl. rewrite (plane_col_Some plane' _ w); [done| |].
  - rewrite Hlen, (Hshape _ Hplane). symmetry. by eapply expand_length.
  - intros a x Hx.
    destruct (index_put3_written _ _ _ _ _ _ _ _ _ _ _ Hnd H Hm He Hv Hx)
      as (t & Ht & Hcell).
    apply pos3_nonneg in Ht as ->; [|done].
    unfold cell3 in Hcell. by rewrite Hplane' in Hcell.
Qed.
End Supplied.

(** ** The shapes are an invariant of the store *)

Lemma forallb_replicate {A} (f : A -> bool) (n : nat) (x : A) :
  f x = true -> forallb f (replicate n x) = true.
Proof. intros H. induction n as [|n IH]; simpl; [done|]. by rewrite H, IH. Qed.

Lemma rect2_replicate {A} (b l : nat) (x : A) :
  rect2 b l (replicate b (replicate l x)) = true.
Proof.
  unfold rect2. rewrite length_replicate, Nat.eqb_refl. simpl.
  apply forallb_replicate. rewrite length_replicate. apply Nat.eqb_refl.
Qed.

Lemma init_shape_ok (hp : Hparams) : shape_ok hp (init hp).
Proof.
  unfold shape_ok, shape_okb, init, zeros. simpl.
  rewrite !length_replicate, !Nat.eqb_refl, !rect2_replicate. simpl.
  unfold rect3. rewrite length_replicate, Nat.eqb_refl. simpl.
  rewrite forallb_replicate; [done|]. apply rect2_replicate.
Qed.

Lemma rect2_lengths {A} (b l : nat) (t : list (list A)) :
  rect2 b l t
  = Nat.eqb (length (length <$> t)) b && forallb (fun n => Nat.eqb n l) (length <$> t).
Proof.
  unfold rect2. rewrite length_fmap. f_equal.
  induction t as [|row t IH]; simpl; [done|]. by rewrite IH.
Qed.

Lemma rect2_same_lengths {A} (b l : nat) (t t' : list (list A)) :
  (forall s, length <$> t' !! s = length <$> t !! s) -> rect2 b l t' = rect2 b l t.
Proof.
  intros H. rewrite !rect2_lengths.
  assert (length <$> t' = length <$> t) as ->; [|done].
  apply list_eq. intros s. by rewrite !list_lookup_fmap.
Qed.

Lemma forallb_insert_same {A} (f : A -> bool) (l : list A) (i : nat) (x x' : A) :
  l !! i = Some x -> f x' = f x -> forallb f (<[i := x']> l) = forallb f l.
Proof.
  revert i. induction l as [|y l IH]; intros i Hi Hf; [done|].
  destruct i as [|i]; simpl in *.
  - injection Hi as ->. by rewrite Hf.
  - by rewrite (IH i).
Qed.

Lemma put_plane_row_length {A} (plane : list (list A)) a0 c v plane' s :
  put_plane plane a0 c v = Some plane' ->
  length <$> plane' !! s = length <$> plane !! s.
Proof.
  revert plane a0. induction v as [|x v IH]; intros plane a0 H; simpl in H.
  - by injection H as <-.
  - destruct (put2 plane a0 c x) as [p1|] eqn:Hput; simpl in H; [|done].
    rewrite (IH _ _ H). by eapply put2_row_length.
Qed.

Lemma index_put3_rect3 {A} (b a l : nat) (dst : list (list (list A)))
  rows cols vals dst' :
  index_put3 dst rows cols vals = Some dst' -> rect3 b a l dst' = rect3 b a l dst.
Proof.
  revert dst cols vals.
  induction rows as [|r rows IH]; intros dst [|c cols] [|v vals] H;
    simpl in H; try (by injection H as <-).
  destruct (put3 dst r c v) as [d1|] eqn:Hput; simpl in H; [|done].
  rewrite (IH _ _ _ H). apply put3_inv in Hput as (plane & plane' & Hr & Hp & ->).
  unfold rect3. rewrite length_insert. f_equal.
  apply forallb_insert_same with (x := plane); [done|].
  apply rect2_same_lengths. intros s. by eapply put_plane_row_length.
Qed.

Lemma index_put2_rect2 {A} (b l : nat) (dst : list (list A)) rows cols vals dst' :
  index_put2 dst rows cols vals = Some dst' -> rect2 b l dst' = rect2 b l dst.
Proof.
  intros H. apply rect2_same_lengths. intros s. by eapply index_put2_row_length.
Qed.

Lemma append_field_shape_ok (hp : Hparams) (idx : list nat) (elen : list Z)
  (st : GameStats) (item : string * tensor) (st' : GameStats) :
  append_field hp idx elen st item = Ok st' -> shape_ok hp st -> shape_ok hp st'.
Proof.
  destruct item as [key value]. intros H. unfold shape_ok, shape_okb.
  field_cases H;
    match goal with
    | Hw : _ = Some _ |- _ =>
        destruct value; simpl in Hw; try done;
        repeat match type of Hw with
               | context [expand ?n ?v] => destruct (expand n v); simpl in Hw; [|done]
               | context [mapM ?f ?l] => destruct (mapM f l); simpl in Hw; [|done]
               end;
        first [ by rewrite (index_put3_rect3 _ _ _ _ _ _ _ _ Hw)
              | by rewrite (index_put2_rect2 _ _ _ _ _ _ _ Hw)
              | by rewrite (index_put1_length _ _ _ _ Hw) ]
    end.
Qed.

(** Every store built from [__init__] by [append] and
    [update_last_reward_and_values] has the shapes of [__init__]. *)
Lemma append_shape_ok (hp : Hparams) (index : list Z) (dict : list (string * tensor))
  (st st' : GameStats) :
  append hp index dict st = Ok st' -> shape_ok hp st -> shape_ok hp st'.
Proof.
  intros H Hshape.
  apply append_inv in H as (idx & elen & s1 & _ & _ & Hfold & Hlens & ->).
  assert (shape_ok hp s1) as Hs1.
  { clear Hlens. revert st Hshape Hfold.
    induction dict as [|item dict IH]; intros st Hshape Hfold; simpl in Hfold.
    - by injection Hfold as <-.
    - inv_ok. eapply IH; [|done]. by eapply append_field_shape_ok. }
  apply foldR_episode_len in Hfold. apply index_put1_length in Hlens.
  unfold shape_ok, shape_okb in *. simpl. by rewrite Hlens, <- Hfold.
Qed.

Lemma update_shape_ok (hp : Hparams) (win_index : list Z) (rws : list Q)
  (st st' : GameStats) :
  update_last_reward_and_values win_index rws st = Ok st' ->
  shape_ok hp st -> shape_ok hp st'.
Proof.
  intros H. apply update_inv in H as (idx & elen & vals & _ & _ & _ & Hput & ->).
  unfold shape_ok, shape_okb. simpl. by rewrite (index_put2_rect2 _ _ _ _ _ _ _ Hput).
Qed.

(** ** What [append] records *)

Lemma slot_lt_batch (n : nat) (index : list Z) (idx : list nat) (m slot : nat) :
  mapM (py_index n) index = Some idx -> idx !! m = Some slot -> (slot < n)%nat.
Proof.
  intros H Hm. apply mapM_Some in H.
  destruct (Forall2_lookup_r _ _ _ _ _ H Hm) as (i & _ & Hi).
  by eapply py_index_lt.
Qed.

(** C3, as the code has it.  For distinct active slots and a dictionary of
    distinct keys, on a store of the shapes [__init__] sets up: each of
    [rewards], [root_values], [children_visits], [actions] and [player_ids]
    receives the entry of an active slot at step [episode_len[slot]] of
    that slot; the done flag is written to the slot's single cell of
    [dones]; the observation tensor is appended to the list [game_states];
    and [episode_len] grows by exactly 1 for the active slots and is kept
    for the others. *)
Theorem append_records_step (hp : Hparams) (index : list Z)
  (dict : list (string * tensor)) (st st' : GameStats) (idx : list nat) :
  append hp index dict st = Ok st' ->
  mapM (py_index (length (episode_len st))) index = Some idx ->
  NoDup idx -> NoDup dict.*1 -> shape_ok hp st ->
  Forall (fun e => 0 <= e < 2 ^ 63 - 1) (episode_len st) ->
  (forall key value m slot e c,
      key ∈ per_step_keys -> (key, value) ∈ dict ->
      idx !! m = Some slot -> episode_len st !! slot = Some e ->
      supplied hp (length idx) value m slot = Some c ->
      field_at st' key slot (Z.to_nat e) = Some c) /\
  (forall value m slot c,
      ("dones", value) ∈ dict -> idx !! m = Some slot ->
      supplied hp (length idx) value m slot = Some c ->
      CBool <$> dones st' !! slot = Some c) /\
  (forall value,
      ("game_states", value) ∈ dict ->
      game_states st' = (game_states st ++ [value])%list) /\
  (forall slot e,
      episode_len st !! slot = Some e ->
      episode_len st' !! slot = Some (if bool_decide (slot ∈ idx) then e + 1 else e)).
Proof.
  intros H Hidx Hnd Hkeys Hshape Hrange.
  apply append_inv in H as (idx' & elen & s1 & Hidx' & Helen & Hfold & Hlens & Hst).
  assert (idx' = idx) as -> by congruence.
  apply shape_ok_inv in Hshape as (Hb & _ & _ & Hcv & _).
  apply rect3_inv in Hcv as [Hcvb Hplanes].
  assert (forall m slot e, idx !! m = Some slot -> episode_len st !! slot = Some e ->
                           elen !! m = Some e /\ 0 <= e < 2 ^ 63 - 1) as Hsteps.
  { intros m slot e Hm He. rewrite (gather_lookup _ _ _ _ _ Helen Hm).
    split; [done|]. rewrite Forall_forall in Hrange.
    apply Hrange. by eapply list_elem_of_lookup_2. }
  split; [|split; [|split]].
  - intros key value m slot e c Hkey Hin Hm He Hc.
    destruct (Hsteps _ _ _ Hm He) as [He' [Hpos _]].
    rewrite Hst. unfold per_step_keys in Hkey.
    repeat (apply elem_of_cons in Hkey as [->|Hkey]); [| | | | |by apply elem_of_nil in Hkey];
      unfold field_at; simpl.
    + apply (foldR_rewards _ _ _ _ _ _ Hfold Hkeys) in Hin.
      by eapply write2Q_supplied.
    + apply (foldR_root_values _ _ _ _ _ _ Hfold Hkeys) in Hin.
      by eapply write2Q_supplied.
    + apply (foldR_children_visits _ _ _ _ _ _ Hfold Hkeys) in Hin.
      assert (is_Some (children_visits st !! slot)) as Hsome.
      { apply lookup_lt_is_Some_2. rewrite Hcvb, <- Hb. by eapply slot_lt_batch. }
      eapply write3Q_supplied; try done.
      intros plane Hplane. by apply (Hplanes _ _ Hplane).
    + apply (foldR_actions _ _ _ _ _ _ Hfold Hkeys) in Hin.
      by eapply write2Z_supplied.
    + apply (foldR_player_ids _ _ _ _ _ _ Hfold Hkeys) in Hin.
      by eapply write2Z_supplied.
  - intros value m slot c Hin Hm Hc. rewrite Hst. simpl.
    apply (foldR_dones _ _ _ _ _ _ Hfold Hkeys) in Hin.
    by eapply write1B_supplied.
  - intros value Hin. rewrite Hst. simpl.
    apply (foldR_game_states _ _ _ _ _ _ Hfold Hkeys) in Hin. congruence.
  - intros slot e He. case_bool_decide as Hin.
    + apply list_elem_of_lookup_1 in Hin as [m Hm].
      destruct (Hsteps _ _ _ Hm He) as [He' Hr].
      eapply index_put1_written; [done..|].
      rewrite list_lookup_fmap, He'. simpl. by rewrite add64_small by lia.
    + rewrite (index_put1_frame _ _ _ _ _ Hlens Hin). done.
Qed.

(** ** Earlier steps *)

Lemma index_put2_earlier {A} (dst : list (list A)) rows cols vals dst' (s t : nat) :
  index_put2 dst rows cols vals = Some dst' ->
  (forall m c, rows !! m = Some s -> cols !! m = Some c -> Z.of_nat t < c) ->
  cell2 dst' s t = cell2 dst s t.
Proof.
  intros H Hlater. eapply index_put2_frame; [done|].
  intros m c Hm Hc Hpos. specialize (Hlater m c Hm Hc).
  apply row_pos_nonneg in Hpos; lia.
Qed.

Lemma index_put3_earlier {A} (dst : list (list (list A))) rows cols vals dst'
  (s a t : nat) :
  index_put3 dst rows cols vals = Some dst' ->
  (forall m c, rows !! m = Some s -> cols !! m = Some c -> Z.of_nat t < c) ->
  cell3 dst' s a t = cell3 dst s a t.
Proof.
  intros H Hlater. eapply index_put3_frame; [done|].
  intros m c Hm Hc Hpos. specialize (Hlater m c Hm Hc).
  apply pos3_nonneg in Hpos; lia.
Qed.

Section Earlier.
Context (hp : Hparams) (idx : list nat) (elen : list Z) (slot step : nat).
Hypothesis Hlater :
  forall m c, idx !! m = Some slot -> elen !! m = Some c -> Z.of_nat step < c.

Lemma write2Q_earlier value dst dst' :
  write2Q idx elen value dst = Some dst' -> cell2 dst' slot step = cell2 dst slot step.
Proof.
  destruct value as [v| | | |]; simpl; try done. intros H.
  destruct (expand (length idx) v) as [vals|]; simpl in *; [|done].
  by eapply index_put2_earlier.
Qed.

Lemma write2Z_earlier value dst dst' :
  write2Z idx elen value dst = Some dst' -> cell2 dst' slot step = cell2 dst slot step.
Proof.
  destruct value as [| |v| |]; simpl; try done. intros H.
  destruct (expand (length idx) v) as [vals|]; simpl in *; [|done].
  by eapply index_put2_earlier.
Qed.

Lemma write3Q_earlier value dst dst' :
  write3Q hp idx elen value dst = Some dst' ->
  (plane ← dst' !! slot; CVec <$> mapM (fun row : list Q => row !! step) plane)
  = (plane ← dst !! slot; CVec <$> mapM (fun row : list Q => row !! step) plane).
Proof.
  destruct value as [|v| | |]; simpl; try done. intros H.
  destruct (expand (length idx) v) as [rows|]; simpl in *; [|done].
  destruct (mapM (expand (num_actions hp)) rows) as [vals|]; simpl in H; [|done].
  pose proof (index_put3_plane_length _ _ _ _ _ slot H) as Hlen.
  assert (forall a, cell3 dst' slot a step = cell3 dst slot a step) as Hcell.
  { intros a. by eapply index_put3_earlier. }
  unfold cell3 in Hcell.
  destruct (dst' !! slot) as [plane'|], (dst !! slot) as [plane|];
    simpl in *; try done.
  injection Hlen as Hlen. by rewrite (plane_col_ext plane' plane).
Qed.
End Earlier.

(** C9, as the code has it.  [dones] holds one flag per slot: an [append]
    overwrites the flag of its active slots with the supplied one and keeps
    the flag of the other slots, so only the flag of the latest append of a
    slot can be read back.  The tensors with a step dimension keep what
    they hold at every step below [episode_len[slot]]. *)
Theorem append_keeps_earlier_steps (hp : Hparams) (index : list Z)
  (dict : list (string * tensor)) (st st' : GameStats) (idx : list nat) :
  append hp index dict st = Ok st' ->
  mapM (py_index (length (episode_len st))) index = Some idx ->
  NoDup dict.*1 ->
  (forall key slot step e,
      key ∈ per_step_keys ->
      episode_len st !! slot = Some e -> Z.of_nat step < e ->
      field_at st' key slot step = field_at st key slot step) /\
  (NoDup idx ->
   forall value m slot c,
     ("dones", value) ∈ dict -> idx !! m = Some slot ->
     supplied hp (length idx) value m slot = Some c ->
     field_at st' "dones" slot 0 = Some c) /\
  (forall slot step, slot ∉ idx ->
                     field_at st' "dones" slot step = field_at st "dones" slot step).
Proof.
  intros H Hidx Hkeys.
  apply append_inv in H as (idx' & elen & s1 & Hidx' & Helen & Hfold & Hlens & Hst).
  assert (idx' = idx) as -> by congruence.
  split; [|split].
  - intros key slot step e Hkey He Hlt.
    assert (forall m c, idx !! m = Some slot -> elen !! m = Some c -> Z.of_nat step < c)
      as Hlater.
    { intros m c Hm Hc. rewrite (gather_lookup _ _ _ _ _ Helen Hm) in Hc. congruence. }
    rewrite Hst. unfold per_step_keys in Hkey.
    repeat (apply elem_of_cons in Hkey as [->|Hkey]); [| | | | |by apply elem_of_nil in Hkey];
      unfold field_at; simpl.
    + destruct (foldR_rewards _ _ _ _ _ _ Hfold Hkeys) as [Hout Hin].
      destruct (decide ("rewards" ∈ dict.*1)) as [Hk|Hk]; [|by rewrite Hout].
      apply list_elem_of_fmap in Hk as ([k value] & Hkv & Hk). simpl in Hkv. subst k.
      by rewrite (write2Q_earlier _ _ _ _ Hlater _ _ _ (Hin _ Hk)).
    + destruct (foldR_root_values _ _ _ _ _ _ Hfold Hkeys) as [Hout Hin].
      destruct (decide ("root_values" ∈ dict.*1)) as [Hk|Hk]; [|by rewrite Hout].
      apply list_elem_of_fmap in Hk as ([k value] & Hkv & Hk). simpl in Hkv. subst k.
      by rewrite (write2Q_earlier _ _ _ _ Hlater _ _ _ (Hin _ Hk)).
    + destruct (foldR_children_visits _ _ _ _ _ _ Hfold Hkeys) as [Hout Hin].
      destruct (decide ("children_visits" ∈ dict.*1)) as [Hk|Hk]; [|by rewrite Hout].
      apply list_elem_of_fmap in Hk as ([k value] & Hkv & Hk). simpl in Hkv. subst k.
      by apply (write3Q_earlier _ _ _ _ _ Hlater _ _ _ (Hin _ Hk)).
    + destruct (foldR_actions _ _ _ _ _ _ Hfold Hkeys) as [Hout Hin].
      destruct (decide ("actions" ∈ dict.*1)) as [Hk|Hk]; [|by rewrite Hout].
      apply list_elem_of_fmap in Hk as ([k value] & Hkv & Hk). simpl in Hkv. subst k.
      by rewrite (write2Z_earlier _ _ _ _ Hlater _ _ _ (Hin _ Hk)).
    + destruct (foldR_player_ids _ _ _ _ _ _ Hfold Hkeys) as [Hout Hin].
      destruct (decide ("player_ids" ∈ dict.*1)) as [Hk|Hk]; [|by rewrite Hout].
      apply list_elem_of_fmap in Hk as ([k value] & Hkv & Hk). simpl in Hkv. subst k.
      by rewrite (write2Z_earlier _ _ _ _ Hlater _ _ _ (Hin _ Hk)).
  - intros Hnd value m slot c Hin Hm Hc. rewrite Hst. unfold field_at. simpl.
    apply (foldR_dones _ _ _ _ _ _ Hfold Hkeys) in Hin.
    destruct (lookup_lt_is_Some_2 elen m) as [e He].
    { apply mapM_Some, Forall2_length in Helen. rewrite <- Helen.
      by eapply lookup_lt_Some. }
    by eapply (write1B_supplied hp idx m slot Hnd Hm).
  - intros slot step Hslot. rewrite Hst. unfold field_at. simpl.
    destruct (foldR_dones _ _ _ _ _ _ Hfold Hkeys) as [Hout Hin].
    destruct (decide ("dones" ∈ dict.*1)) as [Hk|Hk]; [|by rewrite Hout].
    apply list_elem_of_fmap in Hk as ([k value] & Hkv & Hk). simpl in Hkv. subst k.
    specialize (Hin _ Hk). destruct value as [| | |v|]; simpl in Hin; try done.
    destruct (expand (length idx) v) as [vals|]; simpl in Hin; [|done].
    by rewrite (index_put1_frame _ _ _ _ _ Hin Hslot).
Qed.

(** ** Training windows *)

Section Windows.

(** The [float32] operations are arbitrary: what is proved here holds for
    every structure [fl]. *)
Context {fl : Float32}.

Lemma make_target_inv (hp : Hparams) (st : GameStats) (start_index : list Z)
  (res : list TrainElement.t) :
  make_target hp st start_index = Ok res ->
  exists obs cols,
    mapR (fun p : nat * Z => initial_state st p.1 p.2)
         (zip (seq 0 (length start_index)) start_index) = Ok obs /\
    mapR (unroll hp st start_index (discount_mult hp (length start_index)))
         (seq 0 (S (num_unroll_steps hp))) = Ok cols /\
    res = imap (fun i p => element hp cols i p.1 p.2) (zip start_index obs).
Proof. unfold make_target. intros H. inv_ok. subst res. eauto 10. Qed.

(** Row [i] of the result is built from the columns of the loop. *)
Lemma make_target_element (hp : Hparams) (st : GameStats) (start_index : list Z)
  (res : list TrainElement.t) (i : nat) (el : TrainElement.t) :
  make_target hp st start_index = Ok res ->
  res !! i = Some el ->
  exists s o cols,
    start_index !! i = Some s /\
    Forall2 (fun k col =>
               unroll hp st start_index (discount_mult hp (length start_index)) k
               = Ok col)
            (seq 0 (S (num_unroll_steps hp))) cols /\
    el = element hp cols i s o.
Proof.
  intros H Hel. apply make_target_inv in H as (obs & cols & _ & Hc & ->).
  rewrite list_lookup_imap in Hel.
  destruct (zip start_index obs !! i) as [[s o]|] eqn:Hz; simpl in Hel; [|done].
  injection Hel as <-. apply lookup_zip_with_Some in Hz as (s' & o' & [= <- <-] & Hs & Ho).
  exists s, o, cols. split; [done|]. split; [|done].
  by apply mapR_Ok.
Qed.

Lemma make_target_length (hp : Hparams) (st : GameStats) (start_index : list Z)
  (res : list TrainElement.t) :
  make_target hp st start_index = Ok res -> length res = length start_index.
Proof.
  intros H. apply make_target_inv in H as (obs & cols & Ho & _ & ->).
  apply mapR_length in Ho. rewrite length_imap, length_zip_with_l_eq; [done|].
  rewrite Ho, length_zip_with_r_eq; [done|]. by rewrite length_seq.
Qed.

Lemma unroll_inv (hp : Hparams) (st : GameStats) (start_index : list Z)
  (weights : list (list f32)) (k : nat) (col : column) :
  unroll hp st start_index weights k = Ok col ->
  length start_index = length (episode_len st) /\
  length start_index = length (rewards st) /\
  exists bvals discount discounted,
    bootstrap_values hp st (boot_index hp start_index k)
      (zip_with Z.ltb (boot_index hp start_index k) (episode_len st)) = Ok bvals /\
    roll_by_gather weights 1 (unroll_index start_index k) = Some discount /\
    mapM (fun p : list Q * list f32 => mul_bcast (of_Q <$> p.1) p.2)
         (zip (zip_with (fun row sb => mask_window row sb.1 sb.2)
                        (rewards st)
                        (zip (unroll_index start_index k) (boot_index hp start_index k)))
              discount) = Some discounted /\
    col_values col = zip_with fadd bvals (map fsum discounted) /\
    col_valid col = zip_with Z.ltb (unroll_index start_index k) (episode_len st) /\
    select_col (rewards st) k = Ok (col_rewards col) /\
    mapM (fun plane : list (list Q) => mapM (fun row : list Q => row !! k) plane)
         (children_visits st) = Some (col_children_visits col).
Proof.
  unfold unroll, boot_index, unroll_index. intros H. inv_ok. subst col. simpl.
  apply Nat.eqb_eq in Ha, Ha1. eauto 15.
Qed.

(** *** The validity length *)

Lemma filter_length_le {A} (f : A -> bool) (l : list A) :
  (length (List.filter f l) <= length l)%nat.
Proof. induction l as [|a l IH]; simpl; [done|]. destruct (f a); simpl; lia. Qed.

Lemma filter_length_lt {A} (f : A -> bool) (l : list A) (x : A) :
  x ∈ l -> f x = false -> (length (List.filter f l) < length l)%nat.
Proof.
  induction l as [|a l IH]; intros Hin Hx; [by apply elem_of_nil in Hin|].
  simpl. apply elem_of_cons in Hin as [<-|Hin].
  - rewrite Hx. pose proof (filter_length_le f l). lia.
  - specialize (IH Hin Hx). destruct (f a); simpl; lia.
Qed.

(** The counter of [sample_len] after the columns of the offsets [ks]. *)
Lemma sample_len_fold (valid : nat -> bool) (i : nat) (ks : list nat)
  (cols : list column) (acc : Z) :
  Forall2 (fun k col => nth i (col_valid col) false = valid k) ks cols ->
  0 <= acc -> acc + Z.of_nat (length ks) < 2 ^ 63 ->
  fold_left (fun acc c => if nth i (col_valid c) false then add64 acc 1 else acc) cols acc
  = acc + Z.of_nat (length (List.filter valid ks)).
Proof.
  intros H. revert acc. induction H as [|k col ks cols Hk _ IH]; intros acc Hacc Hlt.
  - simpl. lia.
  - simpl in *. rewrite Hk. destruct (valid k); simpl.
    + rewrite add64_small by lia. rewrite IH by lia. lia.
    + rewrite IH by lia. lia.
Qed.

(** C6. [sample_len] of a window is the number of offsets [k] in
    [0..num_unroll_steps] whose step [start_index + k] lies inside the
    slot's episode; a window that reaches the episode end or goes past it
    has [sample_len < num_unroll_steps + 1]. *)
Theorem make_target_sample_len (hp : Hparams) (st : GameStats) (start_index : list Z)
  (res : list TrainElement.t) (i : nat) (s e : Z) (el : TrainElement.t) :
  make_target hp st start_index = Ok res ->
  start_index !! i = Some s -> in_range hp s ->
  episode_len st !! i = Some e ->
  res !! i = Some el ->
  TrainElement.sample_len el = Z.of_nat (steps_in_episode s e (num_unroll_steps hp)) /\
  (e <= s + Z.of_nat (num_unroll_steps hp) ->
   TrainElement.sample_len el < Z.of_nat (num_unroll_steps hp) + 1).
Proof.
  intros H Hs [Hs0 Hs63] He Hel.
  destruct (make_target_element _ _ _ _ _ _ H Hel) as (s' & o & cols & Hs' & Hcols & ->).
  assert (s' = s) as -> by congruence.
  assert (TrainElement.sample_len (element hp cols i s o)
          = Z.of_nat (steps_in_episode s e (num_unroll_steps hp))) as Hlen.
  { simpl. unfold steps_in_episode.
    rewrite (sample_len_fold (fun k => s + Z.of_nat k <? e) i
               (seq 0 (S (num_unroll_steps hp))) cols 0); [lia| |lia|].
    - apply Forall2_same_length_lookup. split; [by eapply Forall2_length|].
      intros j k col Hk Hcol.
      pose proof (Forall2_lookup_lr _ _ _ _ _ _ Hcols Hk Hcol) as Hun.
      apply lookup_seq in Hk as [-> Hj]. simpl in *.
      apply unroll_inv in Hun as (_ & _ & _ & _ & _ & _ & _ & _ & _ & Hvalid & _).
      rewrite Hvalid. apply nth_lookup_Some with (d := false).
      unfold unroll_index. rewrite lookup_zip_with, list_lookup_fmap, Hs, He. simpl.
      rewrite add64_small by lia. done.
    - rewrite length_seq. lia. }
  split; [done|]. intros Hend. rewrite Hlen. unfold steps_in_episode.
  pose proof (filter_length_lt (fun k => s + Z.of_nat k <? e)
                (seq 0 (S (num_unroll_steps hp))) (num_unroll_steps hp)) as Hlt.
  rewrite length_seq in Hlt. apply Nat2Z.inj_lt in Hlt; [lia| |].
  - apply elem_of_seq. lia.
  - apply Z.ltb_ge. lia.
Qed.

(** *** The bootstrap term *)

Lemma omap_length_le {A B} (f : A -> option B) (l : list A) :
  (length (omap f l) <= length l)%nat.
Proof. induction l as [|a l IH]; csimpl; [done|]. destruct (f a); csimpl; lia. Qed.

(** When every row passes the mask, the rows selected are all the rows. *)
Lemma mask_all (j : nat) (mask : list bool) :
  length (omap (fun p : nat * bool => if p.2 then Some p.1 else None)
               (zip (seq j (length mask)) mask)) = length mask ->
  omap (fun p : nat * bool => if p.2 then Some p.1 else None)
       (zip (seq j (length mask)) mask) = seq j (length mask) /\
  Forall (fun b => b = true) mask.
Proof.
  revert j. induction mask as [|b mask IH]; intros j H; csimpl in *; [done|].
  destruct b; csimpl in H.
  - injection H as H. destruct (IH (S j) H) as [Heq Hall].
    csimpl. rewrite Heq. split; [done|]. by constructor.
  - exfalso.
    pose proof (omap_length_le (fun p : nat * bool => if p.2 then Some p.1 else None)
                  (zip (seq (S j) (length mask)) mask)) as Hle.
    rewrite length_zip_with_r_eq in Hle by (by rewrite length_seq). lia.
Qed.

Lemma existsb_id_false (mask : list bool) (i : nat) (b : bool) :
  existsb id mask = false -> mask !! i = Some b -> b = false.
Proof.
  revert i. induction mask as [|b0 mask IH]; intros i H Hi; [done|].
  simpl in H. apply orb_false_elim in H as [H0 H]. destruct i as [|i]; simpl in Hi.
  - injection Hi as <-. done.
  - by eapply IH.
Qed.

Lemma bootstrap_values_lookup (hp : Hparams) (st : GameStats) (bidx : list Z)
  (mask : list bool) (bvals : list f32) (i : nat) (b : Z) (mk : bool) :
  bootstrap_values hp st bidx mask = Ok bvals ->
  length mask = length bidx ->
  bidx !! i = Some b -> mask !! i = Some mk ->
  exists x, bvals !! i = Some x /\
            if mk then exists r,
                root_read st i b = Some r /\
                x = fmul (of_Q r) (last_discount (value_discount hp) (td_steps hp))
            else x = of_Q 0.
Proof.
  unfold bootstrap_values. intros H Hlen Hb Hmk.
  destruct (existsb id mask) eqn:Hany.
  - destruct (Nat.eqb _ (length bidx)) eqn:Hall.
    + apply Nat.eqb_eq in Hall. rewrite <- Hlen in Hall.
      rewrite <- Hlen in H. destruct (mask_all 0 mask Hall) as [Heq Htrue].
      rewrite Heq in H. inv_ok. subst bvals. rename a into got.
      rewrite Forall_forall in Htrue.
      assert (mk = true) as -> by (apply Htrue; by eapply list_elem_of_lookup_2).
      apply mapM_Some in Ha.
      assert (zip (seq 0 (length mask)) bidx !! i = Some (i, b)) as Hz.
      { apply lookup_zip_with_Some. exists i, b. split; [done|]. split; [|done].
        apply lookup_seq. split; [done|]. by eapply lookup_lt_Some. }
      destruct (Forall2_lookup_l _ _ _ _ _ Ha Hz) as (r & Hr & Hread).
      exists (fmul (of_Q r) (last_discount (value_discount hp) (td_steps hp))). split.
      * by rewrite list_lookup_fmap, Hr.
      * exists r. done.
    + destruct (omap _ _) as [|v [|]]; try done.
      destruct (or_raise IndexError _); done.
  - injection H as <-. rewrite (existsb_id_false _ _ _ Hany Hmk).
    exists (of_Q 0). split; [|done]. apply lookup_replicate_2. by eapply lookup_lt_Some.
Qed.

(** *** The discounted window *)

Lemma roll_by_gather_row {A} (mat : list (list A)) (shifts : list Z)
  (out : list (list A)) (i : nat) (row : list A) (shift : Z) :
  roll_by_gather mat 1 shifts = Some out ->
  mat !! i = Some row -> shifts !! i = Some shift ->
  exists o, out !! i = Some o /\ roll_row row shift = Some o.
Proof.
  unfold roll_by_gather. intros H Hrow Hshift. apply mapM_Some in H.
  assert (zip mat shifts !! i = Some (row, shift)) as Hz.
  { apply lookup_zip_with_Some. by exists row, shift. }
  destruct (Forall2_lookup_l _ _ _ _ _ H Hz) as (o & Ho & Hroll). by exists o.
Qed.

Lemma mask_window_lookup (row : list Q) (lo hi : Z) (t : nat) :
  mask_window row lo hi !! t
  = (fun r => if hi <=? Z.of_nat t then 0%Q
              else if Z.of_nat t <? lo then 0%Q else r) <$> row !! t.
Proof.
  unfold mask_window. rewrite !list_lookup_imap.
  destruct (row !! t); simpl; [|done]. done.
Qed.

Lemma mask_window_length (row : list Q) (lo hi : Z) :
  length (mask_window row lo hi) = length row.
Proof. unfold mask_window. by rewrite !length_imap. Qed.

(** The masked row only depends on the entries of the window. *)
Lemma mask_window_ext (row row' : list Q) (lo hi : Z) :
  length row = length row' ->
  (forall t, lo <= Z.of_nat t < hi -> row !! t = row' !! t) ->
  mask_window row lo hi = mask_window row' lo hi.
Proof.
  intros Hlen Hwin. apply list_eq. intros t. rewrite !mask_window_lookup.
  destruct (hi <=? Z.of_nat t) eqn:Ehi.
  - destruct (row !! t) eqn:E1, (row' !! t) eqn:E2; try done.
    + apply lookup_lt_Some in E1. apply lookup_ge_None in E2. lia.
    + apply lookup_lt_Some in E2. apply lookup_ge_None in E1. lia.
  - destruct (Z.of_nat t <? lo) eqn:Elo.
    + destruct (row !! t) eqn:E1, (row' !! t) eqn:E2; try done.
      * apply lookup_lt_Some in E1. apply lookup_ge_None in E2. lia.
      * apply lookup_lt_Some in E2. apply lookup_ge_None in E1. lia.
    + rewrite Hwin; [done|]. lia.
Qed.

(** *** The value of one offset *)

Lemma unroll_value (hp : Hparams) (st : GameStats) (start_index : list Z)
  (k : nat) (col : column) (i : nat) (s : Z) :
  unroll hp st start_index (discount_mult hp (length start_index)) k = Ok col ->
  start_index !! i = Some s ->
  let lo := add64 s (Z.of_nat k) in
  let hi := add64 (add64 s (Z.of_nat k)) (Z.of_nat (td_steps hp)) in
  exists e row b disc d,
    episode_len st !! i = Some e /\ rewards st !! i = Some row /\
    (if hi <? e
     then exists r,
         root_read st i hi = Some r /\
         b = fmul (of_Q r) (last_discount (value_discount hp) (td_steps hp))
     else b = of_Q 0) /\
    roll_row (logspace_0_1 (td_steps hp) (value_discount hp)) lo = Some disc /\
    mul_bcast (of_Q <$> mask_window row lo hi) disc = Some d /\
    nth i (col_values col) (of_Q 0) = fadd b (fsum d).
Proof.
  intros H Hs lo hi.
  apply unroll_inv in H
    as (Hlen & Hlenr & bvals & discount & discounted & Hb & Hroll & Hmul & Hval & _).
  destruct (lookup_lt_is_Some_2 (episode_len st) i) as [e He].
  { rewrite <- Hlen. by eapply lookup_lt_Some. }
  destruct (lookup_lt_is_Some_2 (rewards st) i) as [row Hrow].
  { rewrite <- Hlenr. by eapply lookup_lt_Some. }
  assert (unroll_index start_index k !! i = Some lo) as Hlo.
  { unfold unroll_index. by rewrite list_lookup_fmap, Hs. }
  assert (boot_index hp start_index k !! i = Some hi) as Hhi.
  { unfold boot_index. by rewrite list_lookup_fmap, Hlo. }
  destruct (bootstrap_values_lookup _ _ _ _ _ i hi (hi <? e) Hb) as (b & Hbi & Hbv);
    [|done| |].
  { rewrite length_zip_with_l_eq; [done|].
    unfold boot_index, unroll_index. by rewrite !length_fmap. }
  { by rewrite lookup_zip_with, Hhi, He. }
  destruct (roll_by_gather_row _ _ _ i (logspace_0_1 (td_steps hp) (value_discount hp))
              lo Hroll) as (disc & Hdisc & Hrr); [|done|].
  { apply lookup_replicate_2. by eapply lookup_lt_Some. }
  apply mapM_Some in Hmul.
  assert (zip (zip_with (fun row sb => mask_window row sb.1 sb.2) (rewards st)
                 (zip (unroll_index start_index k) (boot_index hp start_index k)))
              discount !! i = Some (mask_window row lo hi, disc)) as Hz.
  { apply lookup_zip_with_Some. exists (mask_window row lo hi), disc.
    split; [done|]. split; [|done].
    apply lookup_zip_with_Some. exists row, (lo, hi). split; [done|].
    split; [done|]. apply lookup_zip_with_Some. by exists lo, hi. }
  destruct (Forall2_lookup_l _ _ _ _ _ Hmul Hz) as (d & Hd & Hmb). simpl in Hmb.
  exists e, row, b, disc, d. repeat (split; [done|]).
  rewrite Hval. apply nth_lookup_Some with (d := of_Q 0).
  by rewrite lookup_zip_with, Hbi, list_lookup_fmap, Hd.
Qed.

Lemma make_target_value (hp : Hparams) (st : GameStats) (start_index : list Z)
  (res : list TrainElement.t) (i : nat) (el : TrainElement.t) (k : nat) :
  make_target hp st start_index = Ok res ->
  res !! i = Some el -> (k <= num_unroll_steps hp)%nat ->
  exists col,
    unroll hp st start_index (discount_mult hp (length start_index)) k = Ok col /\
    TrainElement.values el !! k = Some (nth i (col_values col) (of_Q 0)) /\
    TrainElement.rewards el !! k = Some (nth i (col_rewards col) 0%Q).
Proof.
  intros H Hel Hk.
  destruct (make_target_element _ _ _ _ _ _ H Hel) as (s & o & cols & _ & Hcols & ->).
  assert (seq 0 (S (num_unroll_steps hp)) !! k = Some k) as Hseq.
  { apply lookup_seq. split; [done|lia]. }
  destruct (Forall2_lookup_l _ _ _ _ _ Hcols Hseq) as (col & Hcol & Hun).
  exists col. split; [done|]. simpl.
  by rewrite !list_lookup_fmap, Hcol.
Qed.

(** C4, as the code has it.  Two stores of the same shapes that hold the
    same episode lengths and root values, and whose rewards agree for a slot
    on the window [[start + k, start + k + td_steps)], give that slot the
    same target value at offset [k]: entries outside the window, however
    far, do not reach it. *)
Theorem target_value_window (hp : Hparams) (st1 st2 : GameStats)
  (start_index : list Z) (res1 res2 : list TrainElement.t)
  (i : nat) (s : Z) (k : nat) (el1 el2 : TrainElement.t) :
  make_target hp st1 start_index = Ok res1 ->
  make_target hp st2 start_index = Ok res2 ->
  shape_ok hp st1 -> shape_ok hp st2 ->
  episode_len st1 = episode_len st2 -> root_values st1 = root_values st2 ->
  start_index !! i = Some s -> in_range hp s -> (k <= num_unroll_steps hp)%nat ->
  (forall t, in_window hp s k t ->
             cell2 (rewards st1) i t = cell2 (rewards st2) i t) ->
  res1 !! i = Some el1 -> res2 !! i = Some el2 ->
  TrainElement.values el1 !! k = TrainElement.values el2 !! k.
Proof.
  intros H1 H2 Hsh1 Hsh2 Hlen Hroot Hs [Hs0 Hs63] Hk Hwin Hel1 Hel2.
  destruct (make_target_value _ _ _ _ _ _ _ H1 Hel1 Hk) as (col1 & Hun1 & -> & _).
  destruct (make_target_value _ _ _ _ _ _ _ H2 Hel2 Hk) as (col2 & Hun2 & -> & _).
  destruct (unroll_value _ _ _ _ _ _ _ Hun1 Hs)
    as (e1 & row1 & b1 & disc1 & d1 & He1 & Hrow1 & Hb1 & Hr1 & Hm1 & ->).
  destruct (unroll_value _ _ _ _ _ _ _ Hun2 Hs)
    as (e2 & row2 & b2 & disc2 & d2 & He2 & Hrow2 & Hb2 & Hr2 & Hm2 & ->).
  rewrite !add64_small in * by (rewrite ?add64_small; lia).
  assert (e2 = e1) as -> by congruence.
  assert (disc2 = disc1) as -> by congruence.
  assert (b2 = b1) as ->.
  { unfold root_read in *. rewrite <- Hroot in Hb2.
    destruct (_ <? e1); [|congruence].
    destruct Hb1 as (r1 & Hr1' & ->), Hb2 as (r2 & Hr2' & ->). congruence. }
  assert (mask_window row1 (s + Z.of_nat k) (s + Z.of_nat k + Z.of_nat (td_steps hp))
          = mask_window row2 (s + Z.of_nat k) (s + Z.of_nat k + Z.of_nat (td_steps hp)))
    as Hmask.
  { apply mask_window_ext.
    - apply shape_ok_inv in Hsh1 as (_ & Hrect1 & _).
      apply shape_ok_inv in Hsh2 as (_ & Hrect2 & _).
      apply rect2_inv in Hrect1 as [_ Hrows1]. apply rect2_inv in Hrect2 as [_ Hrows2].
      by rewrite (Hrows1 _ _ Hrow1), (Hrows2 _ _ Hrow2).
    - intros t Ht. specialize (Hwin t Ht). unfold cell2 in Hwin.
      by rewrite Hrow1, Hrow2 in Hwin. }
  rewrite Hmask in Hm1. assert (d2 = d1) as -> by congruence. done.
Qed.

(** *** One-step targets *)

Lemma replicate_zeros {A} (z : A) (l : list A) :
  (forall t x, l !! t = Some x -> x = z) -> l = replicate (length l) z.
Proof.
  intros H. symmetry. apply replicate_as_elem_of. split; [done|].
  intros y Hy. apply list_elem_of_lookup in Hy as [t Ht]. by eapply H.
Qed.

Lemma fsum_all_zero (l : list f32) :
  one_step_facts fl ->
  (forall t x, l !! t = Some x -> x = of_Q 0) -> fsum l = of_Q 0.
Proof.
  intros Hfl H. rewrite (replicate_zeros (of_Q 0) l H). apply (fsum_zeros fl Hfl).
Qed.

(** A row that is zero away from position [p] sums to its entry at [p]. *)
Lemma fsum_one_entry (l : list f32) (p : nat) (q : Q) :
  one_step_facts fl ->
  l !! p = Some (of_Q q) ->
  (forall t x, l !! t = Some x -> t <> p -> x = of_Q 0) ->
  fsum l = of_Q q.
Proof.
  intros Hfl Hp H. rewrite <- (take_drop_middle l p (of_Q q) Hp).
  rewrite (replicate_zeros (of_Q 0) (take p l)).
  - rewrite (replicate_zeros (of_Q 0) (drop (S p) l)); [apply (fsum_single fl Hfl)|].
    intros t x Hx. rewrite lookup_drop in Hx. apply (H _ _ Hx). lia.
  - intros t x Hx. apply lookup_take_Some in Hx as [Hx Ht]. apply (H _ _ Hx). lia.
Qed.

Lemma mul_bcast_one (r d : list f32) :
  one_step_facts fl -> mul_bcast r [of_Q 1] = Some d -> d = r.
Proof.
  intros Hfl. unfold mul_bcast.
  destruct (Nat.eqb (length r) (length [of_Q 1])) eqn:E.
  - apply Nat.eqb_eq in E. destruct r as [|x [|]]; try done.
    intros [= <-]. cbn [zip_with]. by rewrite (fmul_one fl Hfl).
  - intros [= <-]. rewrite <- (list_fmap_id r) at 2. apply list_fmap_ext.
    intros t x _. apply (fmul_one fl Hfl).
Qed.

Lemma roll_row_one {A} (x : A) (shift : Z) : roll_row [x] shift = Some [x].
Proof. unfold roll_row. simpl. by rewrite Z.mod_1_r. Qed.

(** The discounted rewards of a one-step window: the reward of the step
    where the window starts, and zeros. *)
Lemma one_step_window (row : list Q) (lo : Z) (disc d : list f32) (base : Q) :
  one_step_facts fl -> 0 <= lo ->
  roll_row (logspace_0_1 1 base) lo = Some disc ->
  mul_bcast (of_Q <$> mask_window row lo (lo + 1)) disc = Some d ->
  fsum d = of_Q (default 0%Q (row !! Z.to_nat lo)).
Proof.
  intros Hfl Hlo Hroll Hmul. unfold logspace_0_1 in Hroll. simpl in Hroll.
  rewrite (logspace_one fl Hfl), roll_row_one in Hroll. injection Hroll as <-.
  apply (mul_bcast_one _ _ Hfl) in Hmul. subst d.
  assert (forall t x,
             (of_Q <$> mask_window row lo (lo + 1)) !! t = Some x ->
             t <> Z.to_nat lo -> x = of_Q 0) as Hzero.
  { intros t x Hx Ht. rewrite list_lookup_fmap, mask_window_lookup in Hx.
    destruct (row !! t); simpl in Hx; [|done]. injection Hx as <-.
    destruct (Z.leb_spec (lo + 1) (Z.of_nat t)); [done|].
    destruct (Z.ltb_spec (Z.of_nat t) lo); [done|]. lia. }
  destruct (row !! Z.to_nat lo) as [r|] eqn:Hr; simpl.
  - apply (fsum_one_entry _ (Z.to_nat lo)); [done| |done].
    rewrite list_lookup_fmap, mask_window_lookup, Hr. simpl.
    destruct (Z.leb_spec (lo + 1) (Z.of_nat (Z.to_nat lo))); [lia|].
    destruct (Z.ltb_spec (Z.of_nat (Z.to_nat lo)) lo); [lia|]. done.
  - apply fsum_all_zero; [done|]. intros t x Hx.
    destruct (decide (t = Z.to_nat lo)) as [->|Hne]; [|by eapply Hzero].
    by rewrite list_lookup_fmap, mask_window_lookup, Hr in Hx.
Qed.

(** The root value that the bootstrap index of a window reads. *)
Lemma root_read_at (st : GameStats) (i : nat) (b : Z) (r : Q) :
  0 <= b -> root_read st i b = Some r -> root_value_at st i b = r.
Proof.
  intros Hb Hr. unfold root_read in Hr. unfold root_value_at, cell2.
  destruct (Z.leb_spec 0 b); [|lia].
  destruct (root_values st !! i) as [rrow|]; simpl in *; [|done].
  destruct (py_index (length rrow) b) as [c|] eqn:Hc; simpl in Hr; [|done].
  apply py_index_nonneg_inv in Hc as [-> _]; [|lia]. by rewrite Hr.
Qed.

(** C7. With [td_steps = 1] and a discount of 1, every returned target
    value at offset [k] is the reward stored at step [start + k] plus the
    root value stored at step [start + k + 1] when that step is inside the
    episode, and the reward alone otherwise.  The sum is the one [float32]
    addition of line 192, [values += discounted_rewards]. *)
Theorem make_target_one_step (hp : Hparams) (st : GameStats) (start_index : list Z)
  (res : list TrainElement.t) (i : nat) (s e : Z) (el : TrainElement.t) (k : nat) :
  one_step_facts fl ->
  td_steps hp = 1%nat -> (value_discount hp == 1)%Q ->
  make_target hp st start_index = Ok res ->
  start_index !! i = Some s -> in_range hp s ->
  episode_len st !! i = Some e ->
  res !! i = Some el -> (k <= num_unroll_steps hp)%nat ->
  TrainElement.values el !! k
  = Some (if s + Z.of_nat k + 1 <? e
          then fadd (of_Q (root_value_at st i (s + Z.of_nat k + 1)))
                    (of_Q (reward_at st i (s + Z.of_nat k)))
          else of_Q (reward_at st i (s + Z.of_nat k))).
Proof.
  intros Hfl Htd Hd H Hs [Hs0 Hs63] He Hel Hk.
  destruct (make_target_value _ _ _ _ _ _ _ H Hel Hk) as (col & Hun & Hv & _).
  destruct (unroll_value _ _ _ _ _ _ _ Hun Hs)
    as (e' & row & b & disc & d & He' & Hrow & Hb & Hroll & Hmul & Hnth).
  assert (e' = e) as -> by congruence.
  rewrite Htd in *. rewrite !add64_small in * by (rewrite ?add64_small; lia).
  change (Z.of_nat 1) with 1 in *.
  assert (0 <= s + Z.of_nat k) as Hlo by lia.
  rewrite (one_step_window _ _ _ _ _ Hfl Hlo Hroll Hmul) in Hnth.
  rewrite Hv, Hnth. f_equal.
  assert (reward_at st i (s + Z.of_nat k) = default 0%Q (row !! Z.to_nat (s + Z.of_nat k)))
    as ->.
  { unfold reward_at, cell2. destruct (Z.leb_spec 0 (s + Z.of_nat k)); [|lia].
    by rewrite Hrow. }
  destruct (s + Z.of_nat k + 1 <? e).
  - destruct Hb as (r & Hr & ->).
    assert (0 <= s + Z.of_nat k + 1) as Hhi by lia.
    rewrite (root_read_at _ _ _ _ Hhi Hr).
    by rewrite (last_discount_one fl Hfl _ _ Hd), (fmul_one fl Hfl).
  - rewrite Hb. apply (fadd_zero fl Hfl).
Qed.

End Windows.

(** * Witnesses and counterexamples *)

(** Membership in a literal list. *)
Ltac in_list :=
  solve [repeat first [apply list_elem_of_here | apply list_elem_of_further]].

Lemma make_target_reward_column {fl : Float32} (hp : Hparams) (st : GameStats)
  (start_index : list Z) (res : list TrainElement.t) (i : nat)
  (el : TrainElement.t) (k : nat) :
  make_target hp st start_index = Ok res ->
  res !! i = Some el -> (k <= num_unroll_steps hp)%nat ->
  TrainElement.rewards el !! k = cell2 (rewards st) i k.
Proof.
  intros H Hel Hk.
  destruct (make_target_value _ _ _ _ _ _ _ H Hel Hk) as (col & Hun & _ & ->).
  apply make_target_length in H as Hlen.
  apply unroll_inv in Hun as (_ & Hlenr & _ & _ & _ & _ & _ & _ & _ & _ & Hsel & _).
  unfold select_col in Hsel. apply or_raise_Ok, mapM_Some in Hsel.
  destruct (lookup_lt_is_Some_2 (rewards st) i) as [row Hrow].
  { rewrite <- Hlenr, <- Hlen. by eapply lookup_lt_Some. }
  destruct (Forall2_lookup_l _ _ _ _ _ Hsel Hrow) as (x & Hx & Hrk).
  unfold cell2. rewrite Hrow. simpl. rewrite Hrk. f_equal.
  by apply nth_lookup_Some with (d := 0%Q).
Qed.

(** C1, the code at a failing input.  After two recorded steps with
    rewards 5 and 7 and visit counts (1, 2) and (3, 4), the window that
    starts at step 1 carries the rewards of steps 0 and 1 and the visit
    counts of steps 0 and 1: offset 0 holds the reward 5 of step 0 where
    step [start + 0 = 1] holds 7, and offset 1 holds 7 where step
    [start + 1 = 2] is past the episode end. *)
Lemma make_target_copies_leading_steps :
  make_target hp_a store_a2 [1] = Ok [target_a store_a2 1] /\
  episode_len store_a2 = [2] /\
  TrainElement.rewards (target_a store_a2 1) = [5%Q; 7%Q] /\
  reward_at store_a2 0 (1 + 0) = 7%Q /\
  TrainElement.children_visits (target_a store_a2 1) = [[1%Q; 3%Q]; [2%Q; 4%Q]] /\
  field_at store_a2 "children_visits" 0 0 = Some (CVec [1%Q; 2%Q]) /\
  field_at store_a2 "children_visits" 0 (1 + 0) = Some (CVec [3%Q; 4%Q]).
Proof. vm_compute. repeat split. Qed.

(** C2, the code at failing inputs.  With [td_steps = max_episode_len = 3],
    a discount of 1/4 and three steps of reward 1, the weights are
    [1, 1/2, 1/4] (the exponents of [logspace] run from 0 to 1), so the
    target value is 7/4 where the n-step return is 1 + 1/4 + 1/16 = 21/16.
    With [td_steps = 2] on the same store the product of the rewards and
    the weights has mismatched shapes and the call raises; and with
    episodes of 2 and 1 steps in one batch the bootstrap index is valid
    for one slot only and the call raises.  Whatever the [float32]
    operations return, the three rewards are multiplied with the entries
    0, 1 and 2 of [logspace(0, 1, 3, base=1/4)]. *)
Lemma make_target_value_diverges :
  make_target hp_c store_c [0] = Ok [target_c] /\
  logspace_0_1 (fl := exact) (td_steps hp_c) (value_discount hp_c)
  = [1%Q; 1 # 2; 1 # 4] /\
  (exists v, TrainElement.values target_c = [v] /\ (v == 7 # 4)%Q /\
             (n_step_return hp_c store_c 0 0 0 == 21 # 16)%Q /\
             ~ (v == n_step_return hp_c store_c 0 0 0)%Q) /\
  (forall fl : Float32, make_target (fl := fl) hp_c2 store_c [0] = Raise RuntimeError) /\
  (forall fl : Float32, make_target (fl := fl) hp_d store_d [0; 0] = Raise RuntimeError) /\
  (forall fl : Float32, exists el,
      make_target (fl := fl) hp_c store_c [0] = Ok [el] /\
      TrainElement.values el
      = [fadd (of_Q 0)
              (fsum [fmul (of_Q 1) (logspace_entry 3 (1 # 4) 0);
                     fmul (of_Q 1) (logspace_entry 3 (1 # 4) 1);
                     fmul (of_Q 1) (logspace_entry 3 (1 # 4) 2)])]).
Proof.
  split; [by vm_compute|]. split; [by vm_compute|]. split.
  - exists (14 # 8)%Q. split; [by vm_compute|]. split; [by vm_compute|].
    split; [by vm_compute|]. by vm_compute.
  - split; [|split]; intros fl; [by vm_compute|by vm_compute|].
    eexists. split; by vm_compute.
Qed.

(** C3, counterexample.  Slot 0 has recorded a step and slot 1 has not;
    an [append] for slot 1 puts its capture at the end of [game_states],
    position 1, while [episode_len[1]] is 0: step 0 of slot 1 reads the
    capture of the first call. *)
Lemma append_position_counterexample : ~ writes_at_episode_len stored_keys.
Proof.
  intros Hclaim.
  specialize (Hclaim hp_b [1] [("game_states", StateT [[21%Q]; [22%Q]])]
                store_b1
                (with_episode_len
                   (with_game_states store_b1
                      [StateT [[11%Q]; [12%Q]]; StateT [[21%Q]; [22%Q]]])
                   [1; 1])
                [1%nat]
                eq_refl eq_refl).
  specialize (Hclaim ltac:(compute_done) ltac:(compute_done) eq_refl
                ltac:(repeat constructor; lia)).
  specialize (Hclaim "game_states" (StateT [[21%Q]; [22%Q]]) 0%nat 1%nat 0
                (CObs [22%Q])
                ltac:(compute_done) ltac:(by constructor) eq_refl eq_refl eq_refl).
  vm_compute in Hclaim. discriminate Hclaim.
Qed.

(** C4, counterexample.  The two stores differ in one reward, at step 1 of
    slot 1, whose episode has no step: the entry is past the episode end.
    Offset 1 of the window of slot 1 that starts at step 0 has the target
    value 0 on the first store and -1 on the second. *)
Lemma target_value_episode_end_counterexample :
  ~ target_value_blind_outside exact in_window_and_episode.
Proof.
  intros Hclaim.
  destruct (make_target (fl := exact) hp_b store_b1 [0; 0]) as [res1|] eqn:H1;
    [|by vm_compute in H1].
  destruct (make_target (fl := exact) hp_b store_b2 [0; 0]) as [res2|] eqn:H2;
    [|by vm_compute in H2].
  specialize (Hclaim hp_b store_b1 store_b2 [0; 0] res1 res2 1%nat H1 H2
                eq_refl eq_refl eq_refl).
  vm_compute in H1, H2. injection H1 as <-. injection H2 as <-.
  assert (Forall (in_range hp_b) [0; 0]) as Hrange.
  { repeat constructor; simpl; lia. }
  specialize (Hclaim Hrange ltac:(simpl; lia)).
  eassert (forall slot s t, _ -> _ -> _) as Hagree; [|specialize (Hclaim Hagree)].
  { intros slot s t Hs [[Hlo Hhi] (e & He & Hlt)]. simpl in Hlo, Hhi.
    destruct slot as [|[|slot]]; simpl in *; [| |done].
    - injection Hs as <-. injection He as <-. lia.
    - injection He as <-. lia. }
  specialize (Hclaim 1%nat _ _ 0%Q (-1)%Q eq_refl eq_refl eq_refl eq_refl).
  by vm_compute in Hclaim.
Qed.

(** C9, counterexample.  Recording the flags (true, false) and recording
    the flags (false, false) for one slot end in the same store, so no
    reading of the store returns the flag of step 0. *)
Lemma done_flag_overwritten_counterexample : ~ done_flag_kept_per_step.
Proof.
  intros (read & Hread).
  set (hp := hp_a).
  set (dT := [("dones", BoolT [true])]).
  set (dF := [("dones", BoolT [false])]).
  set (s0 := init hp).
  set (sT := with_episode_len (with_dones s0 [true]) [1]).
  set (sF := with_episode_len (with_dones s0 [false]) [1]).
  set (s2 := with_episode_len (with_dones s0 [false]) [2]).
  assert (forall st st' d v e b,
             append hp [0] d st = Ok st' -> d = [("dones", BoolT v)] ->
             shape_ok hp st -> episode_len st = [e] -> 0 <= e < 2 ^ 63 - 1 ->
             v = [b] ->
             read st' 0%nat (Z.to_nat e) = Some b /\
             (forall step, Z.of_nat step < e -> read st' 0%nat step = read st 0%nat step))
    as Hone.
  { intros st st' d v e b Happ -> Hshape He Hrange ->.
    apply (Hread hp [0] [("dones", BoolT [b])] st st' [0%nat] [b] 0%nat 0%nat e b);
      try done.
    - by rewrite He.
    - compute_done.
    - compute_done.
    - rewrite He. repeat constructor; lia.
    - by constructor.
    - by rewrite He. }
  destruct (Hone s0 sT dT [true] 0 true eq_refl eq_refl eq_refl eq_refl
              ltac:(lia) eq_refl) as [HT _].
  destruct (Hone s0 sF dF [false] 0 false eq_refl eq_refl eq_refl eq_refl
              ltac:(lia) eq_refl) as [HF _].
  destruct (Hone sT s2 dF [false] 1 false eq_refl eq_refl eq_refl eq_refl
              ltac:(lia) eq_refl) as [_ HT2].
  destruct (Hone sF s2 dF [false] 1 false eq_refl eq_refl eq_refl eq_refl
              ltac:(lia) eq_refl) as [_ HF2].
  specialize (HT2 0%nat ltac:(lia)). specialize (HF2 0%nat ltac:(lia)).
  change (Z.to_nat 0) with 0%nat in HT, HF. congruence.
Qed.

(** The second recorded step of the one-slot store: the reward 7 lands at
    step 1, the flag in the slot's cell, and [episode_len] becomes 2. *)
Lemma append_records_step_witness :
  field_at store_a2 "rewards" 0 1 = Some (CFloat 7) /\
  field_at store_a2 "children_visits" 0 1 = Some (CVec [3%Q; 4%Q]) /\
  CBool <$> dones store_a2 !! 0%nat = Some (CBool true) /\
  game_states store_a2 = (game_states store_a1 ++ [StateT [[12%Q]]])%list /\
  episode_len store_a2 !! 0%nat = Some 2.
Proof.
  destruct (append_records_step hp_a [0] dict_a2 store_a1 store_a2 [0%nat])
    as (Hstep & Hdone & Hgame & Hlen).
  - by vm_compute.
  - reflexivity.
  - compute_done.
  - compute_done.
  - by vm_compute.
  - repeat constructor; simpl; lia.
  - split; [|split; [|split; [|split]]].
    + apply (Hstep "rewards" (FloatT [7%Q]) 0%nat 0%nat 1 (CFloat 7));
        [compute_done|unfold dict_a2, step_dict; in_list|reflexivity|reflexivity|reflexivity].
    + apply (Hstep "children_visits" (FloatT2 [[3%Q; 4%Q]]) 0%nat 0%nat 1
               (CVec [3%Q; 4%Q]));
        [compute_done|unfold dict_a2, step_dict; in_list|reflexivity|reflexivity|reflexivity].
    + apply (Hdone (BoolT [true]) 0%nat 0%nat (CBool true));
        [unfold dict_a2, step_dict; in_list|reflexivity|reflexivity].
    + apply (Hgame (StateT [[12%Q]])). unfold dict_a2, step_dict. in_list.
    + apply (Hlen 0%nat 1). reflexivity.
Defined.

(** Reading the same window from the store before and after the late
    correction of step 1: offset 0 only looks at step 0. *)
Lemma target_value_window_witness :
  TrainElement.values (target_a store_a2 0) !! 0%nat
  = TrainElement.values (target_a store_a3 0) !! 0%nat.
Proof.
  apply (target_value_window (fl := exact) hp_a store_a2 store_a3 [0]
           [target_a store_a2 0] [target_a store_a3 0] 0 0 0).
  - by vm_compute.
  - by vm_compute.
  - by vm_compute.
  - by vm_compute.
  - reflexivity.
  - reflexivity.
  - reflexivity.
  - split; simpl; lia.
  - simpl. lia.
  - intros t Ht. unfold in_window in Ht. simpl in Ht.
    assert (t = 0%nat) as -> by lia. reflexivity.
  - reflexivity.
  - reflexivity.
Defined.

(** The late correction on the store with two steps: step 1 becomes -1,
    step 0 and the episode length stay. *)
Lemma update_last_reward_frame_witness :
  episode_len store_a3 = episode_len store_a2 /\
  cell2 (rewards store_a3) 0 0 = cell2 (rewards store_a2) 0 0 /\
  exists pos, last_pos store_a2 0 = Some pos /\
              cell2 (rewards store_a3) 0 pos = Some (-1)%Q.
Proof.
  destruct (update_last_reward_frame [0] [(-1)%Q] store_a2 store_a3 [0%nat])
    as ((Hlen & _) & Hframe & Hnew & _).
  - by vm_compute.
  - reflexivity.
  - split; [exact Hlen|]. split.
    + apply Hframe. intros [_ Hpos]. vm_compute in Hpos. discriminate Hpos.
    + apply (Hnew ltac:(compute_done) [(-1)%Q] 0%nat 0%nat (-1)%Q);
        reflexivity.
Defined.

(** The window of the two-step episode that starts at step 1. *)
Lemma make_target_sample_len_witness :
  TrainElement.sample_len (target_a store_a2 1)
  = Z.of_nat (steps_in_episode 1 2 (num_unroll_steps hp_a)) /\
  (2 <= 1 + Z.of_nat (num_unroll_steps hp_a) ->
   TrainElement.sample_len (target_a store_a2 1) < Z.of_nat (num_unroll_steps hp_a) + 1).
Proof.
  apply (make_target_sample_len (fl := exact) hp_a store_a2 [1] [target_a store_a2 1]
           0 1 2).
  - by vm_compute.
  - reflexivity.
  - split; simpl; lia.
  - reflexivity.
  - reflexivity.
Defined.

(** The exact arithmetic of the worked windows has the properties that
    one-step targets use. *)
Lemma exact_one_step_facts : one_step_facts exact.
Proof.
  assert (forall q : Q, (0 + q)%Q = q) as Hadd.
  { intros [a b]. unfold Qplus. simpl. by rewrite Z.mul_1_r. }
  assert (forall n, Qsum (replicate n 0%Q) = 0%Q) as Hzeros.
  { induction n as [|n IH]; simpl; [done|]. by rewrite IH. }
  split; simpl.
  - done.
  - intros d n Hd. change 1%Q with (Qred 1). apply Qred_complete.
    rewrite Hd. apply Qpower_1.
  - intros [a b]. unfold Qmult. simpl. by rewrite Z.mul_1_r, Pos.mul_1_r.
  - exact Hadd.
  - exact Hzeros.
  - intros n m q. induction n as [|n IH]; simpl.
    + rewrite Hzeros. destruct q as [a b]. unfold Qplus. simpl.
      by rewrite Z.mul_1_r, Z.add_0_r, Pos.mul_1_r.
    + by rewrite IH, Hadd.
Qed.

(** Offset 0 of the window that starts at step 0: root value 20 plus
    reward 5. *)
Lemma make_target_one_step_witness :
  TrainElement.values (target_a store_a2 0) !! 0%nat
  = Some (if 0 + Z.of_nat 0 + 1 <? 2
          then fadd (of_Q (root_value_at store_a2 0 (0 + Z.of_nat 0 + 1)))
                    (of_Q (reward_at store_a2 0 (0 + Z.of_nat 0)))
          else of_Q (reward_at store_a2 0 (0 + Z.of_nat 0))).
Proof.
  apply (make_target_one_step (fl := exact) hp_a store_a2 [0] [target_a store_a2 0]
           0 0 2).
  - exact exact_one_step_facts.
  - reflexivity.
  - reflexivity.
  - by vm_compute.
  - reflexivity.
  - split; simpl; lia.
  - reflexivity.
  - reflexivity.
  - simpl. lia.
Defined.

(** A dictionary with the key [bogus]. *)
Lemma append_unknown_field_witness :
  exists e, append hp_a [0] [("bogus", FloatT [1%Q])] (init hp_a) = Raise e.
Proof.
  apply (proj1 (append_unknown_field hp_a [0] [("bogus", FloatT [1%Q])] (init hp_a))).
  exists "bogus". split; compute_done.
Defined.

(** The second recorded step keeps step 0 and replaces the flag. *)
Lemma append_keeps_earlier_steps_witness :
  field_at store_a2 "rewards" 0 0 = field_at store_a1 "rewards" 0 0 /\
  field_at store_a2 "dones" 0 0 = Some (CBool true).
Proof.
  destruct (append_keeps_earlier_steps hp_a [0] dict_a2 store_a1 store_a2 [0%nat])
    as (Hkeep & Hdone & _).
  - by vm_compute.
  - reflexivity.
  - compute_done.
  - split.
    + apply (Hkeep "rewards" 0%nat 0%nat 1); [compute_done|reflexivity|lia].
    + apply (Hdone ltac:(compute_done) (BoolT [true]) 0%nat 0%nat (CBool true));
        [unfold dict_a2, step_dict; in_list|reflexivity|reflexivity].
Defined.

(** The late correction on a fresh store. *)
Lemma update_last_reward_empty_episode_witness :
  exists st',
    update_last_reward_and_values [0] [(-1)%Q] (init hp_a) = Ok st' /\
    (NoDup [0] ->
     forall m i v,
       [0] !! m = Some i -> episode_len (init hp_a) !! Z.to_nat i = Some 0 ->
       [(-1)%Q] !! m = Some v ->
       cell2 (rewards st') (Z.to_nat i) (max_episode_len hp_a - 1) = Some v).
Proof.
  apply (update_last_reward_empty_episode hp_a [0] [(-1)%Q] (init hp_a)).
  - by vm_compute.
  - simpl. lia.
  - simpl. lia.
  - repeat constructor; simpl; lia.
  - reflexivity.
  - intros i e Hi He. apply list_elem_of_singleton in Hi as ->.
    simpl in He. injection He as <-. simpl. lia.
Defined.

(** * Further properties *)

(** ** Windows: shapes, columns and failures *)

Section MoreWindows.

(** As before, for every structure [fl] of [float32] operations. *)
Context {fl : Float32}.

Lemma unroll_columns (hp : Hparams) (st : GameStats) (start_index : list Z)
  (weights : list (list f32)) (k : nat) (col : column) :
  unroll hp st start_index weights k = Ok col ->
  bcast_ok (max_episode_len hp) (td_steps hp) = true /\
  select_col (player_ids st) k = Ok (col_player_ids col) /\
  select_col (actions st) k = Ok (col_actions col) /\
  length (col_player_ids col) = length start_index /\
  length (col_actions col) = length start_index /\
  length (col_children_visits col) = length start_index /\
  Forall (fun v : list Q => length v = num_actions hp) (col_children_visits col).
Proof.
  unfold unroll. intros H. inv_ok. subst col. simpl.
  repeat match goal with
         | H : _ && _ = true |- _ => apply andb_prop in H as [? ?]
         | H : Nat.eqb _ _ = true |- _ => apply Nat.eqb_eq in H
         end.
  repeat split; try done.
  apply Forall_forall. intros v Hv.
    match goal with
    | H : forallb _ _ = true |- _ => rewrite forallb_forall in H; apply Nat.eqb_eq, H
    end.
    by apply list_elem_of_In.
Qed.

Lemma select_col_lookup {A} (t : list (list A)) (k : nat) (c : list A) (i : nat) :
  select_col t k = Ok c -> (i < length t)%nat ->
  c !! i = cell2 t i k /\ is_Some (c !! i).
Proof.
  unfold select_col. intros H Hi. apply or_raise_Ok, mapM_Some in H.
  destruct (lookup_lt_is_Some_2 t i Hi) as [row Hrow].
  destruct (Forall2_lookup_l _ _ _ _ _ H Hrow) as (x & Hx & Hrk).
  unfold cell2. rewrite Hrow, Hx. simpl. by rewrite Hrk.
Qed.

Lemma make_target_columns_of (hp : Hparams) (st : GameStats) (start_index : list Z)
  (res : list TrainElement.t) (i : nat) (el : TrainElement.t) :
  make_target hp st start_index = Ok res ->
  res !! i = Some el ->
  exists s o cols,
    start_index !! i = Some s /\
    el = element hp cols i s o /\
    length cols = S (num_unroll_steps hp) /\
    forall k col,
      cols !! k = Some col ->
      unroll hp st start_index (discount_mult hp (length start_index)) k = Ok col.
Proof.
  intros H Hel.
  destruct (make_target_element _ _ _ _ _ _ H Hel) as (s & o & cols & Hs & Hcols & ->).
  exists s, o, cols. split; [done|]. split; [done|]. split.
  - apply Forall2_length in Hcols. by rewrite length_seq in Hcols.
  - intros k col Hcol.
    destruct (Forall2_lookup_r _ _ _ _ _ Hcols Hcol) as (k' & Hk' & Hun).
    apply lookup_seq in Hk' as [-> _]. done.
Qed.

(** X1. Every window that [make_target] returns has the shape the sampler
    and the trainer rely on: one window per start index, carrying that
    start index, [num_unroll_steps + 1] values, rewards, actions and player
    ids, and [num_actions] rows of [num_unroll_steps + 1] visit counts. *)
Theorem make_target_shape_contract (hp : Hparams) (st : GameStats)
  (start_index : list Z) (res : list TrainElement.t) (i : nat) (el : TrainElement.t) :
  make_target hp st start_index = Ok res ->
  res !! i = Some el ->
  length res = length start_index /\
  start_index !! i = Some (TrainElement.start_index el) /\
  length (TrainElement.values el) = S (num_unroll_steps hp) /\
  length (TrainElement.rewards el) = S (num_unroll_steps hp) /\
  length (TrainElement.actions el) = S (num_unroll_steps hp) /\
  length (TrainElement.player_ids el) = S (num_unroll_steps hp) /\
  length (TrainElement.children_visits el) = num_actions hp /\
  Forall (fun row : list Q => length row = S (num_unroll_steps hp))
         (TrainElement.children_visits el).
Proof.
  intros H Hel. split; [by eapply make_target_length|].
  destruct (make_target_columns_of _ _ _ _ _ _ H Hel)
    as (s & o & cols & Hs & -> & Hlen & _).
  simpl. rewrite !length_map, length_seq, Hlen. repeat split; try done.
  apply Forall_forall. intros row Hrow. apply list_elem_of_fmap in Hrow as (a & -> & _).
  by rewrite length_map.
Qed.

(** X2. The reward, the action, the player id and the visit counts that a
    returned window carries at offset [k] are the entries the store holds
    at absolute step [k] of the slot, whatever the start index of the
    window. *)
Theorem make_target_leading_columns (hp : Hparams) (st : GameStats)
  (start_index : list Z) (res : list TrainElement.t) (i : nat) (el : TrainElement.t)
  (k : nat) :
  make_target hp st start_index = Ok res ->
  res !! i = Some el -> (k <= num_unroll_steps hp)%nat ->
  TrainElement.rewards el !! k = cell2 (rewards st) i k /\
  TrainElement.actions el !! k = cell2 (actions st) i k /\
  TrainElement.player_ids el !! k = cell2 (player_ids st) i k /\
  (forall a, (a < num_actions hp)%nat ->
             TrainElement.children_visits el !! a ≫= (fun row => row !! k)
             = cell3 (children_visits st) i a k).
Proof.
  intros H Hel Hk.
  destruct (make_target_columns_of _ _ _ _ _ _ H Hel)
    as (s & o & cols & Hs & -> & Hlen & Hcols).
  destruct (lookup_lt_is_Some_2 cols k) as [col Hcol]; [lia|].
  specialize (Hcols k col Hcol).
  destruct (unroll_columns _ _ _ _ _ _ Hcols) as (_ & Hp & Ha & Hpl & Hal & Hvl & Hvs).
  apply unroll_inv in Hcols
    as (Hle & Hlr & _ & _ & _ & _ & _ & _ & _ & _ & Hr & Hv).
  assert (i < length start_index)%nat as Hi by (by eapply lookup_lt_Some).
  simpl. rewrite !list_lookup_fmap, Hcol. simpl.
  assert (forall (A : Type) (t : list (list A)) (c : list A) (d : A),
             select_col t k = Ok c -> length c = length start_index ->
             Some (nth i c d) = cell2 t i k) as Hsel.
  { intros A t c d Hc Hlc.
    assert (i < length t)%nat as Hit.
    { unfold select_col in Hc. apply or_raise_Ok, mapM_Some, Forall2_length in Hc. lia. }
    destruct (select_col_lookup t k c i Hc Hit) as [Heq [x Hx]].
    rewrite <- Heq, Hx. f_equal. by apply nth_lookup_Some with (d := d). }
  assert (length (col_rewards col) = length start_index) as Hrl.
  { unfold select_col in Hr. apply or_raise_Ok, mapM_Some, Forall2_length in Hr. lia. }
  split; [by apply Hsel|]. split; [by apply Hsel|]. split; [by apply Hsel|].
  intros a Ha'. rewrite list_lookup_fmap, lookup_seq_lt by done. simpl.
  rewrite list_lookup_fmap, Hcol. simpl.
  apply mapM_Some in Hv.
  destruct (lookup_lt_is_Some_2 (col_children_visits col) i) as [v Hvi]; [lia|].
  destruct (Forall2_lookup_r _ _ _ _ _ Hv Hvi) as (plane & Hplane & Hpv).
  rewrite Forall_forall in Hvs.
  assert (length v = num_actions hp) as Hvlen.
  { apply Hvs. by eapply list_elem_of_lookup_2. }
  destruct (lookup_lt_is_Some_2 v a) as [x Hx]; [lia|].
  apply mapM_Some in Hpv.
  destruct (Forall2_lookup_r _ _ _ _ _ Hpv Hx) as (row & Hrow & Hrk).
  unfold cell3, cell2. rewrite Hplane. simpl. rewrite Hrow. simpl. rewrite Hrk.
  f_equal. apply nth_lookup_Some with (d := 0%Q).
  by rewrite (nth_lookup_Some _ _ [] _ Hvi).
Qed.
Lemma make_target_observation (hp : Hparams) (st : GameStats) (start_index : list Z)
  (res : list TrainElement.t) (i : nat) (el : TrainElement.t) :
  make_target hp st start_index = Ok res ->
  res !! i = Some el ->
  initial_state st i (TrainElement.start_index el)
  = Ok (TrainElement.initial_game_state el).
Proof.
  intros H Hel. apply make_target_inv in H as (obs & cols & Hobs & _ & ->).
  rewrite list_lookup_imap in Hel.
  destruct (zip start_index obs !! i) as [[s o]|] eqn:Hz; simpl in Hel; [|done].
  injection Hel as <-. apply lookup_zip_with_Some in Hz as (s' & o' & [= <- <-] & Hs & Ho).
  assert (zip (seq 0 (length start_index)) start_index !! i = Some (i, s)) as Hzi.
  { apply lookup_zip_with_Some. exists i, s. split; [done|]. split; [|done].
    apply lookup_seq. split; [done|]. by eapply lookup_lt_Some. }
  destruct (mapR_lookup _ _ _ _ _ Hobs Hzi) as (o' & Ho' & Hinit).
  simpl in *. congruence.
Qed.

(** X3. The observation of a returned window is the row of its slot in
    the capture that its start index names in [game_states] (counting from
    the end when negative): a start index with no capture makes the call
    raise. *)
Theorem make_target_initial_state (hp : Hparams) (st : GameStats)
  (start_index : list Z) (res : list TrainElement.t) (i : nat) (el : TrainElement.t) :
  make_target hp st start_index = Ok res ->
  res !! i = Some el ->
  exists p v,
    py_index (length (game_states st)) (TrainElement.start_index el) = Some p /\
    game_states st !! p = Some (StateT v) /\
    v !! i = Some (TrainElement.initial_game_state el).
Proof.
  intros H Hel. pose proof (make_target_observation _ _ _ _ _ _ H Hel) as Hinit.
  unfold initial_state in Hinit. inv_ok. rename a into p, a0 into g.
  destruct g as [| | | |v]; try done. apply or_raise_Ok in Hinit.
  by exists p, v.
Qed.

(** X4. Round trip of an observation: when an [append] that carries a
    whole-batch capture under [game_states] has succeeded, a window of the
    new store that starts at the number of captures recorded before that
    call gets the row of its slot in that capture. *)
Theorem appended_capture_read_back (hp : Hparams) (index : list Z)
  (dict : list (string * tensor)) (st st' : GameStats) (v : list observation)
  (start_index : list Z) (res : list TrainElement.t) (i : nat) (el : TrainElement.t) :
  append hp index dict st = Ok st' ->
  NoDup dict.*1 ->
  ("game_states", StateT v) ∈ dict ->
  make_target hp st' start_index = Ok res ->
  res !! i = Some el ->
  TrainElement.start_index el = Z.of_nat (length (game_states st)) ->
  v !! i = Some (TrainElement.initial_game_state el).
Proof.
  intros Happ Hkeys Hin H Hel Hs.
  apply append_inv in Happ as (idx & elen & s1 & _ & _ & Hfold & _ & Hst).
  destruct (foldR_game_states _ _ _ _ _ _ Hfold Hkeys) as [_ Hg].
  specialize (Hg _ Hin). injection Hg as Hg.
  destruct (make_target_initial_state _ _ _ _ _ _ H Hel) as (p & v' & Hp & Hv' & Hobs).
  rewrite Hst in Hp, Hv'. simpl in Hp, Hv'. rewrite <- Hg in Hp, Hv'.
  rewrite Hs, length_app in Hp. simpl in Hp.
  rewrite py_index_nonneg in Hp by lia. injection Hp as <-.
  rewrite Nat2Z.id, lookup_app_r, Nat.sub_diag in Hv' by done.
  simpl in Hv'. by injection Hv' as <-.
Qed.

Lemma bootstrap_values_uniform (hp : Hparams) (st : GameStats) (bidx : list Z)
  (mask : list bool) (bvals : list f32) (i j : nat) (mi mj : bool) :
  bootstrap_values hp st bidx mask = Ok bvals ->
  length mask = length bidx ->
  mask !! i = Some mi -> mask !! j = Some mj -> mi = mj.
Proof.
  unfold bootstrap_values. intros H Hlen Hi Hj.
  destruct (existsb id mask) eqn:Hany.
  - destruct (Nat.eqb _ (length bidx)) eqn:Hall.
    + apply Nat.eqb_eq in Hall. rewrite <- Hlen in Hall.
      destruct (mask_all 0 mask Hall) as [_ Htrue]. rewrite Forall_forall in Htrue.
      rewrite (Htrue mi), (Htrue mj); [done| |]; by eapply list_elem_of_lookup_2.
    + destruct (omap _ _) as [|v [|]]; try done.
      destruct (or_raise IndexError _); done.
  - by rewrite (existsb_id_false _ _ _ Hany Hi), (existsb_id_false _ _ _ Hany Hj).
Qed.

Lemma make_target_unroll (hp : Hparams) (st : GameStats) (start_index : list Z)
  (res : list TrainElement.t) (k : nat) :
  make_target hp st start_index = Ok res ->
  (k <= num_unroll_steps hp)%nat ->
  exists col,
    unroll hp st start_index (discount_mult hp (length start_index)) k = Ok col.
Proof.
  intros H Hk. apply make_target_inv in H as (obs & cols & _ & Hcols & _).
  assert (seq 0 (S (num_unroll_steps hp)) !! k = Some k) as Hseq.
  { apply lookup_seq. split; [done|lia]. }
  destruct (mapR_lookup _ _ _ _ _ Hcols Hseq) as (col & _ & Hun). by exists col.
Qed.

(** X5. A call only returns when, at every offset, the bootstrap index is
    inside the episode for all slots of the batch or for none: a batch
    that mixes a slot whose bootstrap index is inside its episode with one
    whose index is not makes [make_target] raise. *)
Theorem make_target_bootstrap_all_or_none (hp : Hparams) (st : GameStats)
  (start_index : list Z) (res : list TrainElement.t)
  (i j : nat) (si sj ei ej : Z) (k : nat) :
  make_target hp st start_index = Ok res ->
  start_index !! i = Some si -> start_index !! j = Some sj ->
  in_range hp si -> in_range hp sj ->
  episode_len st !! i = Some ei -> episode_len st !! j = Some ej ->
  (k <= num_unroll_steps hp)%nat ->
  (si + Z.of_nat k + Z.of_nat (td_steps hp) < ei
   <-> sj + Z.of_nat k + Z.of_nat (td_steps hp) < ej).
Proof.
  intros H Hi Hj [Hi0 Hi63] [Hj0 Hj63] Hei Hej Hk.
  destruct (make_target_unroll _ _ _ _ _ H Hk) as (col & Hun).
  apply unroll_inv in Hun as (Hlen & _ & bvals & _ & _ & Hb & _).
  assert (forall n s e, start_index !! n = Some s -> episode_len st !! n = Some e ->
                        0 <= s ->
                        s + Z.of_nat (num_unroll_steps hp) + Z.of_nat (td_steps hp) + 1
                        < 2 ^ 63 ->
                        zip_with Z.ltb (boot_index hp start_index k) (episode_len st) !! n
                        = Some (s + Z.of_nat k + Z.of_nat (td_steps hp) <? e)) as Hmask.
  { intros n s e Hs He Hs0 Hs63. unfold boot_index, unroll_index.
    rewrite lookup_zip_with, !list_lookup_fmap, Hs, He. simpl.
    by rewrite !add64_small by (rewrite ?add64_small; lia). }
  assert (length (zip_with Z.ltb (boot_index hp start_index k) (episode_len st))
          = length (boot_index hp start_index k)) as Hml.
  { rewrite length_zip_with_l_eq; [done|].
    unfold boot_index, unroll_index. by rewrite !length_fmap. }
  pose proof (bootstrap_values_uniform _ _ _ _ _ i j _ _ Hb Hml
                (Hmask _ _ _ Hi Hei Hi0 Hi63) (Hmask _ _ _ Hj Hej Hj0 Hj63)) as Heq.
  rewrite <- !Z.ltb_lt. by rewrite Heq.
Qed.

(** X6. What a call that returns on a non-empty batch needs from the
    hyperparameters: the rewards of shape [(batch, max_episode_len)] are
    multiplied with weights of shape [(batch, td_steps)], so [td_steps] is
    [max_episode_len] or 1 (or the buffer has one step); and the columns
    [0 .. num_unroll_steps] of the store are read, so [num_unroll_steps] is
    below [max_episode_len]. *)
Theorem make_target_returns_only_if (hp : Hparams) (st : GameStats)
  (start_index : list Z) (res : list TrainElement.t) :
  make_target hp st start_index = Ok res ->
  shape_ok hp st -> start_index <> [] ->
  (td_steps hp = max_episode_len hp \/ td_steps hp = 1%nat \/ max_episode_len hp = 1%nat)
  /\ (num_unroll_steps hp < max_episode_len hp)%nat.
Proof.
  intros H Hshape Hne.
  destruct (make_target_unroll _ _ _ _ (num_unroll_steps hp) H) as (col & Hun);
    [done|].
  destruct (unroll_columns _ _ _ _ _ _ Hun) as (Hb & _).
  apply unroll_inv in Hun as (_ & Hlr & _ & _ & _ & _ & _ & _ & _ & _ & Hsel & _).
  split.
  - unfold bcast_ok in Hb. apply orb_prop in Hb as [Hb|Hb].
    + apply orb_prop in Hb as [Hb|Hb]; apply Nat.eqb_eq in Hb; auto.
    + apply Nat.eqb_eq in Hb. auto.
  - apply shape_ok_inv in Hshape as (_ & Hrect & _).
    apply rect2_inv in Hrect as [_ Hrows].
    destruct (lookup_lt_is_Some_2 (rewards st) 0) as [row Hrow].
    { rewrite <- Hlr. destruct start_index; [done|simpl; lia]. }
    unfold select_col in Hsel. apply or_raise_Ok, mapM_Some in Hsel.
    destruct (Forall2_lookup_l _ _ _ _ _ Hsel Hrow) as (x & _ & Hx).
    apply lookup_lt_Some in Hx. by rewrite (Hrows _ _ Hrow) in Hx.
Qed.

(** X7. One-step targets with any discount: with [td_steps = 1] the
    returned target value at offset [k] is, when step [start + k + 1] is
    inside the episode, the root value stored there times
    [value_discount ** 1], plus the reward stored at step [start + k]; and
    that reward alone otherwise.  The product and the sum are the
    [float32] operations of lines 181 and 192. *)
Theorem make_target_one_step_discounted (hp : Hparams) (st : GameStats)
  (start_index : list Z) (res : list TrainElement.t) (i : nat) (s e : Z)
  (el : TrainElement.t) (k : nat) :
  one_step_facts fl ->
  td_steps hp = 1%nat ->
  make_target hp st start_index = Ok res ->
  start_index !! i = Some s -> in_range hp s ->
  episode_len st !! i = Some e ->
  res !! i = Some el -> (k <= num_unroll_steps hp)%nat ->
  TrainElement.values el !! k
  = Some (if s + Z.of_nat k + 1 <? e
          then fadd (fmul (of_Q (root_value_at st i (s + Z.of_nat k + 1)))
                          (last_discount (value_discount hp) 1))
                    (of_Q (reward_at st i (s + Z.of_nat k)))
          else of_Q (reward_at st i (s + Z.of_nat k))).
Proof.
  intros Hfl Htd H Hs [Hs0 Hs63] He Hel Hk.
  destruct (make_target_value _ _ _ _ _ _ _ H Hel Hk) as (col & Hun & Hv & _).
  destruct (unroll_value _ _ _ _ _ _ _ Hun Hs)
    as (e' & row & b & disc & d & He' & Hrow & Hb & Hroll & Hmul & Hnth).
  assert (e' = e) as -> by congruence.
  rewrite Htd in *. rewrite !add64_small in * by (rewrite ?add64_small; lia).
  change (Z.of_nat 1) with 1 in *.
  assert (0 <= s + Z.of_nat k) as Hlo by lia.
  assert (fsum d = of_Q (reward_at st i (s + Z.of_nat k))) as Hsum.
  { rewrite (one_step_window _ _ _ _ _ Hfl Hlo Hroll Hmul).
    unfold reward_at, cell2. destruct (Z.leb_spec 0 (s + Z.of_nat k)); [|lia].
    by rewrite Hrow. }
  rewrite Hv, Hnth, Hsum. f_equal.
  destruct (s + Z.of_nat k + 1 <? e).
  - destruct Hb as (r & Hr & ->).
    assert (0 <= s + Z.of_nat k + 1) as Hhi by lia.
    by rewrite (root_read_at _ _ _ _ Hhi Hr).
  - rewrite Hb. apply (fadd_zero fl Hfl).
Qed.

(** ** Full-length windows *)

Lemma roll_row_lookup {A} (w disc : list A) (shift : Z) (c : nat) :
  roll_row w shift = Some disc -> (c < length w)%nat ->
  disc !! c = w !! Z.to_nat ((Z.of_nat c - shift) mod Z.of_nat (length w)).
Proof.
  unfold roll_row. intros H Hc. apply mapM_Some in H.
  assert (seq 0 (length w) !! c = Some c) as Hseq by (by apply lookup_seq).
  destruct (Forall2_lookup_l _ _ _ _ _ H Hseq) as (x & Hx & Hw). congruence.
Qed.

Lemma roll_row_length {A} (w disc : list A) (shift : Z) :
  roll_row w shift = Some disc -> length disc = length w.
Proof.
  unfold roll_row. intros H. apply mapM_Some, Forall2_length in H.
  by rewrite length_seq in H.
Qed.

Lemma logspace_lookup (steps : nat) (base : Q) (j : nat) :
  (j < steps)%nat ->
  logspace_0_1 steps base !! j = Some (logspace_entry steps base j).
Proof.
  intros Hj. unfold logspace_0_1. by rewrite list_lookup_fmap, lookup_seq_lt.
Qed.

(** X8. Full-length returns: when [td_steps] equals [max_episode_len] and
    the episode fits the buffer, the returned target value at offset [k]
    has no bootstrap term: it is the sum, added to 0, of one product per
    step [t] of the buffer.  The reward stored at step [start + k + j]
    is multiplied with weight [j] of [logspace(0, 1, td_steps)], and the
    steps before the window enter as a product of 0: the roll of the
    weights aligns weight 0 with the start of the window. *)
Theorem make_target_full_window (hp : Hparams) (st : GameStats)
  (start_index : list Z) (res : list TrainElement.t) (i : nat) (s e : Z)
  (el : TrainElement.t) (k : nat) :
  td_steps hp = max_episode_len hp -> shape_ok hp st ->
  make_target hp st start_index = Ok res ->
  start_index !! i = Some s -> in_range hp s ->
  episode_len st !! i = Some e -> e <= Z.of_nat (max_episode_len hp) ->
  res !! i = Some el -> (k <= num_unroll_steps hp)%nat ->
  exists d,
    TrainElement.values el !! k = Some (fadd (of_Q 0) (fsum d)) /\
    length d = max_episode_len hp /\
    (forall j,
        (Z.to_nat (s + Z.of_nat k) + j < max_episode_len hp)%nat ->
        d !! (Z.to_nat (s + Z.of_nat k) + j)%nat
        = Some (fmul (of_Q (reward_at st i (s + Z.of_nat k + Z.of_nat j)))
                     (logspace_entry (td_steps hp) (value_discount hp) j))) /\
    (forall t,
        (t < Z.to_nat (s + Z.of_nat k))%nat -> (t < max_episode_len hp)%nat ->
        exists w, d !! t = Some (fmul (of_Q 0) w)).
Proof.
  intros Htd Hshape H Hs [Hs0 Hs63] He HeL Hel Hk.
  destruct (make_target_value _ _ _ _ _ _ _ H Hel Hk) as (col & Hun & Hv & _).
  destruct (unroll_value _ _ _ _ _ _ _ Hun Hs)
    as (e' & row & b & disc & d & He' & Hrow & Hb & Hroll & Hmul & Hnth).
  assert (e' = e) as -> by congruence.
  rewrite !add64_small in * by (rewrite ?add64_small; lia).
  apply shape_ok_inv in Hshape as (_ & Hrect & _).
  apply rect2_inv in Hrect as [_ Hrows]. specialize (Hrows _ _ Hrow).
  destruct (Z.ltb_spec (s + Z.of_nat k + Z.of_nat (td_steps hp)) e); [lia|].
  subst b. set (lo := s + Z.of_nat k) in *. set (L := max_episode_len hp) in *.
  set (w := logspace_0_1 (td_steps hp) (value_discount hp)) in *.
  assert (length w = L) as Hwl.
  { unfold w, logspace_0_1. by rewrite length_map, length_seq. }
  pose proof (roll_row_length _ _ _ Hroll) as Hdl.
  assert (d = zip_with fmul (of_Q <$> mask_window row lo (lo + Z.of_nat (td_steps hp)))
                       disc) as ->.
  { unfold mul_bcast in Hmul.
    rewrite length_fmap, mask_window_length, Hdl, Hwl, Hrows, Nat.eqb_refl in Hmul.
    by injection Hmul as <-. }
  assert (forall t, (t < L)%nat ->
                    exists x, row !! t = Some x /\
                    zip_with fmul (of_Q <$> mask_window row lo (lo + Z.of_nat (td_steps hp)))
                             disc !! t
                    = Some (fmul (of_Q (if Z.of_nat t <? lo then 0%Q else x))
                                 (logspace_entry (td_steps hp) (value_discount hp)
                                    (Z.to_nat ((Z.of_nat t - lo) mod Z.of_nat L)))))
    as Hcell.
  { intros t Ht. destruct (lookup_lt_is_Some_2 row t) as [x Hx]; [lia|].
    exists x. split; [done|].
    rewrite lookup_zip_with, list_lookup_fmap, mask_window_lookup, Hx. simpl.
    rewrite (roll_row_lookup _ _ _ _ Hroll) by lia. rewrite Hwl.
    pose proof (Z.mod_pos_bound (Z.of_nat t - lo) (Z.of_nat L)) as Hb.
    unfold w. rewrite logspace_lookup by lia. simpl.
    destruct (Z.leb_spec (lo + Z.of_nat (td_steps hp)) (Z.of_nat t)); [lia|]. done. }
  exists (zip_with fmul (of_Q <$> mask_window row lo (lo + Z.of_nat (td_steps hp))) disc).
  split; [by rewrite Hv, Hnth|]. split.
  { rewrite length_zip_with, length_fmap, mask_window_length, Hdl, Hwl, Hrows. lia. }
  split.
  - intros j Hj. destruct (Hcell _ Hj) as (x & Hx & ->). f_equal.
    destruct (Z.ltb_spec (Z.of_nat (Z.to_nat lo + j)) lo); [lia|].
    f_equal.
    + f_equal. unfold reward_at, cell2.
      destruct (Z.leb_spec 0 (lo + Z.of_nat j)); [|lia]. rewrite Hrow. simpl.
      replace (Z.to_nat (lo + Z.of_nat j)) with (Z.to_nat lo + j)%nat by lia.
      by rewrite Hx.
    + f_equal. rewrite Z.mod_small by lia. lia.
  - intros t Ht HtL. destruct (Hcell _ HtL) as (x & Hx & ->).
    destruct (Z.ltb_spec (Z.of_nat t) lo); [|lia]. by eexists.
Qed.

End MoreWindows.

(** ** Worked windows for the further properties *)

(** The window of the two-step store that starts at step 1. *)
Lemma make_target_shape_contract_witness :
  length [target_a store_a2 1] = length [1] /\
  [1] !! 0%nat = Some (TrainElement.start_index (target_a store_a2 1)) /\
  length (TrainElement.values (target_a store_a2 1)) = S (num_unroll_steps hp_a) /\
  length (TrainElement.rewards (target_a store_a2 1)) = S (num_unroll_steps hp_a) /\
  length (TrainElement.actions (target_a store_a2 1)) = S (num_unroll_steps hp_a) /\
  length (TrainElement.player_ids (target_a store_a2 1)) = S (num_unroll_steps hp_a) /\
  length (TrainElement.children_visits (target_a store_a2 1)) = num_actions hp_a /\
  Forall (fun row : list Q => length row = S (num_unroll_steps hp_a))
         (TrainElement.children_visits (target_a store_a2 1)).
Proof.
  apply (make_target_shape_contract hp_a store_a2 [1] [target_a store_a2 1] 0).
  - by vm_compute.
  - reflexivity.
Defined.

(** Offset 0 of the window that starts at step 1 carries the entries of
    step 0. *)
Lemma make_target_leading_columns_witness :
  TrainElement.rewards (target_a store_a2 1) !! 0%nat = cell2 (rewards store_a2) 0 0 /\
  TrainElement.actions (target_a store_a2 1) !! 0%nat = cell2 (actions store_a2) 0 0 /\
  TrainElement.player_ids (target_a store_a2 1) !! 0%nat
  = cell2 (player_ids store_a2) 0 0 /\
  (forall a, (a < num_actions hp_a)%nat ->
             TrainElement.children_visits (target_a store_a2 1) !! a
               ≫= (fun row => row !! 0%nat)
             = cell3 (children_visits store_a2) 0 a 0).
Proof.
  apply (make_target_leading_columns hp_a store_a2 [1] [target_a store_a2 1] 0).
  - by vm_compute.
  - reflexivity.
  - simpl. lia.
Defined.

(** The window that starts at step 1 gets the second capture. *)
Lemma make_target_initial_state_witness :
  exists p v,
    py_index (length (game_states store_a2))
             (TrainElement.start_index (target_a store_a2 1)) = Some p /\
    game_states store_a2 !! p = Some (StateT v) /\
    v !! 0%nat = Some (TrainElement.initial_game_state (target_a store_a2 1)).
Proof.
  apply (make_target_initial_state hp_a store_a2 [1] [target_a store_a2 1] 0).
  - by vm_compute.
  - reflexivity.
Defined.

(** The capture of the second recorded step, read back by the window that
    starts at step 1. *)
Lemma appended_capture_read_back_witness :
  [[12%Q]] !! 0%nat = Some (TrainElement.initial_game_state (target_a store_a2 1)).
Proof.
  apply (appended_capture_read_back hp_a [0] dict_a2 store_a1 store_a2 [[12%Q]]
           [1] [target_a store_a2 1] 0 (target_a store_a2 1)).
  - by vm_compute.
  - compute_done.
  - unfold dict_a2, step_dict. in_list.
  - by vm_compute.
  - reflexivity.
  - reflexivity.
Defined.

(** Two slots with episodes of 2 steps and 1 step, read from step 1 and
    from step 0: the bootstrap index is past the end of both. *)
Lemma make_target_bootstrap_all_or_none_witness :
  1 + Z.of_nat 0 + Z.of_nat (td_steps hp_d) < 2
  <-> 0 + Z.of_nat 0 + Z.of_nat (td_steps hp_d) < 1.
Proof.
  apply (make_target_bootstrap_all_or_none hp_d store_d [1; 0] targets_d
           0 1 1 0 2 1 0).
  - by vm_compute.
  - reflexivity.
  - reflexivity.
  - split; simpl; lia.
  - split; simpl; lia.
  - reflexivity.
  - reflexivity.
  - simpl. lia.
Defined.

(** The one-slot store with one-step targets. *)
Lemma make_target_returns_only_if_witness :
  (td_steps hp_a = max_episode_len hp_a \/ td_steps hp_a = 1%nat
   \/ max_episode_len hp_a = 1%nat)
  /\ (num_unroll_steps hp_a < max_episode_len hp_a)%nat.
Proof.
  apply (make_target_returns_only_if hp_a store_a2 [0] [target_a store_a2 0]).
  - by vm_compute.
  - reflexivity.
  - discriminate.
Defined.

(** Offset 0 of the window that starts at step 0 of the two-step store. *)
Lemma make_target_one_step_discounted_witness :
  TrainElement.values (target_a store_a2 0) !! 0%nat
  = Some (if 0 + Z.of_nat 0 + 1 <? 2
          then fadd (fmul (of_Q (root_value_at store_a2 0 (0 + Z.of_nat 0 + 1)))
                          (last_discount (value_discount hp_a) 1))
                    (of_Q (reward_at store_a2 0 (0 + Z.of_nat 0)))
          else of_Q (reward_at store_a2 0 (0 + Z.of_nat 0))).
Proof.
  apply (make_target_one_step_discounted (fl := exact) hp_a store_a2 [0]
           [target_a store_a2 0] 0 0 2).
  - exact exact_one_step_facts.
  - reflexivity.
  - by vm_compute.
  - reflexivity.
  - split; simpl; lia.
  - reflexivity.
  - reflexivity.
  - simpl. lia.
Defined.

(** Three steps of reward 1 with discount 1/4 and [td_steps = 3]. *)
Lemma make_target_full_window_witness :
  exists d : list (@f32 exact),
    TrainElement.values target_c !! 0%nat = Some (fadd (of_Q 0) (fsum d)) /\
    length d = max_episode_len hp_c /\
    (forall j,
        (Z.to_nat (0 + Z.of_nat 0) + j < max_episode_len hp_c)%nat ->
        d !! (Z.to_nat (0 + Z.of_nat 0) + j)%nat
        = Some (fmul (of_Q (reward_at store_c 0 (0 + Z.of_nat 0 + Z.of_nat j)))
                     (logspace_entry (td_steps hp_c) (value_discount hp_c) j))) /\
    (forall t,
        (t < Z.to_nat (0 + Z.of_nat 0))%nat -> (t < max_episode_len hp_c)%nat ->
        exists w, d !! t = Some (fmul (of_Q 0) w)).
Proof.
  apply (make_target_full_window (fl := exact) hp_c store_c [0] [target_c] 0 0 3
           target_c 0).
  - reflexivity.
  - reflexivity.
  - by vm_compute.
  - reflexivity.
  - split; simpl; lia.
  - reflexivity.
  - simpl. lia.
  - reflexivity.
  - simpl. lia.
Defined.

(** ** Rolling rows: [roll_by_gather] *)

Lemma roll_row_total (row : list Q) (shift : Z) : is_Some (roll_row row shift).
Proof.
  unfold roll_row. apply mapM_is_Some, Forall_forall. intros c Hc.
  apply elem_of_seq in Hc. apply lookup_lt_is_Some_2.
  pose proof (Z.mod_pos_bound (Z.of_nat c - shift) (Z.of_nat (length row))). lia.
Qed.

Lemma roll_by_gather_rows (mat : list (list Q)) (shifts : list Z)
  (out : list (list Q)) :
  roll_by_gather mat 1 shifts = Some out <->
  Forall2 (fun p o => roll_row p.1 p.2 = Some o) (zip mat shifts) out.
Proof.
  unfold roll_by_gather. rewrite mapM_Some. split.
  - intros H. eapply Forall2_impl; [exact H|]. by intros [row s] o.
  - intros H. eapply Forall2_impl; [exact H|]. by intros [row s] o.
Qed.

Lemma roll_by_gather_total (mat : list (list Q)) (shifts : list Z) :
  is_Some (roll_by_gather mat 1 shifts).
Proof.
  unfold roll_by_gather. apply mapM_is_Some, Forall_forall.
  intros [row s] _. apply roll_row_total.
Qed.

Lemma roll_row_ext (row o : list Q) (shift : Z) :
  length o = length row ->
  (forall c, (c < length row)%nat ->
             o !! c = row !! Z.to_nat ((Z.of_nat c - shift) mod Z.of_nat (length row))) ->
  roll_row row shift = Some o.
Proof.
  intros Hlen Hc. destruct (roll_row_total row shift) as [o' Ho'].
  rewrite Ho'. f_equal. apply list_eq. intros c.
  destruct (decide (c < length row)%nat) as [Hlt|Hge].
  - by rewrite (roll_row_lookup _ _ _ _ Ho' Hlt), Hc.
  - rewrite !lookup_ge_None_2; [done|lia|].
    rewrite (roll_row_length _ _ _ Ho'). lia.
Qed.

Lemma roll_row_compose (row o1 o2 : list Q) (s t : Z) :
  roll_row row s = Some o1 -> roll_row o1 t = Some o2 ->
  roll_row row (s + t) = Some o2.
Proof.
  intros H1 H2. pose proof (roll_row_length _ _ _ H1) as L1.
  pose proof (roll_row_length _ _ _ H2) as L2.
  apply roll_row_ext; [congruence|]. intros c Hc.
  rewrite (roll_row_lookup _ _ _ _ H2) by lia. rewrite L1.
  pose proof (Z.mod_pos_bound (Z.of_nat c - t) (Z.of_nat (length row))) as Hb.
  rewrite (roll_row_lookup _ _ _ _ H1) by lia.
  rewrite Z2Nat.id by lia. rewrite Zminus_mod_idemp_l.
  do 3 f_equal. lia.
Qed.

Lemma roll_row_multiple (row : list Q) (shift : Z) :
  shift mod Z.of_nat (length row) = 0 -> roll_row row shift = Some row.
Proof.
  intros Hs. apply roll_row_ext; [done|]. intros c Hc. f_equal.
  rewrite Zminus_mod, Hs, Z.sub_0_r, Z.mod_mod by lia.
  rewrite Z.mod_small by lia. lia.
Qed.

(** X9. [roll_by_gather(mat, 1, shifts)] with one shift per row always
    returns a matrix of the shape of [mat], and it rotates every row to
    the right by the shift of the row: the entry of column [c] is found at
    column [(c + shift) mod n_cols]. *)
Theorem roll_by_gather_rotates (mat : list (list Q)) (shifts : list Z) :
  shifts_fit mat shifts ->
  exists out,
    roll_by_gather mat 1 shifts = Some out /\
    length out = length mat /\
    forall i row shift,
      mat !! i = Some row -> shifts !! i = Some shift ->
      exists o,
        out !! i = Some o /\ length o = length row /\
        forall c x,
          row !! c = Some x ->
          o !! Z.to_nat ((Z.of_nat c + shift) mod Z.of_nat (length row)) = Some x.
Proof.
  intros Hfit. apply Forall2_length in Hfit as Hlen.
  destruct (roll_by_gather_total mat shifts) as [out Hout].
  exists out. split; [done|]. split.
  - apply roll_by_gather_rows, Forall2_length in Hout.
    rewrite length_zip_with in Hout. lia.
  - intros i row shift Hrow Hshift.
    destruct (roll_by_gather_row _ _ _ _ _ _ Hout Hrow Hshift) as (o & Ho & Hroll).
    exists o. split; [done|]. split; [by eapply roll_row_length|].
    intros c x Hx. apply lookup_lt_Some in Hx as Hc.
    pose proof (Z.mod_pos_bound (Z.of_nat c + shift) (Z.of_nat (length row))) as Hb.
    rewrite (roll_row_lookup _ _ _ _ Hroll) by lia.
    rewrite Z2Nat.id by lia. rewrite Zminus_mod_idemp_l.
    replace (Z.of_nat c + shift - shift) with (Z.of_nat c) by lia.
    rewrite Z.mod_small by lia. by rewrite Nat2Z.id.
Qed.

(** X10. Rolling twice is rolling once by the sum of the shifts:
    [roll_by_gather(roll_by_gather(mat, 1, s), 1, t)] is
    [roll_by_gather(mat, 1, s + t)]. *)
Theorem roll_by_gather_compose (mat m1 m2 : list (list Q)) (s t : list Z) :
  shifts_fit mat s -> shifts_fit mat t -> shifts_fit mat (zip_with Z.add s t) ->
  roll_by_gather mat 1 s = Some m1 ->
  roll_by_gather m1 1 t = Some m2 ->
  roll_by_gather mat 1 (zip_with Z.add s t) = Some m2.
Proof.
  intros Hs Ht _ H1 H2.
  apply Forall2_length in Hs. apply Forall2_length in Ht.
  apply roll_by_gather_rows in H1 as F1. apply roll_by_gather_rows in H2 as F2.
  apply Forall2_length in F1 as L1. apply Forall2_length in F2 as L2.
  rewrite length_zip_with in L1, L2.
  apply roll_by_gather_rows, Forall2_same_length_lookup_2.
  { rewrite !length_zip_with. lia. }
  intros i [row st] o2 Hz Ho2. simpl.
  apply lookup_zip_with_Some in Hz as (row' & st' & [= <- <-] & Hrow & Hst).
  apply lookup_zip_with_Some in Hst as (si & ti & -> & Hsi & Hti).
  destruct (roll_by_gather_row _ _ _ _ _ _ H1 Hrow Hsi) as (o1 & Ho1 & R1).
  destruct (roll_by_gather_row _ _ _ _ _ _ H2 Ho1 Hti) as (o2' & Ho2' & R2).
  assert (o2' = o2) as -> by congruence.
  by eapply roll_row_compose.
Qed.

(** X11. Rolling back restores the matrix: rolling the result of
    [roll_by_gather(mat, 1, s)] by shifts [t] with [s + t] a multiple of the
    row length in every row (the negated shifts, for one) gives [mat]
    again. *)
Theorem roll_by_gather_undo (mat m1 m2 : list (list Q)) (s t : list Z) :
  shifts_fit mat s -> shifts_fit mat t ->
  Forall2 (fun row st => st mod Z.of_nat (length row) = 0) mat (zip_with Z.add s t) ->
  roll_by_gather mat 1 s = Some m1 ->
  roll_by_gather m1 1 t = Some m2 ->
  m2 = mat.
Proof.
  intros Hs Ht Hmul H1 H2.
  apply Forall2_length in Hs. apply Forall2_length in Ht.
  apply roll_by_gather_rows in H1 as F1. apply roll_by_gather_rows in H2 as F2.
  apply Forall2_length in F1 as L1. apply Forall2_length in F2 as L2.
  rewrite length_zip_with in L1, L2.
  apply list_eq_same_length with (length mat); [done|lia|].
  intros i o2 row Hi Ho2 Hrow.
  destruct (lookup_lt_is_Some_2 s i) as [si Hsi]; [lia|].
  destruct (lookup_lt_is_Some_2 t i) as [ti Hti]; [lia|].
  destruct (roll_by_gather_row _ _ _ _ _ _ H1 Hrow Hsi) as (o1 & Ho1 & R1).
  destruct (roll_by_gather_row _ _ _ _ _ _ H2 Ho1 Hti) as (o2' & Ho2' & R2).
  assert (o2' = o2) as -> by congruence.
  assert (zip_with Z.add s t !! i = Some (si + ti)) as Hst.
  { apply lookup_zip_with_Some. by exists si, ti. }
  pose proof (Forall2_lookup_lr _ _ _ _ _ _ Hmul Hrow Hst) as Hm. simpl in Hm.
  pose proof (roll_row_compose _ _ _ _ _ R1 R2) as R.
  rewrite (roll_row_multiple _ _ Hm) in R. congruence.
Qed.

(** The two-row matrix rolled by 1 and by 2. *)
Lemma roll_by_gather_rotates_witness :
  exists out,
    roll_by_gather mat_r 1 shifts_r = Some out /\
    length out = length mat_r /\
    forall i row shift,
      mat_r !! i = Some row -> shifts_r !! i = Some shift ->
      exists o,
        out !! i = Some o /\ length o = length row /\
        forall c x,
          row !! c = Some x ->
          o !! Z.to_nat ((Z.of_nat c + shift) mod Z.of_nat (length row)) = Some x.
Proof.
  apply (roll_by_gather_rotates mat_r shifts_r).
  repeat constructor; simpl; lia.
Defined.

(** Rolling by 1 and 2, then by 1 and 2 again, is rolling by 2 and 4. *)
Lemma roll_by_gather_compose_witness :
  roll_by_gather mat_r 1 (zip_with Z.add shifts_r shifts_r)
  = Some [[2%Q; 3%Q; 1%Q]; [6%Q; 4%Q; 5%Q]].
Proof.
  apply (roll_by_gather_compose mat_r rolled_r _ shifts_r shifts_r).
  - repeat constructor; simpl; lia.
  - repeat constructor; simpl; lia.
  - repeat constructor; simpl; lia.
  - reflexivity.
  - reflexivity.
Defined.

(** Rolling by 1 and 2, then by -1 and -2. *)
Lemma roll_by_gather_undo_witness :
  [[1%Q; 2%Q; 3%Q]; [4%Q; 5%Q; 6%Q]] = mat_r.
Proof.
  apply (roll_by_gather_undo mat_r rolled_r _ shifts_r shifts_back_r).
  - repeat constructor; simpl; lia.
  - repeat constructor; simpl; lia.
  - repeat constructor.
  - reflexivity.
  - reflexivity.
Defined.

(** ** The number of recorded steps: [GameStats.__len__] *)

Lemma wrap64_mod (z : Z) : wrap64 z mod 2 ^ 64 = z mod 2 ^ 64.
Proof.
  unfold wrap64.
  rewrite Zminus_mod, Z.mod_mod, <- Zminus_mod by lia. f_equal. lia.
Qed.

Lemma wrap64_congr (x y : Z) : x mod 2 ^ 64 = y mod 2 ^ 64 -> wrap64 x = wrap64 y.
Proof.
  intros H. unfold wrap64.
  by rewrite (Zplus_mod x), (Zplus_mod y), H.
Qed.

(** An indexed assignment whose values are a function of the row: every
    named row ends with the value of the function. *)
Lemma index_put1_fun {A} (f : nat -> A) (dst : list A) (rows : list nat)
  (vals dst' : list A) (i : nat) :
  index_put1 dst rows vals = Some dst' ->
  length vals = length rows ->
  (forall m r v, rows !! m = Some r -> vals !! m = Some v -> v = f r) ->
  dst' !! i = (fun e => if bool_decide (i ∈ rows) then f i else e) <$> dst !! i.
Proof.
  revert dst vals. induction rows as [|r rows IH]; intros dst vals H Hlen Hf.
  - destruct vals; [|done]. injection H as <-. by destruct (dst !! i).
  - destruct vals as [|v vals]; [done|]. simpl in H.
    destruct (put1 dst r v) as [dst1|] eqn:Hput; simpl in H; [|done].
    apply put1_inv in Hput as [Hr ->].
    rewrite (IH _ _ H); [|simpl in Hlen; lia|].
    2:{ intros m r' v' Hr' Hv'. by apply (Hf (S m)). }
    assert (v = f r) as -> by (by apply (Hf 0%nat)).
    destruct (decide (i = r)) as [->|Hne].
    + rewrite list_lookup_insert_eq by done.
      destruct (lookup_lt_is_Some_2 dst r Hr) as [e ->]. simpl.
      rewrite (bool_decide_eq_true_2 (r ∈ r :: rows)) by constructor.
      by destruct (bool_decide (r ∈ rows)).
    + rewrite list_lookup_insert_ne by done.
      destruct (dst !! i) as [e|]; simpl; [|done]. f_equal.
      destruct (decide (i ∈ rows)) as [Hin|Hnin].
      * rewrite !bool_decide_eq_true_2; [done|by constructor|done].
      * rewrite !bool_decide_eq_false_2; [done| |done].
        intros Hin'. apply elem_of_cons in Hin' as [?|?]; done.
Qed.

(** The sum of a vector after some of its entries went up by one. *)
Lemma sum_incremented (P : nat -> bool) (l l' : list Z) (k : nat) :
  length l' = length l ->
  (forall i e, l !! i = Some e ->
               l' !! i = Some (if P (k + i)%nat then add64 e 1 else e)) ->
  foldr Z.add 0 l' mod 2 ^ 64
  = (foldr Z.add 0 l
     + Z.of_nat (length (List.filter P (seq k (length l))))) mod 2 ^ 64.
Proof.
  revert l' k. induction l as [|x l IH]; intros l' k Hlen Hl.
  - by destruct l'.
  - destruct l' as [|x' l']; [done|]. simpl in Hlen.
    assert (x' = if P k then add64 x 1 else x) as ->.
    { specialize (Hl 0%nat x eq_refl). rewrite Nat.add_0_r in Hl. by injection Hl. }
    assert (foldr Z.add 0 l' mod 2 ^ 64
            = (foldr Z.add 0 l
               + Z.of_nat (length (List.filter P (seq (S k) (length l))))) mod 2 ^ 64)
      as Htl.
    { apply IH; [lia|]. intros i e He. specialize (Hl (S i) e He).
      by rewrite Nat.add_succ_r in Hl. }
    cbn [foldr length seq List.filter].
    rewrite Zplus_mod, Htl, <- Zplus_mod.
    destruct (P k) eqn:HP.
    + cbn [length]. unfold add64.
      rewrite Zplus_mod, wrap64_mod, <- Zplus_mod. f_equal. lia.
    + f_equal. lia.
Qed.

Lemma count_slots (n : nat) (idx : list nat) :
  Forall (fun i => (i < n)%nat) idx ->
  length (List.filter (fun i => bool_decide (i ∈ idx)) (seq 0 n))
  = length (remove_dups idx).
Proof.
  intros Hidx. apply Permutation_length, NoDup_Permutation.
  - apply NoDup_ListNoDup, List.NoDup_filter, NoDup_ListNoDup, NoDup_seq.
  - apply NoDup_remove_dups.
  - intros i. rewrite list_elem_of_In, filter_In, <- !list_elem_of_In.
    rewrite elem_of_seq, bool_decide_eq_true, elem_of_remove_dups.
    rewrite Forall_forall in Hidx. split; [tauto|].
    intros Hi. specialize (Hidx _ Hi). split; [lia|done].
Qed.

(** X12. Every successful [append] raises [len(stats)], the [int64] sum of
    [episode_len], by the number of distinct slots that the index names:
    a slot named twice is counted once. *)
Theorem append_counts_steps (hp : Hparams) (index : list Z)
  (dict : list (string * tensor)) (st st' : GameStats) :
  append hp index dict st = Ok st' ->
  exists idx,
    slots_of (length (episode_len st)) index = Ok idx /\
    __len__ st' = add64 (__len__ st) (Z.of_nat (length (remove_dups idx))).
Proof.
  intros H.
  apply append_inv in H as (idx & elen & s1 & Hidx & Helen & _ & Hput & _).
  exists idx. split; [unfold slots_of; by rewrite Hidx|].
  unfold __len__. set (el := episode_len st) in *.
  set (el' := episode_len st') in *.
  assert (Forall (fun i => (i < length el)%nat) idx) as Hlt.
  { apply Forall_lookup. intros m i Hm. by eapply slot_lt_batch. }
  apply wrap64_congr. rewrite <- (count_slots _ _ Hlt).
  rewrite (Zplus_mod (wrap64 _)), wrap64_mod, <- Zplus_mod.
  apply (sum_incremented _ el el' 0).
  - by eapply index_put1_length.
  - intros i e He. simpl.
    rewrite (index_put1_fun (fun r => add64 (default 0 (el !! r)) 1) _ _ _ _ _ Hput).
    + by rewrite He; simpl.
    + rewrite length_map. by apply mapM_Some, Forall2_length in Helen.
    + intros m r v Hr Hv. apply list_lookup_fmap_Some in Hv as (e' & -> & He').
      rewrite (gather_lookup _ _ _ _ _ Helen Hr) in He'. by rewrite He'.
Qed.

(** The step recorded between [store_a1] and [store_a2]. *)
Lemma append_counts_steps_witness :
  exists idx,
    slots_of (length (episode_len store_a1)) [0] = Ok idx /\
    __len__ store_a2 = add64 (__len__ store_a1) (Z.of_nat (length (remove_dups idx))).
Proof.
  apply (append_counts_steps hp_a [0] dict_a2 store_a1 store_a2).
  by vm_compute.
Defined.

(** ** A full slot records no further step *)

Lemma py_index_range (len : nat) (i : Z) (p : nat) :
  py_index len i = Some p -> - Z.of_nat len <= i < Z.of_nat len.
Proof. unfold py_index. repeat case_match; intros [= <-]; lia. Qed.

(** A successful indexed assignment has found every column it names. *)
Lemma index_put2_in_range {A} (dst : list (list A)) (rows : list nat) (cols : list Z)
  (vals : list A) (dst' : list (list A)) (m r : nat) (c : Z) :
  index_put2 dst rows cols vals = Some dst' ->
  length vals = length rows ->
  rows !! m = Some r -> cols !! m = Some c ->
  is_Some (row_pos dst r c).
Proof.
  revert dst cols vals m. induction rows as [|r0 rows IH];
    intros dst cols vals m H Hlen Hr Hc; [done|].
  destruct cols as [|c0 cols]; [done|]. destruct vals as [|v0 vals]; [done|].
  simpl in H. destruct (put2 dst r0 c0 v0) as [dst1|] eqn:Hput; simpl in H; [|done].
  destruct m as [|m]; simpl in Hr, Hc.
  - injection Hr as ->. injection Hc as ->.
    apply put2_inv in Hput as (row & t & Hrow & Ht & _).
    exists t. unfold row_pos. by rewrite Hrow.
  - assert (is_Some (row_pos dst1 r c)) as [t Ht].
    { eapply IH; [done|simpl in Hlen; lia|done|done]. }
    exists t. unfold row_pos in *.
    by rewrite <- (put2_row_length _ _ _ _ _ r Hput).
Qed.

Lemma foldR_shape_ok (hp : Hparams) (idx : list nat) (elen : list Z)
  (dict : list (string * tensor)) (st st' : GameStats) :
  foldR (append_field hp idx elen) dict st = Ok st' ->
  shape_ok hp st -> shape_ok hp st'.
Proof.
  revert st. induction dict as [|item dict IH]; intros st H Hshape; simpl in H.
  - by injection H as <-.
  - inv_ok. eapply IH; [done|]. by eapply append_field_shape_ok.
Qed.

Lemma rect2_row_pos {A} (b l : nat) (t : list (list A)) (r : nat) (c : Z) :
  rect2 b l t = true -> is_Some (row_pos t r c) ->
  - Z.of_nat l <= c < Z.of_nat l.
Proof.
  intros Hrect [p Hp]. unfold row_pos in Hp.
  destruct (t !! r) as [row|] eqn:Hrow; simpl in Hp; [|done].
  apply rect2_inv in Hrect as [_ Hrows]. rewrite (Hrows _ _ Hrow) in Hp.
  by eapply py_index_range.
Qed.

(** One item with a step dimension: the assignment [dst[index, episode_len]]
    has found column [episode_len] for every active slot. *)
Lemma append_field_room (hp : Hparams) (idx : list nat) (elen : list Z)
  (st st' : GameStats) (key : string) (value : tensor) (m slot : nat) (e : Z) :
  append_field hp idx elen st (key, value) = Ok st' ->
  key ∈ step_keys -> shape_ok hp st ->
  idx !! m = Some slot -> elen !! m = Some e ->
  - Z.of_nat (max_episode_len hp) <= e < Z.of_nat (max_episode_len hp).
Proof.
  intros H Hkey Hshape Hm He.
  apply shape_ok_inv in Hshape as (_ & Hrw & Hrv & _ & Hac & Hpl & _).
  apply append_field_cases in H
    as [(-> & _)|[(-> & _)|[(-> & _)|[(-> & dst & Hw & _)|[(-> & dst & Hw & _)
       |[(-> & dst & Hw & _)|(-> & dst & Hw & _)]]]]]];
    try (exfalso; revert Hkey; by compute_done).
  all: unfold write2Q, write2Z in Hw; destruct value; try done.
  all: destruct (expand (length idx) v) as [vals|] eqn:Hv; simpl in Hw; [|done].
  all: apply expand_length in Hv.
  all: pose proof (index_put2_in_range _ idx elen vals dst m slot e Hw Hv Hm He) as Hpos.
  all: refine (rect2_row_pos _ _ _ _ _ _ Hpos); eassumption.
Qed.

(** X13. A slot that has recorded [max_episode_len] steps records no
    further one: whenever [append] returns for a dictionary that carries a
    tensor with a step dimension ([rewards], [root_values], [actions] or
    [player_ids]) on a store of the shapes [__init__] sets up, the
    [episode_len] of every active slot was a column of the buffer, below
    [max_episode_len]. *)
Theorem append_needs_room (hp : Hparams) (index : list Z)
  (dict : list (string * tensor)) (st st' : GameStats) (key : string)
  (value : tensor) (idx : list nat) (slot : nat) (e : Z) :
  append hp index dict st = Ok st' -> shape_ok hp st ->
  (key, value) ∈ dict -> key ∈ step_keys ->
  slots_of (length (episode_len st)) index = Ok idx ->
  slot ∈ idx -> episode_len st !! slot = Some e ->
  - Z.of_nat (max_episode_len hp) <= e < Z.of_nat (max_episode_len hp).
Proof.
  intros H Hshape Hin Hkey Hidx Hslot He.
  apply append_inv in H as (idx' & elen & s1 & Hidx' & Helen & Hfold & _ & _).
  unfold slots_of in Hidx. rewrite Hidx' in Hidx. injection Hidx as ->.
  apply list_elem_of_split in Hin as (l1 & l2 & ->).
  rewrite foldR_app in Hfold. apply bind_Ok in Hfold as (sa & Hl1 & Hfold).
  simpl in Hfold. apply bind_Ok in Hfold as (sb & Hitem & _).
  apply list_elem_of_lookup in Hslot as [m Hm].
  eapply (append_field_room hp idx elen sa sb key value m slot e); try done.
  - by eapply foldR_shape_ok.
  - by rewrite (gather_lookup _ _ _ _ _ Helen Hm).
Qed.

(** The second step of the one-slot store, recorded at column 1 of 3. *)
Lemma append_needs_room_witness :
  - Z.of_nat (max_episode_len hp_a) <= 1 < Z.of_nat (max_episode_len hp_a).
Proof.
  apply (append_needs_room hp_a [0] dict_a2 store_a1 store_a2 "rewards"
           (FloatT [7%Q]) [0%nat] 0%nat 1).
  - by vm_compute.
  - reflexivity.
  - unfold dict_a2, step_dict. in_list.
  - compute_done.
  - reflexivity.
  - compute_done.
  - reflexivity.
Defined.

(** ** Invariants of the stores of a game *)

(** What [append] does to the episode lengths. *)
Lemma append_episode_len (hp : Hparams) (index : list Z)
  (dict : list (string * tensor)) (st st' : GameStats) (idx : list nat) (slot : nat) :
  append hp index dict st = Ok st' ->
  slots_of (length (episode_len st)) index = Ok idx ->
  episode_len st' !! slot
  = (fun e => if bool_decide (slot ∈ idx) then add64 e 1 else e)
      <$> episode_len st !! slot.
Proof.
  intros H Hidx.
  apply append_inv in H as (idx' & elen & s1 & Hidx' & Helen & _ & Hput & _).
  unfold slots_of in Hidx. rewrite Hidx' in Hidx. injection Hidx as ->.
  rewrite (index_put1_fun (fun r => add64 (default 0 (episode_len st !! r)) 1)
             _ _ _ _ _ Hput).
  - by destruct (episode_len st !! slot).
  - rewrite length_map. by apply mapM_Some, Forall2_length in Helen.
  - intros m r v Hr Hv. apply list_lookup_fmap_Some in Hv as (e' & -> & He').
    rewrite (gather_lookup _ _ _ _ _ Helen Hr) in He'. by rewrite He'.
Qed.

(** The rewards of a store after an [append] that carries them. *)
Lemma append_rewards_written (hp : Hparams) (index : list Z)
  (dict : list (string * tensor)) (st st' : GameStats) :
  append hp index dict st = Ok st' ->
  NoDup dict.*1 -> "rewards" ∈ dict.*1 ->
  exists idx elen vals,
    slots_of (length (episode_len st)) index = Ok idx /\
    mapM (fun i => episode_len st !! i) idx = Some elen /\
    length vals = length idx /\
    index_put2 (rewards st) idx elen vals = Some (rewards st').
Proof.
  intros H Hnd Hin.
  apply append_inv in H as (idx & elen & s1 & Hidx & Helen & Hfold & _ & Hst).
  exists idx, elen.
  apply list_elem_of_fmap in Hin as ([key value] & Hkey & Hin). simpl in Hkey. subst key.
  destruct (foldR_rewards hp idx elen _ _ _ Hfold Hnd) as [_ Hw].
  specialize (Hw _ Hin). unfold write2Q in Hw. destruct value; try done.
  destruct (expand (length idx) v) as [vals|] eqn:Hv; simpl in Hw; [|done].
  exists vals. split; [unfold slots_of; by rewrite Hidx|]. split; [done|].
  split; [by eapply expand_length|]. rewrite Hst. exact Hw.
Qed.

Lemma append_keeps_bounded (hp : Hparams) (index : list Z)
  (dict : list (string * tensor)) (st st' : GameStats) :
  Z.of_nat (max_episode_len hp) < 2 ^ 63 ->
  append hp index dict st = Ok st' ->
  NoDup dict.*1 -> "rewards" ∈ dict.*1 ->
  shape_ok hp st -> episode_len_bounded hp st -> episode_len_bounded hp st'.
Proof.
  intros HL H Hnd Hin Hshape Hb.
  destruct (append_rewards_written _ _ _ _ _ H Hnd Hin)
    as (idx & elen & vals & Hidx & Helen & Hlen & Hput).
  apply Forall_lookup. intros slot e' He'.
  rewrite (append_episode_len _ _ _ _ _ _ _ H Hidx) in He'.
  destruct (episode_len st !! slot) as [e|] eqn:He; simpl in He'; [|done].
  injection He' as <-.
  pose proof (Forall_lookup_1 _ _ _ _ Hb He) as Hbe. simpl in Hbe.
  destruct (bool_decide (slot ∈ idx)) eqn:Hd; [|done].
  apply bool_decide_eq_true in Hd. apply list_elem_of_lookup in Hd as [m Hm].
  assert (elen !! m = Some e) as Hem by (by rewrite (gather_lookup _ _ _ _ _ Helen Hm)).
  pose proof (index_put2_in_range _ _ _ _ _ _ _ _ Hput Hlen Hm Hem) as Hpos.
  apply shape_ok_inv in Hshape as (_ & Hrw & _).
  pose proof (rect2_row_pos _ _ _ _ _ Hrw Hpos).
  rewrite add64_small; lia.
Qed.

Lemma append_keeps_zero_past_end (hp : Hparams) (index : list Z)
  (dict : list (string * tensor)) (st st' : GameStats) :
  Z.of_nat (max_episode_len hp) < 2 ^ 63 ->
  append hp index dict st = Ok st' ->
  NoDup dict.*1 -> "rewards" ∈ dict.*1 ->
  shape_ok hp st -> episode_len_bounded hp st ->
  zero_past_end st -> zero_past_end st'.
Proof.
  intros HL H Hnd Hin Hshape Hb Hz slot e' t x He' Ht Hx.
  destruct (append_rewards_written _ _ _ _ _ H Hnd Hin)
    as (idx & elen & vals & Hidx & Helen & Hlen & Hput).
  rewrite (append_episode_len _ _ _ _ _ _ _ H Hidx) in He'.
  destruct (episode_len st !! slot) as [e|] eqn:He; simpl in He'; [|done].
  injection He' as <-.
  pose proof (Forall_lookup_1 _ _ _ _ Hb He) as Hbe. simpl in Hbe.
  assert (cell2 (rewards st') slot t = cell2 (rewards st) slot t) as Hframe.
  { apply (index_put2_frame _ _ _ _ _ _ _ Hput). intros m c Hm Hc Hpos.
    assert (c = e) as ->.
    { rewrite (gather_lookup _ _ _ _ _ Helen Hm) in Hc. congruence. }
    apply row_pos_nonneg in Hpos; [|lia]. subst t.
    assert (slot ∈ idx) as Hslot by (by eapply list_elem_of_lookup_2).
    rewrite bool_decide_eq_true_2 in Ht by done.
    pose proof (index_put2_in_range _ _ _ _ _ _ _ _ Hput Hlen Hm Hc) as Hp.
    apply shape_ok_inv in Hshape as (_ & Hrw & _).
    pose proof (rect2_row_pos _ _ _ _ _ Hrw Hp).
    rewrite add64_small in Ht; lia. }
  rewrite Hframe in Hx. apply (Hz slot e t x He); [|done].
  destruct (bool_decide (slot ∈ idx)) eqn:Hd; [|done].
  apply bool_decide_eq_true in Hd. apply list_elem_of_lookup in Hd as [m Hm].
  assert (elen !! m = Some e) as Hem by (by rewrite (gather_lookup _ _ _ _ _ Helen Hm)).
  pose proof (index_put2_in_range _ _ _ _ _ _ _ _ Hput Hlen Hm Hem) as Hp.
  apply shape_ok_inv in Hshape as (_ & Hrw & _).
  pose proof (rect2_row_pos _ _ _ _ _ Hrw Hp).
  rewrite add64_small in Ht; lia.
Qed.

Lemma update_keeps_zero_past_end (hp : Hparams) (win_index : list Z) (rws : list Q)
  (idx : list nat) (st st' : GameStats) :
  Z.of_nat (max_episode_len hp) < 2 ^ 63 ->
  update_last_reward_and_values win_index rws st = Ok st' ->
  slots_of (length (episode_len st)) win_index = Ok idx ->
  Forall (has_step st) idx ->
  episode_len_bounded hp st ->
  zero_past_end st -> zero_past_end st'.
Proof.
  intros HL H Hidx Hstep Hb Hz slot e t x He Ht Hx.
  apply update_inv in H as (idx' & elen & vals & Hidx' & Helen & _ & Hput & Hst).
  unfold slots_of in Hidx. rewrite Hidx' in Hidx. injection Hidx as ->.
  assert (episode_len st' = episode_len st) as Hel by (by rewrite Hst).
  rewrite Hel in He.
  assert (cell2 (rewards st') slot t = cell2 (rewards st) slot t) as Hframe.
  { apply (index_put2_frame _ _ _ _ _ _ _ Hput). intros m c Hm Hc Hpos.
    apply list_lookup_fmap_Some in Hc as (e0 & -> & He0).
    rewrite (gather_lookup _ _ _ _ _ Helen Hm) in He0.
    assert (e0 = e) as -> by congruence.
    pose proof (Forall_lookup_1 _ _ _ _ Hstep Hm) as (e1 & He1 & Hge).
    assert (e1 = e) as -> by congruence.
    pose proof (Forall_lookup_1 _ _ _ _ Hb He) as Hbe. simpl in Hbe.
    rewrite add64_small in Hpos by lia.
    apply row_pos_nonneg in Hpos; lia. }
  rewrite Hframe in Hx. by apply (Hz slot e t x He).
Qed.

Lemma init_zero_past_end (hp : Hparams) : zero_past_end (init hp).
Proof.
  intros slot e t x _ _ Hx. unfold cell2, init, zeros in Hx. simpl in Hx.
  destruct (replicate (batch_size hp) _ !! slot) as [row|] eqn:Hrow; simpl in Hx; [|done].
  apply lookup_replicate in Hrow as [-> _].
  by apply lookup_replicate in Hx as [-> _].
Qed.

(** X14. An invariant of the stores of a game.  A store that [__init__]
    set up and that was filled by successful calls of [append] with the
    rewards in the dictionary, and of [update_last_reward_and_values],
    keeps the shapes of [__init__] and every episode length between 0 and
    [max_episode_len]; and when the late corrections only went to slots
    with a recorded step, all rewards at and past the episode end are
    still the zeros of [__init__]. *)
Theorem recorded_invariant (hp : Hparams) (allowed : GameStats -> nat -> Prop)
  (st : GameStats) :
  Z.of_nat (max_episode_len hp) < 2 ^ 63 ->
  recorded hp allowed st ->
  shape_ok hp st /\ episode_len_bounded hp st /\
  ((forall s slot, allowed s slot -> has_step s slot) -> zero_past_end st).
Proof.
  intros HL H. induction H as
    [|index dict st st' _ (Hshape & Hb & Hz) Hnd Hin Happ
     |win_index rws idx st st' _ (Hshape & Hb & Hz) Hidx Hall Hupd].
  - split; [apply init_shape_ok|]. split.
    + unfold episode_len_bounded, init, zeros. simpl.
      apply Forall_replicate. lia.
    + intros _. apply init_zero_past_end.
  - split; [by eapply append_shape_ok|]. split.
    + by eapply append_keeps_bounded.
    + intros Hal. eapply append_keeps_zero_past_end; eauto.
  - split; [by eapply update_shape_ok|]. split.
    + apply update_inv in Hupd as (_ & _ & _ & _ & _ & _ & _ & ->). exact Hb.
    + intros Hal. eapply update_keeps_zero_past_end; eauto.
      eapply Forall_impl; [exact Hall|]. intros slot. apply Hal.
Qed.

(** The store after two steps and a late correction of the second one. *)
Lemma recorded_invariant_witness :
  shape_ok hp_a store_a3 /\ episode_len_bounded hp_a store_a3 /\
  ((forall s slot, has_step s slot -> has_step s slot) -> zero_past_end store_a3).
Proof.
  apply (recorded_invariant hp_a has_step store_a3).
  - simpl. lia.
  - apply (recorded_update hp_a has_step [0] [(-1)%Q] [0%nat] store_a2).
    + apply (recorded_append hp_a has_step [0] dict_a2 store_a1).
      * apply (recorded_append hp_a has_step [0] dict_a1 (init hp_a)).
        -- apply recorded_init.
        -- compute_done.
        -- compute_done.
        -- by vm_compute.
      * compute_done.
      * compute_done.
      * by vm_compute.
    + reflexivity.
    + repeat constructor. exists 2. split; [reflexivity|lia].
    + by vm_compute.
Defined.

(** ** The order of the dictionary *)

(** Replays the steps of one item of the dictionary. *)
Ltac run_field :=
  unfold append_field; simpl;
  repeat match goal with
         | H : ?x = Some _ |- context [?x] => rewrite H; simpl
         | H : any_differs ?a ?b = false |- context [any_differs ?a ?b] => rewrite H
         end;
  reflexivity.

(** Two items with different keys can be handled in either order. *)
Lemma append_field_swap (hp : Hparams) (idx : list nat) (elen : list Z)
  (st s1 s2 : GameStats) (k1 k2 : string) (v1 v2 : tensor) :
  k1 <> k2 ->
  append_field hp idx elen st (k1, v1) = Ok s1 ->
  append_field hp idx elen s1 (k2, v2) = Ok s2 ->
  exists s1',
    append_field hp idx elen st (k2, v2) = Ok s1' /\
    append_field hp idx elen s1' (k1, v1) = Ok s2.
Proof.
  intros Hne H1 H2.
  assert (is_stored k1 = true) as Hk1.
  { unfold append_field in H1. by destruct (is_stored k1). }
  assert (is_stored k2 = true) as Hk2.
  { unfold append_field in H2. by destruct (is_stored k2). }
  apply is_stored_true in Hk1 as [->|[->|[->|[->|[->|[->| ->]]]]]];
    apply is_stored_true in Hk2 as [->|[->|[->|[->|[->|[->| ->]]]]]];
    try done; clear Hne.
  all: unfold append_field in H1; simpl in H1.
  all: destruct v1; try done.
  all: unfold append_field in H2; simpl in H2.
  all: destruct v2; try done.
  all: inv_ok.
  all: repeat match goal with
         | H : (if any_differs ?a ?b then _ else _) = Ok _ |- _ =>
             let Hd := fresh "Hd" in
             destruct (any_differs a b) eqn:Hd; [discriminate H|injection H as H]
         end.
  all: subst; simpl in *.
  all: eexists; (split; [run_field|run_field]).
Qed.

Lemma foldR_Permutation (hp : Hparams) (idx : list nat) (elen : list Z)
  (dict dict' : list (string * tensor)) :
  dict ≡ₚ dict' -> NoDup dict.*1 ->
  forall st st',
    foldR (append_field hp idx elen) dict st = Ok st' ->
    foldR (append_field hp idx elen) dict' st = Ok st'.
Proof.
  induction 1 as [|x l l' Hp IH|[k1 v1] [k2 v2] l|l l' l'' Hp1 IH1 Hp2 IH2];
    intros Hnd st st' H.
  - done.
  - simpl in *. apply bind_Ok in H as (s1 & H1 & H). apply bind_Ok.
    exists s1. split; [done|]. apply IH; [|done]. by apply NoDup_cons in Hnd as [_ ?].
  - simpl in *. apply bind_Ok in H as (s1 & H1 & H).
    apply bind_Ok in H as (s2 & H2 & H).
    apply NoDup_cons in Hnd as [Hne _].
    destruct (append_field_swap hp idx elen st s1 s2 k2 k1 v2 v1) as (s1' & Ha & Hb);
      [|done|done|].
    { intros ->. apply Hne. constructor. }
    apply bind_Ok. exists s1'. split; [done|]. apply bind_Ok. by exists s2.
  - apply IH2; [|by apply IH1].
    by rewrite <- Hp1.
Qed.

(** X15. The order of the items of the dictionary is immaterial: when
    [append] returns for a dictionary, it returns the same store for every
    dictionary with the same items in another order. *)
Theorem append_order_independent (hp : Hparams) (index : list Z)
  (dict dict' : list (string * tensor)) (st st' : GameStats) :
  append hp index dict st = Ok st' ->
  NoDup dict.*1 -> dict ≡ₚ dict' ->
  append hp index dict' st = Ok st'.
Proof.
  unfold append. intros H Hnd Hp.
  apply bind_Ok in H as (idx & Hidx & H). apply bind_Ok in H as (elen & Helen & H).
  apply bind_Ok in H as (s1 & Hfold & H).
  apply bind_Ok. exists idx. split; [done|].
  apply bind_Ok. exists elen. split; [done|].
  apply bind_Ok. exists s1. split; [|done].
  by apply (foldR_Permutation hp idx elen dict dict').
Qed.

(** The second step of the one-slot store with the dictionary reversed. *)
Lemma append_order_independent_witness :
  append hp_a [0] (reverse dict_a2) store_a1 = Ok store_a2.
Proof.
  apply (append_order_independent hp_a [0] dict_a2 (reverse dict_a2) store_a1 store_a2).
  - by vm_compute.
  - compute_done.
  - apply Permutation_sym, reverse_Permutation.
Defined.

(** ** What [append] leaves alone *)

Lemma index_put2_row_frame {A} (dst : list (list A)) (rows : list nat) (cols : list Z)
  (vals : list A) (dst' : list (list A)) (s : nat) :
  index_put2 dst rows cols vals = Some dst' -> s ∉ rows -> dst' !! s = dst !! s.
Proof.
  revert dst cols vals. induction rows as [|r rows IH]; intros dst cols vals H Hs.
  - simpl in H. congruence.
  - destruct cols as [|c cols]; [simpl in H; congruence|].
    destruct vals as [|v vals]; [simpl in H; congruence|]. simpl in H.
    destruct (put2 dst r c v) as [dst1|] eqn:Hput; simpl in H; [|done].
    apply not_elem_of_cons in Hs as [Hne Hs].
    rewrite (IH _ _ _ H Hs).
    apply put2_inv in Hput as (row & t & _ & _ & ->).
    by rewrite list_lookup_insert_ne.
Qed.

Lemma index_put3_row_frame {A} (dst : list (list (list A))) (rows : list nat)
  (cols : list Z) (vals : list (list A)) (dst' : list (list (list A))) (s : nat) :
  index_put3 dst rows cols vals = Some dst' -> s ∉ rows -> dst' !! s = dst !! s.
Proof.
  revert dst cols vals. induction rows as [|r rows IH]; intros dst cols vals H Hs.
  - simpl in H. congruence.
  - destruct cols as [|c cols]; [simpl in H; congruence|].
    destruct vals as [|v vals]; [simpl in H; congruence|]. simpl in H.
    destruct (put3 dst r c v) as [dst1|] eqn:Hput; simpl in H; [|done].
    apply not_elem_of_cons in Hs as [Hne Hs].
    rewrite (IH _ _ _ H Hs).
    apply put3_inv in Hput as (plane & plane' & _ & _ & ->).
    by rewrite list_lookup_insert_ne.
Qed.

Lemma write2Q_row_frame (idx : list nat) (elen : list Z) (value : tensor)
  (dst dst' : list (list Q)) (s : nat) :
  write2Q idx elen value dst = Some dst' -> s ∉ idx -> dst' !! s = dst !! s.
Proof.
  unfold write2Q. destruct value; try done. intros H.
  destruct (expand (length idx) v); simpl in H; [|done].
  by eapply index_put2_row_frame.
Qed.

Lemma write2Z_row_frame (idx : list nat) (elen : list Z) (value : tensor)
  (dst dst' : list (list Z)) (s : nat) :
  write2Z idx elen value dst = Some dst' -> s ∉ idx -> dst' !! s = dst !! s.
Proof.
  unfold write2Z. destruct value; try done. intros H.
  destruct (expand (length idx) v); simpl in H; [|done].
  by eapply index_put2_row_frame.
Qed.

Lemma write3Q_row_frame (hp : Hparams) (idx : list nat) (elen : list Z)
  (value : tensor) (dst dst' : list (list (list Q))) (s : nat) :
  write3Q hp idx elen value dst = Some dst' -> s ∉ idx -> dst' !! s = dst !! s.
Proof.
  unfold write3Q. destruct value; try done. intros H.
  destruct (expand (length idx) v); simpl in H; [|done].
  destruct (mapM (expand (num_actions hp)) l); simpl in H; [|done].
  by eapply index_put3_row_frame.
Qed.

Lemma write1B_row_frame (idx : list nat) (value : tensor) (dst dst' : list bool)
  (s : nat) :
  write1B idx value dst = Some dst' -> s ∉ idx -> dst' !! s = dst !! s.
Proof.
  unfold write1B. destruct value; try done. intros H.
  destruct (expand (length idx) v); simpl in H; [|done].
  by eapply index_put1_frame.
Qed.

(** A tensor after the loop: untouched, or written by the item of its key. *)
Lemma written_or_kept {X} (k : string) (dict : list (string * tensor))
  (W : tensor -> X -> option X) (x x' : X) :
  (k ∉ dict.*1 -> x' = x) ->
  (forall value, (k, value) ∈ dict -> W value x = Some x') ->
  x' = x \/ exists value, W value x = Some x'.
Proof.
  intros Hout Hin. destruct (decide (k ∈ dict.*1)) as [Hk|Hk]; [|by left; apply Hout].
  right. apply list_elem_of_fmap in Hk as ([k' value] & Hk' & Hk). simpl in Hk'.
  subst k'. exists value. by apply Hin.
Qed.

(** X16. What [append] leaves alone.  A slot that the index does not name
    keeps its whole row in every tensor of the store, its done flag and its
    episode length; and a tensor whose key is not in the dictionary is left
    as it is. *)
Theorem append_frame (hp : Hparams) (index : list Z)
  (dict : list (string * tensor)) (st st' : GameStats) (idx : list nat) :
  append hp index dict st = Ok st' ->
  slots_of (length (episode_len st)) index = Ok idx ->
  NoDup dict.*1 ->
  (forall slot,
      slot ∉ idx ->
      episode_len st' !! slot = episode_len st !! slot /\
      rewards st' !! slot = rewards st !! slot /\
      root_values st' !! slot = root_values st !! slot /\
      children_visits st' !! slot = children_visits st !! slot /\
      actions st' !! slot = actions st !! slot /\
      player_ids st' !! slot = player_ids st !! slot /\
      dones st' !! slot = dones st !! slot) /\
  ("rewards" ∉ dict.*1 -> rewards st' = rewards st) /\
  ("root_values" ∉ dict.*1 -> root_values st' = root_values st) /\
  ("children_visits" ∉ dict.*1 -> children_visits st' = children_visits st) /\
  ("actions" ∉ dict.*1 -> actions st' = actions st) /\
  ("player_ids" ∉ dict.*1 -> player_ids st' = player_ids st) /\
  ("dones" ∉ dict.*1 -> dones st' = dones st) /\
  ("game_states" ∉ dict.*1 -> game_states st' = game_states st).
Proof.
  intros H Hidx Hnd.
  apply append_inv in H as (idx' & elen & s1 & Hidx' & Helen & Hfold & Hput & Hst).
  unfold slots_of in Hidx. rewrite Hidx' in Hidx. injection Hidx as ->.
  destruct (foldR_rewards hp idx elen _ _ _ Hfold Hnd) as [Rw1 Rw2].
  destruct (foldR_root_values hp idx elen _ _ _ Hfold Hnd) as [Rv1 Rv2].
  destruct (foldR_children_visits hp idx elen _ _ _ Hfold Hnd) as [Cv1 Cv2].
  destruct (foldR_actions hp idx elen _ _ _ Hfold Hnd) as [Ac1 Ac2].
  destruct (foldR_player_ids hp idx elen _ _ _ Hfold Hnd) as [Pl1 Pl2].
  destruct (foldR_dones hp idx elen _ _ _ Hfold Hnd) as [Dn1 Dn2].
  destruct (foldR_game_states hp idx elen _ _ _ Hfold Hnd) as [Gs1 _].
  rewrite Hst. simpl. split; [|by repeat split].
  intros slot Hslot. split; [by eapply index_put1_frame|].
  split; [|split; [|split; [|split; [|split]]]].
  - destruct (written_or_kept _ _ _ _ _ Rw1 Rw2) as [->|[value Hw]]; [done|].
    by eapply write2Q_row_frame.
  - destruct (written_or_kept _ _ _ _ _ Rv1 Rv2) as [->|[value Hw]]; [done|].
    by eapply write2Q_row_frame.
  - destruct (written_or_kept _ _ _ _ _ Cv1 Cv2) as [->|[value Hw]]; [done|].
    by eapply write3Q_row_frame.
  - destruct (written_or_kept _ _ _ _ _ Ac1 Ac2) as [->|[value Hw]]; [done|].
    by eapply write2Z_row_frame.
  - destruct (written_or_kept _ _ _ _ _ Pl1 Pl2) as [->|[value Hw]]; [done|].
    by eapply write2Z_row_frame.
  - destruct (written_or_kept _ _ _ _ _ Dn1 Dn2) as [->|[value Hw]]; [done|].
    by eapply write1B_row_frame.
Qed.

(** The first step of the two-slot store, recorded for slot 0 only:
    slot 1 keeps its row of rewards and its episode length. *)
Lemma append_frame_witness :
  episode_len store_b1 !! 1%nat = episode_len (init hp_b) !! 1%nat /\
  rewards store_b1 !! 1%nat = rewards (init hp_b) !! 1%nat.
Proof.
  destruct (append_frame hp_b [0]
              (step_dict [[1%Q]] [3%Q] [0%Q] [0] [false] [[11%Q]; [12%Q]])
              (init hp_b) store_b1 [0%nat]) as [Hslot _].
  - by vm_compute.
  - reflexivity.
  - compute_done.
  - destruct (Hslot 1%nat) as (He & Hr & _); [|by split].
    intros Hin. apply list_elem_of_singleton in Hin. discriminate Hin.
Defined.

(** ** The loss of the other player *)

Lemma masked_elem {A} (t : list A) (mask : list bool) (x : A) :
  x ∈ omap (fun p : A * bool => if p.2 then Some p.1 else None) (zip t mask)
  <-> exists m, t !! m = Some x /\ mask !! m = Some true.
Proof.
  rewrite list_elem_of_omap. split.
  - intros ([y b] & Hin & Hsel). simpl in Hsel. destruct b; [|done].
    injection Hsel as ->. apply list_elem_of_lookup in Hin as [m Hm].
    apply lookup_zip_with_Some in Hm as (x' & b' & [= <- <-] & Hx & Hb).
    by exists m.
  - intros (m & Hx & Hb). exists (x, true). split; [|done].
    apply list_elem_of_lookup. exists m. apply lookup_zip_with_Some. by exists x, true.
Qed.

Lemma masked_NoDup {A} (t : list A) (mask : list bool) :
  NoDup t ->
  NoDup (omap (fun p : A * bool => if p.2 then Some p.1 else None) (zip t mask)).
Proof.
  revert mask. induction t as [|x t IH]; intros mask Hnd; [constructor|].
  destruct mask as [|b mask]; [constructor|]. apply NoDup_cons in Hnd as [Hx Hnd].
  csimpl. destruct b; csimpl; [|by apply IH].
  apply NoDup_cons. split; [|by apply IH].
  intros Hin. apply masked_elem in Hin as (m & Hm & _).
  apply Hx. by eapply list_elem_of_lookup_2.
Qed.

Lemma slots_nonneg (n : nat) (index : list Z) (idx : list nat) :
  mapM (py_index n) index = Some idx -> Forall (fun i => 0 <= i) index ->
  idx = Z.to_nat <$> index.
Proof.
  intros H Hpos. apply mapM_Some in H.
  induction H as [|i p index idx Hp _ IH]; [done|].
  apply Forall_cons in Hpos as [Hi Hpos]. csimpl.
  apply py_index_nonneg_inv in Hp as [-> _]; [|done]. by rewrite IH.
Qed.

Lemma expand_Forall {A} (P : A -> Prop) (m : nat) (v vals : list A) :
  expand m v = Some vals -> Forall P v -> Forall P vals.
Proof.
  unfold expand. destruct (Nat.eqb (length v) m); [by intros [= <-]|].
  destruct v as [|x [|]]; try done. intros [= <-] Hx.
  apply Forall_replicate. by apply Forall_cons in Hx as [? _].
Qed.

Lemma positive_reward (r : Q) : negb (Qle_bool r 0) = true <-> (0 < r)%Q.
Proof.
  rewrite negb_true_iff. split.
  - intros H. apply Qnot_le_lt. intros Hle. apply Qle_bool_iff in Hle. congruence.
  - intros H. destruct (Qle_bool r 0) eqn:E; [|done].
    apply Qle_bool_iff in E. by apply Qlt_not_le in H.
Qed.

(** The slots picked by the mask of line 323. *)
Lemma win_index_wins (active : list Z) (dones : list bool) (rewards : list Q)
  (mask : list bool) (i : Z) :
  length dones = length active -> length rewards = length active ->
  bcast2 andb dones (map (fun r => negb (Qle_bool r 0)) rewards) = Some mask ->
  (exists m, active !! m = Some i /\ mask !! m = Some true)
  <-> exists m r, active !! m = Some i /\ dones !! m = Some true /\
                  rewards !! m = Some r /\ (0 < r)%Q.
Proof.
  intros Hd Hr Hmask. unfold bcast2 in Hmask.
  rewrite length_map, Hd, Hr, Nat.eqb_refl in Hmask. injection Hmask as <-.
  split.
  - intros (m & Hi & Hm).
    apply lookup_zip_with_Some in Hm as (d & w & Hdw & Hdm & Hw).
    apply list_lookup_fmap_Some in Hw as (r & -> & Hrm).
    symmetry in Hdw. apply andb_true_iff in Hdw as [-> Hpos].
    exists m, r. by rewrite <- positive_reward.
  - intros (m & r & Hi & Hdm & Hrm & Hpos). exists m. split; [done|].
    apply lookup_zip_with_Some. exists true, (negb (Qle_bool r 0)).
    split; [|split; [done|]].
    + apply positive_reward in Hpos. by rewrite Hpos.
    + by rewrite list_lookup_fmap, Hrm.
Qed.

Lemma update_nothing (st : GameStats) :
  update_last_reward_and_values [] [] st = Ok st.
Proof. by destruct st. Qed.

(** X17. A step that nobody wins leaves the store of the other player as
    it is: when no active game is both finished and rewarded, the late
    correction of [run_single_game] returns the store unchanged. *)
Theorem no_winner_no_correction (active_games_index : list Z) (dones : list bool)
  (rewards : list Q) (other : GameStats) :
  length dones = length active_games_index ->
  length rewards = length active_games_index ->
  (forall slot, ~ wins active_games_index dones rewards slot) ->
  correct_other_player active_games_index dones rewards other = Ok other.
Proof.
  intros Hd Hr Hno. unfold correct_other_player.
  destruct (bcast2 andb dones (map (fun r => negb (Qle_bool r 0)) rewards))
    as [mask|] eqn:Hmask.
  2:{ unfold bcast2 in Hmask. by rewrite length_map, Hd, Hr, Nat.eqb_refl in Hmask. }
  simpl. unfold masked.
  assert (length mask = length active_games_index) as Hlen.
  { unfold bcast2 in Hmask. rewrite length_map, Hd, Hr, Nat.eqb_refl in Hmask.
    injection Hmask as <-. rewrite length_zip_with, length_map. lia. }
  rewrite Hlen, Nat.eqb_refl. simpl.
  assert (omap (fun p : Z * bool => if p.2 then Some p.1 else None)
               (zip active_games_index mask) = []) as ->.
  { apply elem_of_nil_inv. intros i Hin. apply masked_elem in Hin.
    apply (win_index_wins _ _ _ _ _ Hd Hr Hmask) in Hin
      as (m & r & Hi & Hdm & Hrm & Hpos).
    apply (Hno (Z.to_nat i)). by exists m, i, r. }
  apply update_nothing.
Qed.

(** X18. The games that the mover has just won cost the other player the
    reward -1 at the last step: when the late correction of
    [run_single_game] returns for distinct active games, the store of the
    other player is changed in [rewards] only; for every slot that [wins]
    the entry that [episode_len[slot] - 1] names becomes -1; and the rows
    of all other slots are kept. *)
Theorem correction_targets_winners (active_games_index : list Z) (dones : list bool)
  (rewards0 : list Q) (other other' : GameStats) :
  correct_other_player active_games_index dones rewards0 other = Ok other' ->
  length dones = length active_games_index ->
  length rewards0 = length active_games_index ->
  Forall (fun i => 0 <= i) active_games_index -> NoDup active_games_index ->
  other' = with_rewards other (rewards other') /\
  (forall slot,
      wins active_games_index dones rewards0 slot ->
      exists pos, last_pos other slot = Some pos /\
                  cell2 (rewards other') slot pos = Some (-1)%Q) /\
  (forall slot,
      ~ wins active_games_index dones rewards0 slot ->
      rewards other' !! slot = rewards other !! slot).
Proof.
  intros H Hd Hr Hpos Hnd. unfold correct_other_player in H.
  apply bind_Ok in H as (mask & Hmask & H). apply or_raise_Ok in Hmask.
  apply bind_Ok in H as (win & Hwin & H). unfold masked in Hwin.
  apply bind_Ok in Hwin as (_ & _ & [= <-]).
  set (win := omap _ _) in *.
  assert (forall i, i ∈ win <-> exists m r,
               active_games_index !! m = Some i /\ dones !! m = Some true /\
               rewards0 !! m = Some r /\ (0 < r)%Q) as Hwins.
  { intros i. unfold win. rewrite masked_elem.
    by apply win_index_wins. }
  assert (Forall (fun i => 0 <= i) win) as Hwpos.
  { apply Forall_forall. intros i Hi. apply Hwins in Hi as (m & _ & Hm & _).
    by eapply (Forall_lookup_1 _ _ _ _ Hpos). }
  assert (NoDup win) as Hwnd by (by apply masked_NoDup).
  apply update_inv in H as (idx & elen & vals & Hidx & Helen & Hvals & Hput & Hst).
  apply slots_nonneg in Hidx as Hidx'; [|done]. 
  assert (NoDup idx) as Hind by (subst idx; by apply NoDup_to_nat).
  split; [done|]. split.
  - intros slot (m & i & r & Hi & <- & Hdm & Hrm & Hr0).
    assert (i ∈ win) as Hin by (apply Hwins; by exists m, r).
    apply list_elem_of_lookup in Hin as [j Hj].
    assert (idx !! j = Some (Z.to_nat i)) as Hij.
    { subst idx. by rewrite list_lookup_fmap, Hj. }
    destruct (lookup_lt_is_Some_2 elen j) as [e He].
    { apply mapM_Some, Forall2_length in Helen. rewrite <- Helen.
      by eapply lookup_lt_Some. }
    destruct (lookup_lt_is_Some_2 vals j) as [v Hv].
    { rewrite (expand_length _ _ _ Hvals). by eapply lookup_lt_Some. }
    assert (v = (-1)%Q) as ->.
    { assert (Forall (fun v => v = (-1)%Q) vals) as Hall.
      { eapply expand_Forall; [exact Hvals|]. apply Forall_forall.
        intros x Hx. by apply list_elem_of_fmap in Hx as (? & -> & _). }
      by eapply (Forall_lookup_1 _ _ _ _ Hall). }
    destruct (index_put2_written _ _ _ _ _ j _ (add64 e (-1)) (-1)%Q Hind Hput Hij)
      as (t & Ht & Hcell); [by rewrite list_lookup_fmap, He|done|].
    exists t. split; [|done]. unfold last_pos.
    rewrite <- (gather_lookup _ _ _ _ _ Helen Hij), He. done.
  - intros slot Hno. apply (index_put2_row_frame _ _ _ _ _ _ Hput).
    intros Hin. apply Hno. apply list_elem_of_lookup in Hin as [j Hj].
    subst idx. apply list_lookup_fmap_Some in Hj as (i & -> & Hj).
    apply list_elem_of_lookup_2, Hwins in Hj as (m & r & Hi & Hdm & Hrm & Hr0).
    by exists m, i, r.
Qed.

(** A game that ends in a draw: finished, with reward 0. *)
Lemma no_winner_no_correction_witness :
  correct_other_player [0] [true] [0%Q] store_a2 = Ok store_a2.
Proof.
  apply (no_winner_no_correction [0] [true] [0%Q] store_a2).
  - reflexivity.
  - reflexivity.
  - intros slot (m & i & r & _ & _ & _ & Hr & Hpos).
    destruct m as [|m]; [|done]. injection Hr as <-. by apply Qlt_irrefl in Hpos.
Defined.

(** The mover wins the game of slot 0 after the other player has recorded
    two steps: the reward of the second step becomes -1. *)
Lemma correction_targets_winners_witness :
  exists pos, last_pos store_a2 0 = Some pos /\
              cell2 (rewards store_a3) 0 pos = Some (-1)%Q.
Proof.
  destruct (correction_targets_winners [0] [true] [1%Q] store_a2 store_a3)
    as (_ & Hwin & _).
  - by vm_compute.
  - reflexivity.
  - reflexivity.
  - repeat constructor. lia.
  - apply NoDup_singleton.
  - apply Hwin. exists 0%nat, 0, 1%Q. repeat split; reflexivity.
Defined.
